(** * MarkMyMedia: the video-marking pipeline [mark_video]

    A shallow embedding of [src/markmymedia/mark_video.py] together with the
    parts of [errors.py] and [formats.py] it relies on, and of the Python
    standard-library operations it calls ([str] methods, [pathlib],
    [os.path], [fractions.Fraction], [subprocess.run], [os.remove]).  The
    second part embeds the rest of the package as far as it can be: the
    messages of [errors.py], [mark_audio.py], the control flow of
    [mark_image.py] around the image library, [io.py], and
    [ensure_output_dir] and the three workers of [cli.py].

    Conventions.
    - Python text is modelled as a Rocq [string] of 8-bit characters, read
      as the code points below 256; case conversion, white space and
      digits are the ones Python gives these code points.
    - The filesystem is a finite map from path strings to the kind of node
      found there.  Looking a path up never fails: [exists], [is_file] and
      [is_dir] answer for every path; creating and removing can be refused
      with an [OSError], and [mkdir] raises a [ValueError] for a path that
      holds a NUL byte.
    - Everything the program cannot decide by itself (the probe output, the
      behaviour of the spawned [ffmpeg] processes, the temporary directory,
      the random identifier, removal permissions) is a field of the
      environment record [Env]; the general theorems hold for every
      environment, and the module [Demo] gives concrete ones.
    - Exceptions are values of the type [exn]; a computation is a function
      from a state to a result and a state. *)

From Stdlib Require Import ZArith String Ascii List DecimalString Lia.
From Stdlib Require QArith DecimalPos.
From stdpp Require Import gmap strings list fin_maps.

Open Scope string_scope.

(** ** Python [str] operations *)

Module PyStr.

(** The code points below 256 that [str.lower] changes: [A] to [Z], and
    the capital letters from 192 to 222, the sign at 215 apart. *)
Definition is_upper (c : ascii) : bool :=
  let n := nat_of_ascii c in
  ((65 <=? n)%nat && (n <=? 90)%nat)
  || ((192 <=? n)%nat && (n <=? 222)%nat && negb (n =? 215)%nat).

Definition lower_char (c : ascii) : ascii :=
  if is_upper c then ascii_of_nat (nat_of_ascii c + 32) else c.

(** [s.lower()] *)
Fixpoint lower (s : string) : string :=
  match s with
  | EmptyString => EmptyString
  | String c s' => String (lower_char c) (lower s')
  end.

(** [s.endswith(suf)]: some tail of [s] is [suf]. *)
Fixpoint endswith (s suf : string) : bool :=
  if String.eqb s suf then true
  else match s with
       | EmptyString => false
       | String _ s' => endswith s' suf
       end.

(** [s.rfind(c)] for a one-character needle; [None] stands for [-1]. *)
Fixpoint rfind (c : ascii) (s : string) : option nat :=
  match s with
  | EmptyString => None
  | String a s' =>
      match rfind c s' with
      | Some i => Some (S i)
      | None => if Ascii.eqb a c then Some 0%nat else None
      end
  end.

(** [s[:n]] and [s[n:]] *)
Fixpoint take (n : nat) (s : string) : string :=
  match n, s with
  | S n', String c s' => String c (take n' s')
  | _, _ => EmptyString
  end.

Fixpoint drop (n : nat) (s : string) : string :=
  match n, s with
  | S n', String _ s' => drop n' s'
  | _, _ => s
  end.

(** [sep.join(l)] *)
Fixpoint join (sep : string) (l : list string) : string :=
  match l with
  | [] => EmptyString
  | [x] => x
  | x :: l' => x +:+ sep +:+ join sep l'
  end.

(** [s.split(c)] for a one-character separator: never an empty list. *)
Fixpoint split (c : ascii) (s : string) : list string :=
  match s with
  | EmptyString => [EmptyString]
  | String a s' =>
      if Ascii.eqb a c then EmptyString :: split c s'
      else match split c s' with
           | x :: l => String a x :: l
           | [] => [String a EmptyString]
           end
  end.

(** White space as [str.isspace] and the [\s] of a pattern see it on the
    code points below 256: 9 to 13, 28 to 32, 133 and 160. *)
Definition is_space (c : ascii) : bool :=
  let n := nat_of_ascii c in
  ((9 <=? n)%nat && (n <=? 13)%nat) || ((28 <=? n)%nat && (n <=? 32)%nat)
  || (n =? 133)%nat || (n =? 160)%nat.

(** ['\0' in s] *)
Fixpoint has_nul (s : string) : bool :=
  match s with
  | String c s' => (nat_of_ascii c =? 0)%nat || has_nul s'
  | EmptyString => false
  end.

Fixpoint lstrip (s : string) : string :=
  match s with
  | String c s' => if is_space c then lstrip s' else s
  | EmptyString => EmptyString
  end.

Definition is_digit (c : ascii) : bool :=
  (48 <=? nat_of_ascii c)%nat && (nat_of_ascii c <=? 57)%nat.

Fixpoint int_of_digits_from (acc : Z) (s : string) : Z :=
  match s with
  | EmptyString => acc
  | String c s' =>
      int_of_digits_from (10 * acc + (Z.of_nat (nat_of_ascii c) - 48)) s'
  end.

(** [int(s)] on a string of decimal digits *)
Definition int_of_digits (s : string) : Z := int_of_digits_from 0 s.

(** [str(n)] for an integer *)
Definition str_of_int (n : Z) : string := NilZero.string_of_int (Z.to_int n).

(** [sorted(l)] on strings: insertion sort by code-point order. *)
Fixpoint insert_sorted (x : string) (l : list string) : list string :=
  match l with
  | [] => [x]
  | y :: l' => if String.leb x y then x :: l else y :: insert_sorted x l'
  end.

Definition sorted (l : list string) : list string :=
  foldr insert_sorted [] l.

End PyStr.

(** ** [pathlib.PurePosixPath] *)

Module Path.

(** A parsed path: the root (["" ], ["/"] or ["//"]) and the components
    after it, as [pathlib] keeps them. *)
Record t := mk { root : string; parts : list string }.

(** [splitroot] of the POSIX flavour: exactly two leading slashes are
    kept, any other number collapses to one. *)
Fixpoint lstrip_sep (s : string) : string :=
  match s with
  | String "/" s' => lstrip_sep s'
  | _ => s
  end.

Definition splitroot (part : string) : string * string :=
  match part with
  | String "/" _ =>
      let stripped := lstrip_sep part in
      if (String.length part - String.length stripped =? 2)%nat
      then ("//", stripped) else ("/", stripped)
  | _ => ("", part)
  end.

(** [Path(s)]: empty and ["."] components are dropped. *)
Definition of_string (s : string) : t :=
  let '(r, rel) := splitroot s in
  mk r (filter (λ x, x ≠ "" ∧ x ≠ ".") (PyStr.split "/" rel)).

(** [str(p)] *)
Definition str (p : t) : string :=
  match root p +:+ PyStr.join "/" (parts p) with
  | EmptyString => "."
  | s => s
  end.

(** [p.name] *)
Definition name (p : t) : string := List.last (parts p) "".

(** the index [i] of the last dot when [0 < i < len(name) - 1] *)
Definition suffix_index (nm : string) : option nat :=
  match PyStr.rfind "." nm with
  | Some i =>
      if (0 <? i)%nat && (i <? String.length nm - 1)%nat then Some i else None
  | None => None
  end.

(** [p.suffix] *)
Definition suffix (p : t) : string :=
  match suffix_index (name p) with
  | Some i => PyStr.drop i (name p)
  | None => ""
  end.

(** [p.stem] *)
Definition stem (p : t) : string :=
  match suffix_index (name p) with
  | Some i => PyStr.take i (name p)
  | None => name p
  end.

(** [p.parent] *)
Definition parent (p : t) : t := mk (root p) (removelast (parts p)).

End Path.

(** ** [fractions.Fraction] built from a string

    The constructor as Python 3.11 has it.  It matches the string against

      \A\s* (?P<sign>[-+]?) (?=\d|\.\d) (?P<num> \d* | G )
      (?: (?: / (?P<denom> G ) )?
        | (?: \. (?P<decimal> \d* | G ) )? (?: E (?P<exp> [-+]? G ) )? )
      \s*\Z

    where G stands for [\d+(_\d+)*], without regard to case, and computes
    numerator and denominator from the groups.  (In 3.11.2 the pattern of
    the decimal part reads [d*] for [\d*]; the strings this admits in
    addition make the [int] that follows raise the same [ValueError].)
    Each group can only be the longest text that fits it: a shorter one
    leaves a digit or an underscore where the pattern wants [/], [.], [E],
    white space or the end.  [int] and [str] raise a [ValueError] beyond
    4300 digits.  Running out of memory on a large exponent is not
    modelled. *)

Module Fraction.

Record t := mk { numerator : Z; denominator : Z }.

(** The groups of [_RATIONAL_FORMAT]: sign, numerator, and either a
    denominator or a decimal part with an exponent. *)
Record groups := mk_groups {
  g_neg : bool;
  g_num : string;
  g_denom : option string;
  g_decimal : option string;
  g_exp : option (bool * string)
}.

Definition all_space (s : string) : bool :=
  if PyStr.lstrip s is EmptyString then true else false.

(** After a digit of a group: the longest text that goes on with digits,
    or with an underscore that a digit follows; and the rest. *)
Fixpoint group_tail (s : string) : string * string :=
  match s with
  | String c s' =>
      if PyStr.is_digit c then
        let '(d, r) := group_tail s' in (String c d, r)
      else if Ascii.eqb c "_" then
        match s' with
        | String c' _ =>
            if PyStr.is_digit c' then
              let '(d, r) := group_tail s' in (String c d, r)
            else (EmptyString, s)
        | EmptyString => (EmptyString, s)
        end
      else (EmptyString, s)
  | EmptyString => (EmptyString, EmptyString)
  end.

(** The longest prefix of the form [\d+(_\d+)*], empty when the string
    does not start with a digit; and the rest. *)
Definition span_group (s : string) : string * string :=
  match s with
  | String c _ => if PyStr.is_digit c then group_tail s else (EmptyString, s)
  | EmptyString => (EmptyString, EmptyString)
  end.

(** an optional sign [[-+]?]: whether it is [-], and the rest *)
Definition match_sign (s : string) : bool * string :=
  match s with
  | String c r =>
      if Ascii.eqb c "-" then (true, r)
      else if Ascii.eqb c "+" then (false, r)
      else (false, s)
  | EmptyString => (false, s)
  end.

(** the lookahead [(?=\d|\.\d)] *)
Definition lookahead (s : string) : bool :=
  match s with
  | String c r =>
      PyStr.is_digit c ||
      (Ascii.eqb c "." &&
       match r with String c' _ => PyStr.is_digit c' | _ => false end)
  | EmptyString => false
  end.

(** the exponent group: [E], an optional sign and [\d+(_\d+)*], matched
    without regard to case *)
Definition match_exp (s : string) : option (bool * string) * string :=
  match s with
  | String e s' =>
      if Ascii.eqb e "E" || Ascii.eqb e "e" then
        let '(neg, s'') := match_sign s' in
        let '(d, r) := span_group s'' in
        if d is EmptyString then (None, s) else (Some (neg, d), r)
      else (None, s)
  | EmptyString => (None, s)
  end.

(** [_RATIONAL_FORMAT.match(s)] *)
Definition rational_match (s : string) : option groups :=
  let '(neg, s2) := match_sign (PyStr.lstrip s) in
  if negb (lookahead s2) then None else
  let '(num, s3) := span_group s2 in
  match s3 with
  | String "/" r =>
      let '(den, r') := span_group r in
      if den is EmptyString then None
      else if all_space r' then Some (mk_groups neg num (Some den) None None)
      else None
  | _ =>
      let '(dec, s4) :=
        match s3 with
        | String "." r => let '(d, r') := span_group r in (Some d, r')
        | _ => (None, s3)
        end in
      let '(ex, s5) := match_exp s4 in
      if all_space s5 then Some (mk_groups neg num None dec ex) else None
  end.

(** [g.replace('_', '')] *)
Fixpoint remove_underscores (g : string) : string :=
  match g with
  | String c g' =>
      if Ascii.eqb c "_" then remove_underscores g'
      else String c (remove_underscores g')
  | EmptyString => EmptyString
  end.

(** [sys.get_int_max_str_digits()] *)
Definition max_str_digits : Z := 4300.

(** [int(g)] for a group [g]; [None] is the [ValueError] for more than
    4300 digits. *)
Definition int_of_group (g : string) : option Z :=
  let d := remove_underscores g in
  if (max_str_digits <? Z.of_nat (String.length d))%Z then None
  else Some (PyStr.int_of_digits d).

(** numerator and denominator before normalisation, as [__new__]
    computes them from the groups; [None] is a [ValueError] of [int] *)
Definition of_groups (g : groups) : option (Z * Z) :=
  let sign (n : Z) := if g_neg g then (- n)%Z else n in
  match int_of_group (if g_num g is EmptyString then "0" else g_num g) with
  | None => None
  | Some n0 =>
      match g_denom g with
      | Some den =>
          match int_of_group den with
          | Some d => Some (sign n0, d)
          | None => None
          end
      | None =>
          let scaled :=
            match g_decimal g with
            | Some (String _ _ as dec) =>
                let scale :=
                  (10 ^ Z.of_nat (String.length (remove_underscores dec)))%Z in
                match int_of_group dec with
                | Some v => Some ((n0 * scale + v)%Z, scale)
                | None => None
                end
            | _ => Some (n0, 1%Z)
            end in
          match scaled with
          | None => None
          | Some (n1, d1) =>
              match g_exp g with
              | Some (neg, e) =>
                  match int_of_group e with
                  | Some x =>
                      let exp := if neg then (- x)%Z else x in
                      if (0 <=? exp)%Z then Some (sign (n1 * 10 ^ exp)%Z, d1)
                      else Some (sign n1, (d1 * 10 ^ (- exp))%Z)
                  | None => None
                  end
              | None => Some (sign n1, d1)
              end
          end
      end
  end.

Inductive error := ValueError | ZeroDivisionError.

(** [Fraction(s)] for a string [s] *)
Definition of_string (s : string) : error + t :=
  match rational_match s with
  | None => inl ValueError
  | Some g =>
      match of_groups g with
      | None => inl ValueError
      | Some (n, d) =>
          if (d =? 0)%Z then inl ZeroDivisionError
          else let k := Z.gcd n d in inr (mk (n / k)%Z (d / k)%Z)
      end
  end.

(** the least integer that [str] refuses: [10 ** 4300] *)
Definition str_limit : Z := Eval vm_compute in (10 ^ 4300)%Z.

(** [str(n)] returns: [n] has at most 4300 digits *)
Definition int_str_fits (n : Z) : bool := (Z.abs n <? str_limit)%Z.

(** [str(f)] returns *)
Definition str_fits (f : t) : bool :=
  int_str_fits (numerator f)
  && ((denominator f =? 1)%Z || int_str_fits (denominator f)).

(** [str(f)], when it returns *)
Definition str (f : t) : string :=
  if (denominator f =? 1)%Z then PyStr.str_of_int (numerator f)
  else PyStr.str_of_int (numerator f) +:+ "/" +:+ PyStr.str_of_int (denominator f).

End Fraction.

(** ** Exceptions: [errors.py] and the built-in classes the code meets *)

Module Cls.

Inductive t :=
  | Exception
  (* errors.py *)
  | MarkerError | FileError | InputFileNotFoundError | InvalidOutputPathError
  | DependencyError | FFmpegNotFoundError | FFmpegProcessError
  | MediaProcessingError | UnsupportedFileTypeError | AudioMarkingError
  | ImageMarkingError | VideoMarkingError | InvalidMediaError
  (* built-in and subprocess *)
  | OSError | FileNotFoundError | FileExistsError | NotADirectoryError
  | IsADirectoryError | PermissionError
  | SubprocessError | CalledProcessError
  | AttributeError | ValueError | TypeError | ArithmeticError | ZeroDivisionError.

Global Instance eq_dec : EqDecision t.
Proof. solve_decision. Defined.

(** the class each one is declared to extend *)
Definition base (c : t) : option t :=
  match c with
  | Exception => None
  | MarkerError => Some Exception
  | FileError => Some MarkerError
  | InputFileNotFoundError => Some FileError
  | InvalidOutputPathError => Some FileError
  | DependencyError => Some MarkerError
  | FFmpegNotFoundError => Some DependencyError
  | FFmpegProcessError => Some DependencyError
  | MediaProcessingError => Some MarkerError
  | UnsupportedFileTypeError => Some MediaProcessingError
  | AudioMarkingError => Some MediaProcessingError
  | ImageMarkingError => Some MediaProcessingError
  | VideoMarkingError => Some MediaProcessingError
  | InvalidMediaError => Some MediaProcessingError
  | OSError => Some Exception
  | FileNotFoundError => Some OSError
  | FileExistsError => Some OSError
  | NotADirectoryError => Some OSError
  | IsADirectoryError => Some OSError
  | PermissionError => Some OSError
  | SubprocessError => Some Exception
  | CalledProcessError => Some SubprocessError
  | AttributeError => Some Exception
  | ValueError => Some Exception
  | TypeError => Some Exception
  | ArithmeticError => Some Exception
  | ZeroDivisionError => Some ArithmeticError
  end.

Fixpoint subclass_upto (fuel : nat) (c d : t) : bool :=
  bool_decide (c = d) ||
  match fuel, base c with
  | S fuel', Some b => subclass_upto fuel' b d
  | _, _ => false
  end.

(** [issubclass(c, d)]; no chain of bases is longer than four. *)
Definition subclass (c d : t) : bool := subclass_upto 4 c d.

End Cls.

(** An exception object: the classes of [errors.py] that keep attributes,
    [subprocess.CalledProcessError], and [Raise c msg] for an exception of
    class [c] built from a message only. *)
Inductive exn :=
  | InputFileNotFoundError (path : string)
  | InvalidOutputPathError (path reason : string)
  | FFmpegNotFoundError (executable_name : string)
  | FFmpegProcessError (command : list string) (stderr : option string)
  | UnsupportedFileTypeError (path : string) (supported_formats : gset string)
  | CalledProcessError (returncode : Z) (cmd : list string)
                       (output stderr : option string)
  | Raise (c : Cls.t) (msg : string).

Abbreviation FileError := (Raise Cls.FileError).
Abbreviation VideoMarkingError := (Raise Cls.VideoMarkingError).
Abbreviation InvalidMediaError := (Raise Cls.InvalidMediaError).
Abbreviation AttributeError := (Raise Cls.AttributeError).
Abbreviation FileNotFoundError := (Raise Cls.FileNotFoundError).

Definition class_of (e : exn) : Cls.t :=
  match e with
  | InputFileNotFoundError _ => Cls.InputFileNotFoundError
  | InvalidOutputPathError _ _ => Cls.InvalidOutputPathError
  | FFmpegNotFoundError _ => Cls.FFmpegNotFoundError
  | FFmpegProcessError _ _ => Cls.FFmpegProcessError
  | UnsupportedFileTypeError _ _ => Cls.UnsupportedFileTypeError
  | CalledProcessError _ _ _ _ => Cls.CalledProcessError
  | Raise c _ => c
  end.

(** [isinstance(e, c)] *)
Definition isinstance (e : exn) (c : Cls.t) : bool :=
  Cls.subclass (class_of e) c.

(** ** [formats.py] *)

Definition VIDEO_EXTS : gset string :=
  {[ ".mp4"; ".mov"; ".avi"; ".mkv"; ".webm"; ".mpg"; ".mpeg" ]}.

(** ** The probe output *)

(** Modelled from the spec: the value [_ffprobe_param] returns ([utils.py]
    is not among the sources).  The spec describes a structured description
    holding a [streams] list whose entries carry [codec_type], [codec_name],
    [width], [height] and [r_frame_rate]; the code reads every one of them
    with [dict.get], so each may be missing. *)
Record Stream := {
  codec_type : option string;
  codec_name : option string;
  width : option Z;
  height : option Z;
  r_frame_rate : option string
}.

Record Probe := { streams : option (list Stream) }.

(** ** State, results and the computation monad *)

Inductive node := File | Dir.

Global Instance node_eq_dec : EqDecision node.
Proof. solve_decision. Defined.

(** What a call leaves in the log: the text sources it asked for and the
    command lines it handed to [subprocess.run]. *)
Inductive event :=
  | Drawtext (text : string) (resolution : Z * Z)
  | Run (cmd : list string).

(** The filesystem, the log, and the three local variables that hold the
    temporary paths ([None] until assigned). *)
Record State := mkState {
  fs : gmap string node;
  log : list event;
  marker_container : option string;
  marker_ts : option string;
  main_ts : option string
}.

Inductive Result (A : Type) :=
  | Ok (a : A)
  | Err (e : exn).
Arguments Ok {A} a.
Arguments Err {A} e.

Definition M (A : Type) : Type := State → Result A * State.

Definition ret {A} (a : A) : M A := λ s, (Ok a, s).

Definition raise {A} (e : exn) : M A := λ s, (Err e, s).

Definition bind {A B} (m : M A) (k : A → M B) : M B :=
  λ s, match m s with
       | (Ok a, s') => k a s'
       | (Err e, s') => (Err e, s')
       end.

Notation "x <- m ;; k" := (bind m (λ x, k))
  (at level 100, m at next level, right associativity, only parsing).
Notation "m ;; k" := (bind m (λ _, k))
  (at level 100, right associativity, only parsing).

(** [try: body  except <any> as e: handler e]; what the handler raises is
    not handled again. *)
Definition try_except {A} (body : M A) (handler : exn → M A) : M A :=
  λ s, match body s with
       | (Ok a, s') => (Ok a, s')
       | (Err e, s') => handler e s'
       end.

(** [try: body  finally: fin]; an exception of [fin] replaces the outcome
    of [body]. *)
Definition try_finally {A} (body : M A) (fin : M unit) : M A :=
  λ s, match body s with
       | (r, s') =>
           match fin s' with
           | (Ok _, s'') => (r, s'')
           | (Err e, s'') => (Err e, s'')
           end
       end.

(** [for x in l: f x] *)
Fixpoint for_each {A} (l : list A) (f : A → M unit) : M unit :=
  match l with
  | [] => ret tt
  | x :: l' => f x ;; for_each l' f
  end.

Definition get_fs : M (gmap string node) := λ s, (Ok (fs s), s).

Definition set_fs (m : gmap string node) : M unit :=
  λ s, (Ok tt, mkState m (log s) (marker_container s) (marker_ts s) (main_ts s)).

Definition emit (e : event) : M unit :=
  λ s, (Ok tt, mkState (fs s) (log s ++ [e])%list
                       (marker_container s) (marker_ts s) (main_ts s)).

Definition set_marker_container (p : option string) : M unit :=
  λ s, (Ok tt, mkState (fs s) (log s) p (marker_ts s) (main_ts s)).

Definition set_marker_ts (p : option string) : M unit :=
  λ s, (Ok tt, mkState (fs s) (log s) (marker_container s) p (main_ts s)).

Definition set_main_ts (p : option string) : M unit :=
  λ s, (Ok tt, mkState (fs s) (log s) (marker_container s) (marker_ts s) p).

(** ** The environment of one call *)

Module subprocess.

(** the [stdout=] and [stderr=] arguments *)
Inductive redirect := Inherit | PIPE | DEVNULL | STDOUT.

(** How the operating system answers an attempt to run a command line:
    the executable is missing, or the process ran and exited with a
    status, having written [out] and [err] to its two output streams. *)
Inductive outcome :=
  | NotFound
  | Exited (returncode : Z) (out err : string).

End subprocess.

Record Env := {
  (** [tempfile.gettempdir()] *)
  gettempdir : string;
  (** [uuid.uuid4().hex] *)
  uuid4_hex : string;
  (** [utils._ffprobe_param(path)], which reads the filesystem *)
  _ffprobe_param : string → gmap string node → Result Probe;
  (** [utils._generate_lavfi_drawtext(text, resolution, duration)] *)
  _generate_lavfi_drawtext : string → Z * Z → QArith_base.Q → Result string;
  (** running a command line, with what it does to the filesystem *)
  execute : list string → gmap string node → subprocess.outcome * gmap string node;
  (** paths the operating system refuses to create or remove *)
  denied : string → bool;
  (** [bytes.decode('utf-8', 'ignore')] *)
  decode_utf8_ignore : string → string;
  (** [str(e)] for an exception object *)
  exn_str : exn → string
}.

Section MarkVideo.

Variable E : Env.

(** *** [os] and [pathlib] on the filesystem *)

(** The current directory and the root are always there. *)
Definition lookup_path (m : gmap string node) (p : string) : option node :=
  if bool_decide (p = "." ∨ p = "/" ∨ p = "//") then Some Dir else m !! p.

(** [os.path.exists(p)] *)
Definition os_path_exists (p : string) : M bool :=
  m <- get_fs ;; ret (bool_decide (is_Some (lookup_path m p))).

(** [p.exists()], [p.is_file()], [p.is_dir()] *)
Definition path_exists (p : Path.t) : M bool := os_path_exists (Path.str p).

Definition path_is_file (p : Path.t) : M bool :=
  m <- get_fs ;; ret (bool_decide (lookup_path m (Path.str p) = Some File)).

Definition path_is_dir (p : Path.t) : M bool :=
  m <- get_fs ;; ret (bool_decide (lookup_path m (Path.str p) = Some Dir)).

(** [os.path.join(a, b)] *)
Definition os_path_join (a b : string) : string :=
  match b with
  | String "/" _ => b
  | _ => if bool_decide (a = "") || PyStr.endswith a "/" then a +:+ b
         else a +:+ "/" +:+ b
  end.

(** [os.path.basename(p)] *)
Definition os_path_basename (p : string) : string :=
  match PyStr.rfind "/" p with
  | Some i => PyStr.drop (S i) p
  | None => p
  end.

(** [os.remove(p)] *)
Definition os_remove (p : string) : M unit :=
  m <- get_fs ;;
  match lookup_path m p with
  | None => raise (FileNotFoundError "No such file or directory")
  | Some Dir => raise (Raise Cls.IsADirectoryError "Is a directory")
  | Some File =>
      if denied E p then raise (Raise Cls.PermissionError "Permission denied")
      else set_fs (delete p m)
  end.

(** [os.mkdir(p)]; a path that holds a NUL byte is refused with a
    [ValueError] before the operating system is asked. *)
Definition os_mkdir (p : Path.t) : M unit :=
  if PyStr.has_nul (Path.str p)
  then raise (Raise Cls.ValueError "embedded null byte") else
  m <- get_fs ;;
  match lookup_path m (Path.str p) with
  | Some _ => raise (Raise Cls.FileExistsError "File exists")
  | None =>
      match lookup_path m (Path.str (Path.parent p)) with
      | None => raise (FileNotFoundError "No such file or directory")
      | Some File => raise (Raise Cls.NotADirectoryError "Not a directory")
      | Some Dir =>
          if denied E (Path.str p)
          then raise (Raise Cls.PermissionError "Permission denied")
          else set_fs (<[Path.str p := Dir]> m)
      end
  end.

(** [p.mkdir(parents=False, exist_ok=True)] *)
Definition mkdir_exist_ok (p : Path.t) : M unit :=
  try_except (os_mkdir p) (λ e,
    if isinstance e Cls.OSError then
      d <- path_is_dir p ;; if d then ret tt else raise e
    else raise e).

(** [Path(root, rev(rparts)).mkdir(parents=True, exist_ok=True)]: when
    the parent is missing it is made first and the directory is then
    made again. *)
Fixpoint mkdir_parents (root : string) (rparts : list string) : M unit :=
  let p := Path.mk root (rev rparts) in
  try_except (os_mkdir p) (λ e,
    if isinstance e Cls.FileNotFoundError then
      match rparts with
      | [] => raise e
      | _ :: rparts' => mkdir_parents root rparts' ;; mkdir_exist_ok p
      end
    else if isinstance e Cls.OSError then
      d <- path_is_dir p ;; if d then ret tt else raise e
    else raise e).

Definition path_mkdir_parents (p : Path.t) : M unit :=
  mkdir_parents (Path.root p) (rev (Path.parts p)).

(** [p.with_name(name)] *)
Definition with_name (p : Path.t) (name : string) : M Path.t :=
  if bool_decide (Path.name p = "") then
    raise (Raise Cls.ValueError "has an empty name")
  else
    let q := Path.of_string name in
    if bool_decide (name = "") || PyStr.endswith name "/"
       || negb (bool_decide (Path.root q = ""))
       || negb (length (Path.parts q) =? 1)%nat
    then raise (Raise Cls.ValueError "Invalid name")
    else ret (Path.mk (Path.root p) (removelast (Path.parts p) ++ [name])%list).

(** [p.with_stem(stem)] *)
Definition with_stem (p : Path.t) (stem : string) : M Path.t :=
  with_name p (stem +:+ Path.suffix p).

(** *** [subprocess.run] *)

(** [subprocess.run(cmd, check=check, stdout=stdout, stderr=stderr)].
    A stream is captured only when it is sent to [PIPE]; the exception
    raised for a non-zero status carries what was captured, so [None]
    for a stream that was not. *)
Definition subprocess_run (cmd : list string) (check : bool)
    (stdout stderr : subprocess.redirect) : M (option string * option string) :=
  emit (Run cmd) ;;
  m <- get_fs ;;
  match execute E cmd m with
  | (subprocess.NotFound, _) =>
      raise (FileNotFoundError "No such file or directory")
  | (subprocess.Exited rc out err, m') =>
      set_fs m' ;;
      let captured_out :=
        if stdout is subprocess.PIPE then Some out else None in
      let captured_err :=
        if stderr is subprocess.PIPE then Some err else None in
      if check && negb (rc =? 0)%Z
      then raise (CalledProcessError rc cmd captured_out captured_err)
      else ret (captured_out, captured_err)
  end.

(** *** [mark_video] *)

(** [subprocess.run(cmd, check=True, stdout=subprocess.DEVNULL,
    stderr=subprocess.STDOUT)], as every stage calls it *)
Definition run_checked (cmd : list string) : M unit :=
  subprocess_run cmd true subprocess.DEVNULL subprocess.STDOUT ;; ret tt.

(** [next((s for s in streams if s.get("codec_type") == kind), None)] *)
Definition first_stream (kind : string) (l : list Stream) : option Stream :=
  List.find (λ s, bool_decide (codec_type s = Some kind)) l.

(** lines 98-102: the frame rate handed to the encoder *)
Definition resolve_fps (video_stream : Stream) : string :=
  let fps_str := default "30/1" (r_frame_rate video_stream) in
  match Fraction.of_string fps_str with
  | inr f => if Fraction.str_fits f then Fraction.str f else fps_str
  | inl _ => fps_str
  end.

(** lines 128-138 *)
Definition cmd_marker (lavfi_src video_encoder fps marker_container : string)
    : list string :=
  [ "ffmpeg"; "-y";
    "-f"; "lavfi"; "-i"; lavfi_src;
    "-f"; "lavfi"; "-i"; "anullsrc=channel_layout=stereo:sample_rate=44100";
    "-shortest";
    "-c:v"; video_encoder;
    "-pix_fmt"; "yuv420p";
    "-r"; fps;
    "-c:a"; "aac"; "-ar"; "44100";
    marker_container ].

(** lines 144-151 *)
Definition cmd_remux (src v_bsf dst : string) : list string :=
  [ "ffmpeg"; "-y";
    "-i"; src;
    "-c"; "copy";
    "-bsf:v"; v_bsf;
    "-f"; "mpegts";
    dst ].

(** lines 155-164 *)
Definition final_cmd (marker_ts main_ts : string) (output_p : Path.t)
    : list string :=
  let concat_input := "concat:" +:+ marker_ts +:+ "|" +:+ main_ts in
  let final_cmd := [ "ffmpeg"; "-y"; "-i"; concat_input; "-c"; "copy" ] in
  let final_cmd :=
    if PyStr.endswith (PyStr.lower (Path.str output_p)) ".mp4"
    then (final_cmd ++ [ "-bsf:a"; "aac_adtstoasc" ])%list
    else final_cmd in
  (final_cmd ++ [ Path.str output_p ])%list.

(** lines 46-72: the input and output paths *)
Definition resolve_paths (input_path : string) (output_path : option string)
    : M Path.t :=
  let input_p := Path.of_string input_path in
  ex <- path_exists input_p ;;
  if negb ex then raise (InputFileNotFoundError input_path) else
  isf <- path_is_file input_p ;;
  if negb isf
  then raise (FileError ("Input path is not a file: " +:+ input_path)) else
  if negb (bool_decide (PyStr.lower (Path.suffix input_p) ∈ VIDEO_EXTS))
  then raise (UnsupportedFileTypeError input_path VIDEO_EXTS) else
  output_p <-
    match output_path with
    | None => with_stem input_p (Path.stem input_p +:+ "_marked")
    | Some output_path =>
        let output_p := Path.of_string output_path in
        if negb (bool_decide (PyStr.lower (Path.suffix output_p) ∈ VIDEO_EXTS))
        then raise (InvalidOutputPathError output_path
               ("Output file extension must be one of " +:+
                PyStr.join ", " (PyStr.sorted (elements VIDEO_EXTS))))
        else
          d <- path_is_dir output_p ;;
          if d
          then raise (InvalidOutputPathError output_path
                        "Output path cannot be a directory.")
          else ret output_p
    end ;;
  try_except (path_mkdir_parents (Path.parent output_p)) (λ e,
    if isinstance e Cls.OSError
    then raise (InvalidOutputPathError (Path.str output_p)
                  ("Could not create parent directory: " +:+ exn_str E e))
    else raise e) ;;
  ret output_p.

(** lines 79-165: the body of the [try] *)
Definition mark_video_body (input_path : string) (output_p : Path.t)
    (resolution : option (Z * Z)) (overlay_text : option string) : M unit :=
  probe <-
    try_except (λ s, (_ffprobe_param E input_path (fs s), s)) (λ e,
      if isinstance e Cls.FFmpegProcessError
      then raise (VideoMarkingError "Failed to probe video parameters.")
      else raise e) ;;
  let streams := default [] (streams probe) in
  if streams is [] then
    raise (InvalidMediaError "No media streams found in the input file.")
  else
  (* first video stream *)
  match first_stream "video" streams with
  | None => raise (InvalidMediaError "No video stream found in the input file.")
  | Some video_stream =>
  let width :=
    match resolution with
    | Some r => r.1
    | None => default 0%Z (width video_stream)
    end in
  let height :=
    match resolution with
    | Some r => r.2
    | None => default 0%Z (height video_stream)
    end in
  if (width <=? 0)%Z || (height <=? 0)%Z then
    raise (InvalidMediaError
             ("Invalid video resolution detected: " +:+ PyStr.str_of_int width
              +:+ "x" +:+ PyStr.str_of_int height +:+ "."))
  else
  let fps := resolve_fps video_stream in
  let video_codec := PyStr.lower (default "" (codec_name video_stream)) in
  if negb (bool_decide (video_codec ∈ ["h264"; "hevc"])) then
    raise (InvalidMediaError
             ("Unsupported video codec: '" +:+ video_codec +:+
              "'. Only h264/hevc are supported for stream copying."))
  else
  (* audio stream (if any) *)
  match first_stream "audio" streams with
  | Some audio_stream =>
      let audio_codec := PyStr.lower (default "" (codec_name audio_stream)) in
      if negb (bool_decide (audio_codec ∈ [""; "aac"])) then
        raise (InvalidMediaError
                 ("Unsupported audio codec: '" +:+ audio_codec +:+
                  "'. Only AAC or no audio is supported for stream copying."))
      else ret tt
  | None => ret tt
  end ;;
  (* unique temporary files *)
  let tmp := gettempdir E in
  let uid := uuid4_hex E in
  let marker_container := os_path_join tmp ("marker_" +:+ uid +:+ ".mp4") in
  let marker_ts := os_path_join tmp ("marker_" +:+ uid +:+ ".ts") in
  let main_ts := os_path_join tmp ("main_" +:+ uid +:+ ".ts") in
  set_marker_container (Some marker_container) ;;
  set_marker_ts (Some marker_ts) ;;
  set_main_ts (Some main_ts) ;;
  let overlay_text :=
    match overlay_text with
    | None => "Filename: " +:+ os_path_basename input_path
    | Some t => t
    end in
  let video_encoder :=
    if bool_decide (video_codec = "h264") then "libx264" else "libx265" in
  emit (Drawtext overlay_text (width, height)) ;;
  lavfi_src <-
    (λ s, (_generate_lavfi_drawtext E overlay_text (width, height)
             (QArith_base.Qmake 1 2), s)) ;;
  (* create the marker: video + silent audio *)
  run_checked (cmd_marker lavfi_src video_encoder fps marker_container) ;;
  (* remux both fragments into MPEG-TS *)
  let v_bsf :=
    if bool_decide (video_codec = "h264")
    then "h264_mp4toannexb" else "hevc_mp4toannexb" in
  for_each [ (marker_container, marker_ts); (input_path, main_ts) ]
    (λ '(src, dst), run_checked (cmd_remux src v_bsf dst)) ;;
  (* final concat *)
  run_checked (final_cmd marker_ts main_ts output_p)
  end.

(** lines 167-174: the [except] clauses, tried in order *)
Definition mark_video_except (e : exn) : M unit :=
  if isinstance e Cls.CalledProcessError then
    match e with
    | CalledProcessError _ cmd _ (Some stderr) =>
        raise (FFmpegProcessError cmd (Some (decode_utf8_ignore E stderr)))
    | CalledProcessError _ _ _ None =>
        raise (AttributeError "'NoneType' object has no attribute 'decode'")
    | _ => raise (AttributeError "object has no attribute 'cmd'")
    end
  else if isinstance e Cls.VideoMarkingError
          || isinstance e Cls.InvalidMediaError
          || isinstance e Cls.FFmpegNotFoundError then raise e
  else if isinstance e Cls.MarkerError then raise e
  else raise (VideoMarkingError
                ("An unexpected error occurred during marking: " +:+ exn_str E e)).

(** lines 177-181: one turn of the loop of the [finally] clause *)
Definition remove_quietly (p : option string) : M unit :=
  match p with
  | Some (String _ _ as p) =>
      ex <- os_path_exists p ;;
      if ex then
        try_except (os_remove p) (λ e,
          if isinstance e Cls.OSError then ret tt else raise e)
      else ret tt
  | _ => ret tt
  end.

(** lines 175-181: the [finally] clause *)
Definition mark_video_finally : M unit :=
  λ s, for_each [ marker_container s; marker_ts s; main_ts s ]
         remove_quietly s.

(** lines 74-174: everything the [finally] clause guards *)
Definition mark_video_try (input_path : string) (output_p : Path.t)
    (resolution : option (Z * Z)) (overlay_text : option string) : M unit :=
  try_except (mark_video_body input_path output_p resolution overlay_text)
             mark_video_except.

Definition mark_video (input_path : string) (output_path : option string)
    (resolution : option (Z * Z)) (overlay_text : option string) : M unit :=
  output_p <- resolve_paths input_path output_path ;;
  set_marker_container None ;;
  set_marker_ts None ;;
  set_main_ts None ;;
  try_finally (mark_video_try input_path output_p resolution overlay_text)
              mark_video_finally.

End MarkVideo.

(** ** Notions used to state the properties *)

(** The three local variables, in the order the [finally] clause visits. *)
Definition temps (s : State) : list (option string) :=
  [ marker_container s; marker_ts s; main_ts s ].

(** The state after lines 74-76. *)
Definition reset_temps (s : State) : State :=
  mkState (fs s) (log s) None None None.

(** The resolution the claim speaks of: the override when there is one,
    else what the probe reports for the stream (0 for a missing field). *)
Definition resolved_resolution (resolution : option (Z * Z))
    (video_stream : Stream) : Z * Z :=
  match resolution with
  | Some r => r
  | None => (default 0%Z (width video_stream), default 0%Z (height video_stream))
  end.

(** The probe output with every codec name in lower case. *)
Definition lower_codec (st : Stream) : Stream :=
  {| codec_type := codec_type st;
     codec_name := PyStr.lower <$> codec_name st;
     width := width st;
     height := height st;
     r_frame_rate := r_frame_rate st |}.

Definition lower_probe (p : Probe) : Probe :=
  {| streams := map lower_codec <$> streams p |}.

Definition with_lowered_codecs (E : Env) : Env :=
  {| gettempdir := gettempdir E;
     uuid4_hex := uuid4_hex E;
     _ffprobe_param := λ path m,
       match _ffprobe_param E path m with
       | Ok p => Ok (lower_probe p)
       | Err e => Err e
       end;
     _generate_lavfi_drawtext := _generate_lavfi_drawtext E;
     execute := execute E;
     denied := denied E;
     decode_utf8_ignore := decode_utf8_ignore E;
     exn_str := exn_str E |}.

(** The environment with another probe. *)
Definition with_probe (f : string → gmap string node → Result Probe) (E : Env)
    : Env :=
  {| gettempdir := gettempdir E;
     uuid4_hex := uuid4_hex E;
     _ffprobe_param := f;
     _generate_lavfi_drawtext := _generate_lavfi_drawtext E;
     execute := execute E;
     denied := denied E;
     decode_utf8_ignore := decode_utf8_ignore E;
     exn_str := exn_str E |}.

(** Two probe outputs in which lines 84-113 read the same: both hold a
    stream or neither does, and the first video stream and the first audio
    stream are the same. *)
Definition same_first_streams (p1 p2 : Probe) : Prop :=
  (default [] (streams p1) = [] ↔ default [] (streams p2) = [])
  ∧ first_stream "video" (default [] (streams p1))
    = first_stream "video" (default [] (streams p2))
  ∧ first_stream "audio" (default [] (streams p1))
    = first_stream "audio" (default [] (streams p2)).

(** Two characters that differ at most in case: the same character, or a
    capital letter and its small letter, 32 code points above it.  The
    capital letters below 256 are [A] to [Z] and 192 to 222 without 215. *)
Definition same_letter (a b : ascii) : bool :=
  let capital (n : nat) : bool :=
    ((65 <=? n)%nat && (n <=? 90)%nat)
    || ((192 <=? n)%nat && (n <=? 222)%nat && negb (n =? 215)%nat) in
  let m := nat_of_ascii a in
  let n := nat_of_ascii b in
  (m =? n)%nat || (capital m && (n =? m + 32)%nat)
  || (capital n && (m =? n + 32)%nat).

(** Two strings that differ at most in the case of their letters. *)
Fixpoint same_ignoring_case (s t : string) : bool :=
  match s, t with
  | EmptyString, EmptyString => true
  | String a s', String b t' => same_letter a b && same_ignoring_case s' t'
  | _, _ => false
  end.

(** Two streams that differ at most in the case of the codec name. *)
Definition same_stream_ignoring_case (st1 st2 : Stream) : bool :=
  bool_decide (codec_type st1 = codec_type st2)
  && bool_decide (width st1 = width st2)
  && bool_decide (height st1 = height st2)
  && bool_decide (r_frame_rate st1 = r_frame_rate st2)
  && match codec_name st1, codec_name st2 with
     | Some a, Some b => same_ignoring_case a b
     | None, None => true
     | _, _ => false
     end.

Fixpoint same_streams_ignoring_case (l1 l2 : list Stream) : bool :=
  match l1, l2 with
  | [], [] => true
  | st1 :: l1', st2 :: l2' =>
      same_stream_ignoring_case st1 st2 && same_streams_ignoring_case l1' l2'
  | _, _ => false
  end.

(** Two probe outputs that differ at most in the case of the codec
    names of their streams. *)
Definition same_codecs_ignoring_case (p1 p2 : Probe) : Prop :=
  same_streams_ignoring_case (default [] (streams p1)) (default [] (streams p2))
  = true.

(** [m'] is [m] with some files taken away. *)
Definition shrinks (m m' : gmap string node) : Prop :=
  ∀ q, m' !! q = m !! q ∨ (m' !! q = None ∧ m !! q = Some File).

(** A path that the cleanup has dealt with: it is gone, or its removal
    was refused, or a directory sits there. *)
Definition released (E : Env) (m : gmap string node) (p : string) : Prop :=
  lookup_path m p = None ∨ denied E p = true ∨ lookup_path m p = Some Dir.

(** How making the directory [p] can fail: with the [ValueError] of a NUL
    byte when the path holds one, and with an [OSError] otherwise. *)
Definition mkdir_failure (p : Path.t) (e : exn) : Prop :=
  if PyStr.has_nul (Path.str p)
  then e = Raise Cls.ValueError "embedded null byte"
  else isinstance e Cls.OSError = true.

(** A computation that leaves the log and the three locals alone. *)
Definition keeps_frame {A} (m : M A) : Prop :=
  ∀ s r s', m s = (r, s') →
    log s' = log s ∧ marker_container s' = marker_container s
    ∧ marker_ts s' = marker_ts s ∧ main_ts s' = main_ts s.

(** The temporary paths of lines 118-120. *)
Definition marker_container_path (E : Env) : string :=
  os_path_join (gettempdir E) ("marker_" +:+ uuid4_hex E +:+ ".mp4").

Definition marker_ts_path (E : Env) : string :=
  os_path_join (gettempdir E) ("marker_" +:+ uuid4_hex E +:+ ".ts").

Definition main_ts_path (E : Env) : string :=
  os_path_join (gettempdir E) ("main_" +:+ uuid4_hex E +:+ ".ts").

(** Every character of [s] is a decimal digit. *)
Fixpoint all_digits (s : string) : bool :=
  match s with
  | String c s' => PyStr.is_digit c && all_digits s'
  | EmptyString => true
  end.

(** Some character of [s] is a decimal digit. *)
Fixpoint has_digit (s : string) : bool :=
  match s with
  | String c s' => PyStr.is_digit c || has_digit s'
  | EmptyString => false
  end.

(** The overlay text of lines 122-123. *)
Definition resolved_text (input_path : string) (overlay_text : option string)
    : string :=
  match overlay_text with
  | None => "Filename: " +:+ os_path_basename input_path
  | Some t => t
  end.

(** The lower-cased codec name of line 104. *)
Definition video_codec_of (video_stream : Stream) : string :=
  PyStr.lower (default "" (codec_name video_stream)).

(** What a call that passes validation logs when every stage succeeds:
    the text source it asks for, then the four command lines.  A call
    stopped by a failing stage logs a prefix of this. *)
Definition stage_events (E : Env) (input_path : string) (output_p : Path.t)
    (resolution : option (Z * Z)) (overlay_text : option string)
    (video_stream : Stream) : list event :=
  let res := resolved_resolution resolution video_stream in
  let text := resolved_text input_path overlay_text in
  let h264 := bool_decide (video_codec_of video_stream = "h264") in
  let lavfi_src :=
    match _generate_lavfi_drawtext E text res (QArith_base.Qmake 1 2) with
    | Ok src => src
    | Err _ => ""
    end in
  let v_bsf := if h264 then "h264_mp4toannexb" else "hevc_mp4toannexb" in
  [ Drawtext text res;
    Run (cmd_marker lavfi_src (if h264 then "libx264" else "libx265")
           (resolve_fps video_stream) (marker_container_path E));
    Run (cmd_remux (marker_container_path E) v_bsf (marker_ts_path E));
    Run (cmd_remux input_path v_bsf (main_ts_path E));
    Run (final_cmd (marker_ts_path E) (main_ts_path E) output_p) ].

(** The four command lines of lines 128-164, for the text source
    [lavfi_src]. *)
Definition stage_commands (E : Env) (input_path : string) (output_p : Path.t)
    (video_stream : Stream) (lavfi_src : string) : list (list string) :=
  let h264 := bool_decide (video_codec_of video_stream = "h264") in
  let v_bsf := if h264 then "h264_mp4toannexb" else "hevc_mp4toannexb" in
  [ cmd_marker lavfi_src (if h264 then "libx264" else "libx265")
      (resolve_fps video_stream) (marker_container_path E);
    cmd_remux (marker_container_path E) v_bsf (marker_ts_path E);
    cmd_remux input_path v_bsf (main_ts_path E);
    final_cmd (marker_ts_path E) (main_ts_path E) output_p ].

(** The filesystem after the commands have run one after the other, each
    one exiting with status 0; [None] when one of them does not. *)
Fixpoint run_all (E : Env) (cmds : list (list string)) (m : gmap string node)
    : option (gmap string node) :=
  match cmds with
  | [] => Some m
  | cmd :: cmds =>
      match execute E cmd m with
      | (subprocess.Exited rc _ _, m') =>
          if (rc =? 0)%Z then run_all E cmds m' else None
      | (subprocess.NotFound, _) => None
      end
  end.

(** The state a stage leaves: a new filesystem and one more logged command. *)
Definition after_run (s : State) (cmd : list string) (m : gmap string node)
    : State :=
  mkState m (log s ++ [Run cmd]) (marker_container s) (marker_ts s) (main_ts s).

(** How [subprocess.run] with [check=True] and nothing captured can end. *)
Inductive run_failure (cmd : list string) : exn → Prop :=
  | run_not_found :
      run_failure cmd (FileNotFoundError "No such file or directory")
  | run_non_zero rc :
      rc ≠ 0%Z → run_failure cmd (CalledProcessError rc cmd None None).

(** The state of a call once lines 118-120 have assigned the locals. *)
Definition temps_assigned (E : Env) (s : State) : Prop :=
  marker_container s = Some (marker_container_path E)
  ∧ marker_ts s = Some (marker_ts_path E)
  ∧ main_ts s = Some (main_ts_path E).

(** The checks of lines 84-113 on a probe output, for the video stream
    they pick. *)
Definition passes_validation (resolution : option (Z * Z)) (probe : Probe)
    (video_stream : Stream) : Prop :=
  first_stream "video" (default [] (streams probe)) = Some video_stream
  ∧ (0 < (resolved_resolution resolution video_stream).1)%Z
  ∧ (0 < (resolved_resolution resolution video_stream).2)%Z
  ∧ video_codec_of video_stream ∈ ["h264"; "hevc"]
  ∧ match first_stream "audio" (default [] (streams probe)) with
    | Some audio_stream =>
        PyStr.lower (default "" (codec_name audio_stream)) ∈ [""; "aac"]
    | None => True
    end.

(** The probe succeeds on this filesystem and its output passes the
    checks. *)
Definition validated (E : Env) (input_path : string)
    (resolution : option (Z * Z)) (m : gmap string node) : Prop :=
  ∃ probe video_stream,
    _ffprobe_param E input_path m = Ok probe
    ∧ passes_validation resolution probe video_stream.

(** ** A concrete environment *)

Module Demo.

Definition video (codec : string) (w h : Z) (fps : option string) : Stream :=
  {| codec_type := Some "video"; codec_name := Some codec;
     width := Some w; height := Some h; r_frame_rate := fps |}.

Definition audio (codec : string) : Stream :=
  {| codec_type := Some "audio"; codec_name := Some codec;
     width := None; height := None; r_frame_rate := None |}.

(** every process exits with status 0 *)
Definition all_fine (cmd : list string) : subprocess.outcome :=
  subprocess.Exited 0 "" "".

(** every process exits with status 1 after complaining *)
Definition all_fail (cmd : list string) : subprocess.outcome :=
  subprocess.Exited 1 "" "Invalid data found when processing input".

(** there is no [ffmpeg] to run *)
Definition no_ffmpeg (cmd : list string) : subprocess.outcome :=
  subprocess.NotFound.

(** the marker is synthesized, but the first remux fails *)
Definition remux_fails (cmd : list string) : subprocess.outcome :=
  if bool_decide (cmd !! 2 = Some "-f") then subprocess.Exited 0 "" ""
  else subprocess.Exited 1 "" "Invalid data found when processing input".

(** the marker is synthesized and both remuxes succeed, but the
    concatenation fails *)
Definition concat_fails (cmd : list string) : subprocess.outcome :=
  if bool_decide (cmd !! 2 = Some "-f") || bool_decide (cmd !! 6 = Some "-bsf:v")
  then subprocess.Exited 0 "" ""
  else subprocess.Exited 1 "" "Invalid data found when processing input".

(** The probe reports [streams]; a process that runs leaves a file at
    the last argument of its command line; [locked] paths cannot be
    removed. *)
Definition env (streams : list Stream)
    (exit : list string → subprocess.outcome) (locked : list string) : Env :=
  {| gettempdir := "/tmp";
     uuid4_hex := "ab12";
     _ffprobe_param := λ _ _, Ok {| streams := Some streams |};
     _generate_lavfi_drawtext := λ text _ _, Ok ("drawtext=" +:+ text);
     execute := λ cmd m,
       match exit cmd with
       | subprocess.NotFound => (subprocess.NotFound, m)
       | o => (o, <[List.last cmd "" := File]> m)
       end;
     denied := λ p, bool_decide (p ∈ locked);
     decode_utf8_ignore := λ b, b;
     exn_str := λ e, match e with Raise _ msg => msg | _ => "" end |}.

Definition disk : gmap string node := {[ "clip.mp4" := File ]}.

Definition start : State := mkState disk [] None None None.

Definition clip : Stream := video "h264" 1280 720 (Some "25/1").

End Demo.

(** * The rest of the package *)

(** ** [formats.py]: the other two sets *)

Definition IMAGE_EXTS : gset string :=
  {[ ".jpg"; ".jpeg"; ".png"; ".bmp"; ".gif"; ".tiff"; ".tif"; ".webp" ]}.

Definition AUDIO_EXTS : gset string :=
  {[ ".mp3"; ".flac"; ".aac"; ".m4a"; ".ogg"; ".opus" ]}.

(** ** [errors.py]: the messages *)

(** [c in s] for a one-character needle *)
Fixpoint str_contains (c : ascii) (s : string) : bool :=
  match s with
  | EmptyString => false
  | String a s' => Ascii.eqb a c || str_contains c s'
  end.

(** [s.rstrip()] and [s.strip()] *)
Fixpoint str_rstrip (s : string) : string :=
  match s with
  | EmptyString => EmptyString
  | String c s' =>
      match str_rstrip s' with
      | EmptyString =>
          if PyStr.is_space c then EmptyString else String c EmptyString
      | r => String c r
      end
  end.

Definition str_strip (s : string) : string := str_rstrip (PyStr.lstrip s).

(** the line feed of the message of [FFmpegProcessError] *)
Definition LF : string := String (ascii_of_nat 10) "".

(** [InputFileNotFoundError.__init__], line 15 *)
Definition InputFileNotFoundError_message (path : string) : string :=
  "Input file not found: " +:+ path.

(** [InvalidOutputPathError.__init__], line 23 *)
Definition InvalidOutputPathError_message (path reason : string) : string :=
  "Invalid output path: '" +:+ path +:+ "'. Reason: " +:+ reason.

(** [FFmpegNotFoundError.__init__], lines 35-38 *)
Definition FFmpegNotFoundError_message (executable_name : string) : string :=
  executable_name +:+ " not found in PATH. "
  +:+ "Please ensure it is installed and accessible to the program.".

(** line 47: an argument that holds a space is put between quotes *)
Definition cmd_str (command : list string) : string :=
  PyStr.join " "
    (map (λ arg, if str_contains " " arg then "'" +:+ arg +:+ "'" else arg)
       command).

(** [FFmpegProcessError.__init__], lines 47-50 *)
Definition FFmpegProcessError_message (command : list string)
    (stderr : option string) : string :=
  let message :=
    "A subprocess call to FFmpeg failed." +:+ LF +:+ "Command: "
    +:+ cmd_str command in
  match stderr with
  | Some (String _ _ as err) => message +:+ LF +:+ "Details: " +:+ str_strip err
  | _ => message
  end.

(** [UnsupportedFileTypeError.__init__], lines 64-73; [None] for the last
    element of an empty list is the [IndexError] of line 67. *)
Definition UnsupportedFileTypeError_message (path : string)
    (supported_formats : gset string) : string :=
  let msg_ext :=
    match last (PyStr.split "." path) with
    | Some ext => "'." +:+ ext +:+ "'"
    | None => "with no extension"
    end in
  "File type " +:+ msg_ext +:+ " is not supported for this operation. "
  +:+ "Supported formats are: "
  +:+ PyStr.join ", " (PyStr.sorted (elements supported_formats)).

(** [str(e)] for the exceptions of [errors.py] and for an exception built
    from a message; the text of a [CalledProcessError] is not modelled. *)
Definition message_of (e : exn) : option string :=
  match e with
  | InputFileNotFoundError path => Some (InputFileNotFoundError_message path)
  | InvalidOutputPathError path reason =>
      Some (InvalidOutputPathError_message path reason)
  | FFmpegNotFoundError name => Some (FFmpegNotFoundError_message name)
  | FFmpegProcessError command stderr =>
      Some (FFmpegProcessError_message command stderr)
  | UnsupportedFileTypeError path formats =>
      Some (UnsupportedFileTypeError_message path formats)
  | CalledProcessError _ _ _ _ => None
  | Raise _ msg => Some msg
  end.

(** ** [pathlib]: joining, relative paths, suffix replacement *)

(** What [pathlib] guarantees of every path it builds: a root it knows,
    and components that are not empty, not ["."] and hold no slash. *)
Definition path_wf (p : Path.t) : Prop :=
  Path.root p ∈ [""; "/"; "//"]
  ∧ Forall (λ x, x ≠ "" ∧ x ≠ "." ∧ PyStr.rfind "/" x = None) (Path.parts p).

(** [p == q] on paths *)
Global Instance path_eq_dec : EqDecision Path.t.
Proof. solve_decision. Defined.

(** [p / q] for a path [q]: an absolute [q] replaces [p]. *)
Definition path_join (p q : Path.t) : Path.t :=
  if bool_decide (Path.root q = "") then
    Path.mk (Path.root p) (Path.parts p ++ Path.parts q)
  else q.

(** the list [relative_to] compares: the empty drive and the root, when
    there is one, then the components *)
Definition abs_parts (p : Path.t) : list string :=
  if bool_decide (Path.root p = "") then Path.parts p
  else "" :: Path.root p :: Path.parts p.

(** [p.relative_to(other)]; [None] is the [ValueError]. *)
Definition path_relative_to (p other : Path.t) : option Path.t :=
  let n := length (abs_parts other) in
  if (if (n =? 0)%nat then negb (bool_decide (Path.root p = ""))
      else negb (bool_decide (take n (abs_parts p) = abs_parts other)))
  then None
  else Some (Path.mk (if (n =? 1)%nat then Path.root p else "")
               (drop n (abs_parts p))).

(** The output path [mark_video] gives a call that names none: the
    name of the input with [_marked] put between stem and suffix. *)
Definition default_output_video (input_p : Path.t) : Path.t :=
  Path.mk (Path.root input_p)
    (removelast (Path.parts input_p)
     ++ [(Path.stem input_p +:+ "_marked") +:+ Path.suffix input_p]).

(** The output path [mark_audio] gives a call that names none: the name
    of the input with its suffix replaced by [.mp4]. *)
Definition default_output_audio (input_p : Path.t) : Path.t :=
  Path.mk (Path.root input_p)
    (removelast (Path.parts input_p) ++ [Path.stem input_p +:+ ".mp4"]).

Section Package.

Variable E : Env.

(** The default of the third parameter of [_generate_lavfi_drawtext],
    which [mark_audio] leaves out; it is declared in [utils.py]. *)
Variable default_duration : QArith_base.Q.

(** [Path.cwd()] *)
Variable cwd : Path.t.

(** [p.with_suffix(suffix)] *)
Definition with_suffix (p : Path.t) (suffix : string) : M Path.t :=
  if str_contains "/" suffix then raise (Raise Cls.ValueError "Invalid suffix")
  else if (negb (bool_decide (suffix = "")) && negb (PyStr.take 1 suffix =? "."))
          || (suffix =? ".")
  then raise (Raise Cls.ValueError "Invalid suffix")
  else
    let name := Path.name p in
    if bool_decide (name = "") then
      raise (Raise Cls.ValueError "has an empty name")
    else
      let old_suffix := Path.suffix p in
      let name :=
        if bool_decide (old_suffix = "") then name +:+ suffix
        else PyStr.take (String.length name - String.length old_suffix) name
             +:+ suffix in
      ret (Path.mk (Path.root p) (removelast (Path.parts p) ++ [name])%list).

(** ** [mark_audio.py] *)

(** lines 66-78 *)
Definition ffmpeg_cmd (lavfi_source input_path : string) (output_p : Path.t)
    : list string :=
  [ "ffmpeg"; "-y";
    "-f"; "lavfi"; "-i"; lavfi_source;
    "-i"; input_path;
    "-framerate"; "1";
    "-map"; "0:v:0";
    "-map"; "1:a:0";
    "-c:v"; "libx264";
    "-crf"; "20";
    "-pix_fmt"; "yuv420p";
    "-c:a"; "copy";
    Path.str output_p ].

(** lines 40-61: the input and output paths *)
Definition audio_resolve_paths (input_path : string)
    (output_path : option string) : M Path.t :=
  let input_p := Path.of_string input_path in
  ex <- path_exists input_p ;;
  if negb ex then raise (InputFileNotFoundError input_path) else
  isf <- path_is_file input_p ;;
  if negb isf
  then raise (FileError ("Input path is not a file: " +:+ input_path)) else
  if negb (bool_decide (PyStr.lower (Path.suffix input_p) ∈ AUDIO_EXTS))
  then raise (UnsupportedFileTypeError input_path AUDIO_EXTS) else
  output_p <-
    match output_path with
    | None => with_suffix input_p ".mp4"
    | Some output_path =>
        let output_p := Path.of_string output_path in
        if negb (bool_decide (PyStr.lower (Path.suffix output_p) = ".mp4"))
        then raise (InvalidOutputPathError output_path
                      "Output file for marked audio must be an .mp4 file.")
        else
          d <- path_is_dir output_p ;;
          if d
          then raise (InvalidOutputPathError output_path
                        "Output path cannot be a directory.")
          else ret output_p
    end ;;
  try_except (path_mkdir_parents E (Path.parent output_p)) (λ e,
    if isinstance e Cls.OSError
    then raise (InvalidOutputPathError (Path.str output_p)
                  ("Could not create parent directory: " +:+ exn_str E e))
    else raise e) ;;
  ret output_p.

(** lines 88-98: the [except] clauses, tried in order *)
Definition mark_audio_except (ffmpeg_cmd : list string) (e : exn) : M unit :=
  if isinstance e Cls.FileNotFoundError then
    raise (FFmpegNotFoundError "ffmpeg/ffprobe")
  else if isinstance e Cls.CalledProcessError then
    match e with
    | CalledProcessError _ _ _ stderr =>
        raise (FFmpegProcessError ffmpeg_cmd stderr)
    | _ => raise (AttributeError "object has no attribute 'stderr'")
    end
  else if isinstance e Cls.MarkerError then raise e
  else raise (Raise Cls.AudioMarkingError
                ("An unexpected error occurred during audio marking: "
                 +:+ exn_str E e)).

(** [mark_audio]; the resolution is [(1280, 256)] when the caller gives
    none. *)
Definition mark_audio (input_path : string) (output_path : option string)
    (resolution : Z * Z) (overlay_text : option string) : M unit :=
  output_p <- audio_resolve_paths input_path output_path ;;
  let overlay_text :=
    match overlay_text with
    | None => "Filename: " +:+ os_path_basename input_path
    | Some t => t
    end in
  emit (Drawtext overlay_text resolution) ;;
  lavfi_source <-
    (λ s, (_generate_lavfi_drawtext E overlay_text resolution default_duration,
           s)) ;;
  let ffmpeg_cmd := ffmpeg_cmd lavfi_source input_path output_p in
  try_except (run_checked E ffmpeg_cmd) (mark_audio_except ffmpeg_cmd).

Definition mark_audio_default_resolution : Z * Z := (1280, 256)%Z.

(** ** [io.py] *)

(** [categorize]: the four buckets, each filled in the order of [files]. *)
Definition categorize (files : list Path.t) : gmap string (list Path.t) :=
  foldl (λ buckets f,
           let ext := PyStr.lower (Path.suffix f) in
           if bool_decide (ext ∈ IMAGE_EXTS)
           then alter (λ l, (l ++ [f])%list) "photo" buckets
           else if bool_decide (ext ∈ AUDIO_EXTS)
           then alter (λ l, (l ++ [f])%list) "audio" buckets
           else if bool_decide (ext ∈ VIDEO_EXTS)
           then alter (λ l, (l ++ [f])%list) "video" buckets
           else alter (λ l, (l ++ [f])%list) "unknown" buckets)
        {[ "photo" := []; "audio" := []; "video" := []; "unknown" := [] ]}
        files.

(** lines 118-126: the name of the output file *)
Definition out_name (modality stem ext : string) : string :=
  if bool_decide (modality = "photo") then stem +:+ "_marked" +:+ ext
  else if bool_decide (modality = "audio") then stem +:+ ".mp4"
  else if bool_decide (modality = "video") then stem +:+ "_marked" +:+ ext
  else stem +:+ "_marked" +:+ ext.

(** lines 105-114: the directory of the output file *)
Definition target_dir (input_path output_base : Path.t)
    (preserve_structure : bool) (source_base : option Path.t) : Path.t :=
  if preserve_structure then
    let base := default cwd source_base in
    match path_relative_to (Path.parent input_path) base with
    | Some relative_dir => path_join output_base relative_dir
    | None => output_base
    end
  else output_base.

(** [construct_output_path] *)
Definition construct_output_path (input_path output_base : Path.t)
    (modality : string) (preserve_structure : bool)
    (source_base : option Path.t) : M Path.t :=
  let stem := Path.stem input_path in
  let ext := Path.suffix input_path in
  let target_dir :=
    target_dir input_path output_base preserve_structure source_base in
  path_mkdir_parents E target_dir ;;
  ret (path_join target_dir (Path.of_string (out_name modality stem ext))).

(** ** [cli.py]: the output directory and the workers *)

(** [ensure_output_dir], lines 24-29 *)
Definition ensure_output_dir (base_output : Path.t) : M Path.t :=
  path_mkdir_parents E base_output ;; ret base_output.

(** the tuple a worker returns *)
Record outcome := mkOutcome {
  modality : string;
  path : Path.t;
  out_path : Path.t;
  success : bool;
  error : option exn
}.

(** lines 54-63: [except MarkerError] records the error; any other
    exception goes on to the caller. *)
Definition process_video (path output_base : Path.t)
    (preserve_structure : bool) : M outcome :=
  out_path <- construct_output_path path output_base "video"
                preserve_structure None ;;
  try_except
    (mark_video E (Path.str path) (Some (Path.str out_path)) None None ;;
     ret (mkOutcome "video" path out_path true None))
    (λ e, if isinstance e Cls.MarkerError
          then ret (mkOutcome "video" path out_path false (Some e))
          else raise e).

(** lines 43-52 *)
Definition process_audio (path output_base : Path.t)
    (preserve_structure : bool) : M outcome :=
  out_path <- construct_output_path path output_base "audio"
                preserve_structure None ;;
  try_except
    (mark_audio (Path.str path) (Some (Path.str out_path))
       mark_audio_default_resolution None ;;
     ret (mkOutcome "audio" path out_path true None))
    (λ e, if isinstance e Cls.MarkerError
          then ret (mkOutcome "audio" path out_path false (Some e))
          else raise e).

(** ** [mark_image.py] *)

(** What lines 67-104 do through the image library: they open the input,
    draw the text and save the picture at the output path.  The library
    is not modelled; how the lines end, and the filesystem they leave, are
    given. *)
Variable draw_and_save :
  string → Path.t → option string → gmap string node
  → Result unit * gmap string node.

(** lines 38-64: the input and output paths *)
Definition image_resolve_paths (input_path : string)
    (output_path : option string) : M Path.t :=
  let input_p := Path.of_string input_path in
  ex <- path_exists input_p ;;
  if negb ex then raise (InputFileNotFoundError input_path) else
  isf <- path_is_file input_p ;;
  if negb isf
  then raise (FileError ("Input path is not a file: " +:+ input_path)) else
  if negb (bool_decide (PyStr.lower (Path.suffix input_p) ∈ IMAGE_EXTS))
  then raise (UnsupportedFileTypeError input_path IMAGE_EXTS) else
  output_p <-
    match output_path with
    | None => with_stem input_p (Path.stem input_p +:+ "_marked")
    | Some output_path =>
        let output_p := Path.of_string output_path in
        if negb (bool_decide (PyStr.lower (Path.suffix output_p) ∈ IMAGE_EXTS))
        then raise (InvalidOutputPathError output_path
               ("Output file extension must be one of " +:+
                PyStr.join ", " (PyStr.sorted (elements IMAGE_EXTS))))
        else
          d <- path_is_dir output_p ;;
          if d
          then raise (InvalidOutputPathError output_path
                        "Output path cannot be a directory.")
          else ret output_p
    end ;;
  try_except (path_mkdir_parents E (Path.parent output_p)) (λ e,
    if isinstance e Cls.OSError
    then raise (InvalidOutputPathError (Path.str output_p)
                  ("Could not create parent directory: " +:+ exn_str E e))
    else raise e) ;;
  ret output_p.

(** lines 106-109 *)
Definition mark_image_except (e : exn) : M unit :=
  if isinstance e Cls.MarkerError then raise e
  else raise (Raise Cls.ImageMarkingError
                ("An unexpected error occurred during image processing: "
                 +:+ exn_str E e)).

(** [mark_image] *)
Definition mark_image (input_path : string) (output_path : option string)
    (overlay_text : option string) : M unit :=
  output_p <- image_resolve_paths input_path output_path ;;
  try_except
    (λ s, let '(r, m) := draw_and_save input_path output_p overlay_text (fs s) in
          (r, mkState m (log s) (marker_container s) (marker_ts s) (main_ts s)))
    mark_image_except.

(** [cli.py], lines 32-41 *)
Definition process_photo (path output_base : Path.t)
    (preserve_structure : bool) : M outcome :=
  out_path <- construct_output_path path output_base "photo"
                preserve_structure None ;;
  try_except
    (mark_image (Path.str path) (Some (Path.str out_path)) None ;;
     ret (mkOutcome "photo" path out_path true None))
    (λ e, if isinstance e Cls.MarkerError
          then ret (mkOutcome "photo" path out_path false (Some e))
          else raise e).

(** ** [io.py]: [gather_files] *)

(** [p.resolve()] and [p.glob(pattern)]: symbolic links and the contents
    of directories are not part of the filesystem model, so both are
    given; [resolve] is the one of the filesystem the call starts in, which
    the call does not change. *)
Variable resolve : Path.t → Path.t.
Variable glob : Path.t → string → gmap string node → list Path.t.

(** lines 35-46: one turn of the loop, with the list gathered so far *)
Definition gather_one (recursive : bool) (resolved_exclude_path p : Path.t)
    (result : list Path.t) : M (list Path.t) :=
  if bool_decide (resolve p = resolved_exclude_path) then ret result else
  isf <- path_is_file p ;;
  if isf then ret (result ++ [resolve p])%list else
  isd <- path_is_dir p ;;
  if isd then
    let glob_pattern := if recursive then "**/*" else "*" in
    m <- get_fs ;;
    ret (result
         ++ (resolve <$>
             filter (λ f, lookup_path m (Path.str f) = Some File)
               (glob p glob_pattern m)))%list
  else raise (InputFileNotFoundError (Path.str p)).

Fixpoint gather_loop (recursive : bool) (resolved_exclude_path : Path.t)
    (paths result : list Path.t) : M (list Path.t) :=
  match paths with
  | [] => ret result
  | p :: paths' =>
      result' <- gather_one recursive resolved_exclude_path p result ;;
      gather_loop recursive resolved_exclude_path paths' result'
  end.

(** [gather_files] *)
Definition gather_files (paths : list Path.t) (recursive : bool)
    (output_dir : Path.t) : M (list Path.t) :=
  let resolved_exclude_path := resolve output_dir in
  let paths := if paths is [] then [Path.of_string "."] else paths in
  gather_loop recursive resolved_exclude_path paths [].

End Package.

(** * Properties *)

(** ** The library operations on small inputs *)

Example fraction_examples :
  (λ s, match Fraction.of_string s with
        | inr f => Fraction.str f
        | inl Fraction.ValueError => "ValueError"
        | inl Fraction.ZeroDivisionError => "ZeroDivisionError"
        end)
    <$> ["30/1"; "30000/1001"; " 50/2 "; "0/0"; "1.5"; "-1.5e1"; ".5"; "."; "1/";
         "N/A"; "5."; "1e-2"; "1E"; "+3"; ""; "25"; "1_000/1"; "1__0"; "1_";
         "3/ 4"; "1_0.2_5"; String "160" "30" +:+ String "133" ""]
  = ["30"; "30000/1001"; "25"; "ZeroDivisionError"; "3/2"; "-15"; "1/2";
     "ValueError"; "ValueError"; "ValueError"; "5"; "1/100"; "ValueError"; "3";
     "ValueError"; "25"; "1000"; "ValueError"; "ValueError"; "ValueError";
     "41/4"; "30"].
Proof. vm_compute. reflexivity. Qed.

Example path_examples :
  Path.str (Path.of_string "a//b/./c.MP4/") = "a/b/c.MP4"
  ∧ Path.str (Path.of_string "//a/b") = "//a/b"
  ∧ Path.str (Path.of_string "///a/b") = "/a/b"
  ∧ Path.str (Path.of_string "") = "."
  ∧ Path.suffix (Path.of_string "/x/a.tar.MP4") = ".MP4"
  ∧ Path.stem (Path.of_string "/x/a.tar.MP4") = "a.tar"
  ∧ Path.suffix (Path.of_string "/x/.mp4") = ""
  ∧ Path.suffix (Path.of_string "/x/a.") = ""
  ∧ Path.str (Path.parent (Path.of_string "out/x/y.mkv")) = "out/x"
  ∧ Path.str (Path.parent (Path.of_string "y.mkv")) = ".".
Proof. repeat split. Qed.

Example sorted_exts :
  PyStr.join ", " (PyStr.sorted (elements VIDEO_EXTS))
  = ".avi, .mkv, .mov, .mp4, .mpeg, .mpg, .webm".
Proof. vm_compute. reflexivity. Qed.

(** The scenario of the specification: [clip.mp4] with one h264 stream,
    1280 by 720 at 25/1, and no audio. *)
Example scenario_clip :
  mark_video (Demo.env [Demo.clip] Demo.all_fine []) "clip.mp4" None None None
    Demo.start
  = (Ok tt,
     mkState {[ "clip.mp4" := File; "clip_marked.mp4" := File ]}
       [ Drawtext "Filename: clip.mp4" (1280, 720)%Z;
         Run [ "ffmpeg"; "-y"; "-f"; "lavfi"; "-i"; "drawtext=Filename: clip.mp4";
               "-f"; "lavfi"; "-i";
               "anullsrc=channel_layout=stereo:sample_rate=44100"; "-shortest";
               "-c:v"; "libx264"; "-pix_fmt"; "yuv420p"; "-r"; "25";
               "-c:a"; "aac"; "-ar"; "44100"; "/tmp/marker_ab12.mp4" ];
         Run [ "ffmpeg"; "-y"; "-i"; "/tmp/marker_ab12.mp4"; "-c"; "copy";
               "-bsf:v"; "h264_mp4toannexb"; "-f"; "mpegts";
               "/tmp/marker_ab12.ts" ];
         Run [ "ffmpeg"; "-y"; "-i"; "clip.mp4"; "-c"; "copy";
               "-bsf:v"; "h264_mp4toannexb"; "-f"; "mpegts";
               "/tmp/main_ab12.ts" ];
         Run [ "ffmpeg"; "-y"; "-i";
               "concat:/tmp/marker_ab12.ts|/tmp/main_ab12.ts"; "-c"; "copy";
               "-bsf:a"; "aac_adtstoasc"; "clip_marked.mp4" ] ]
       (Some "/tmp/marker_ab12.mp4") (Some "/tmp/marker_ab12.ts")
       (Some "/tmp/main_ab12.ts")).
Proof. vm_compute. reflexivity. Qed.

(** An output path with an extension that is not a video one is refused,
    and a missing input is reported before anything else. *)
Example scenario_paths :
  (mark_video (Demo.env [Demo.clip] Demo.all_fine []) "clip.mp4" (Some "out.txt")
     None None Demo.start).1
  = Err (InvalidOutputPathError "out.txt"
           "Output file extension must be one of .avi, .mkv, .mov, .mp4, .mpeg, .mpg, .webm")
  ∧ (mark_video (Demo.env [Demo.clip] Demo.all_fine []) "clip.mp4"
       (Some "out/x/clip.mkv") None None Demo.start).1 = Ok tt
  ∧ (mark_video (Demo.env [Demo.clip] Demo.all_fine []) "nope.mp4" None
       None None Demo.start).1 = Err (InputFileNotFoundError "nope.mp4").
Proof. repeat split; vm_compute; reflexivity. Qed.

(** ** Strings and paths *)

Lemma app_cons c a b : String c a +:+ b = String c (a +:+ b).
Proof. reflexivity. Qed.

Lemma app_nil b : "" +:+ b = b.
Proof. reflexivity. Qed.

Lemma str_app_assoc a b c : (a +:+ b) +:+ c = a +:+ (b +:+ c).
Proof.
  induction a as [|x a IH]; [done|]. by rewrite !app_cons, IH.
Qed.

Lemma lower_app a b : PyStr.lower (a +:+ b) = PyStr.lower a +:+ PyStr.lower b.
Proof.
  induction a as [|c a IH]; [done|].
  rewrite app_cons. simpl. by rewrite IH, app_cons.
Qed.

Lemma length_app a b :
  String.length (a +:+ b) = (String.length a + String.length b)%nat.
Proof.
  induction a as [|c a IH]; [done|]. rewrite app_cons. simpl. by rewrite IH.
Qed.

Lemma take_drop n s : PyStr.take n s +:+ PyStr.drop n s = s.
Proof.
  revert s. induction n as [|n IH]; intros [|c s]; simpl; try done.
  by rewrite app_cons, IH.
Qed.

Lemma length_drop n s :
  String.length (PyStr.drop n s) = (String.length s - n)%nat.
Proof. revert s. induction n as [|n IH]; intros [|c s]; simpl; auto. Qed.

Lemma drop_app_length a b : PyStr.drop (String.length a) (a +:+ b) = b.
Proof.
  induction a as [|c a IH]; [by destruct b|]. rewrite app_cons. exact IH.
Qed.

Lemma take_app_length a b : PyStr.take (String.length a) (a +:+ b) = a.
Proof.
  induction a as [|c a IH]; [by destruct b|]. rewrite app_cons. simpl.
  by rewrite IH.
Qed.

Lemma rfind_lt c s i : PyStr.rfind c s = Some i → (i < String.length s)%nat.
Proof.
  revert i. induction s as [|a s IH]; simpl; [done|]. intros i.
  destruct (PyStr.rfind c s) as [j|].
  - intros [= <-]. specialize (IH j eq_refl). lia.
  - destruct (Ascii.eqb a c); [|done]. intros [= <-]. lia.
Qed.

Lemma rfind_app c a b :
  PyStr.rfind c (a +:+ b)
  = match PyStr.rfind c b with
    | Some j => Some (String.length a + j)%nat
    | None => PyStr.rfind c a
    end.
Proof.
  induction a as [|x a IH]; [rewrite app_nil; by destruct (PyStr.rfind c b)|].
  rewrite app_cons. simpl. rewrite IH. by destruct (PyStr.rfind c b).
Qed.

Lemma rfind_drop c s i : PyStr.rfind c s = Some i → PyStr.rfind c (PyStr.drop i s) = Some 0%nat.
Proof.
  revert i. induction s as [|a s IH]; simpl; [done|]. intros i.
  destruct (PyStr.rfind c s) as [j|] eqn:Hr.
  - intros [= <-]. simpl. by apply IH.
  - destruct (Ascii.eqb a c) eqn:Hac; [|done]. intros [= <-]. simpl.
    by rewrite Hr, Hac.
Qed.

Lemma endswith_app_long b t suf :
  (String.length suf ≤ String.length t)%nat →
  PyStr.endswith (b +:+ t) suf = PyStr.endswith t suf.
Proof.
  intros Hlen. induction b as [|c b IH]; [done|].
  rewrite app_cons. cbn [PyStr.endswith]. rewrite IH.
  destruct (String.eqb_spec (String c (b +:+ t)) suf) as [<-|_]; [|done].
  simpl in Hlen. rewrite length_app in Hlen. lia.
Qed.

Lemma join_last sep l :
  l ≠ [] → ∃ pre, PyStr.join sep l = pre +:+ List.last l "".
Proof.
  induction l as [|x l IH]; [done|]. intros _.
  destruct l as [|y l]; [by exists ""|].
  destruct IH as [pre Hpre]; [done|].
  exists (x +:+ sep +:+ pre).
  change (PyStr.join sep (x :: y :: l)) with (x +:+ sep +:+ PyStr.join sep (y :: l)).
  rewrite Hpre. change (List.last (x :: y :: l) "") with (List.last (y :: l) "").
  by rewrite !str_app_assoc.
Qed.

(** A path with a suffix ends, as a string, with that suffix. *)
Lemma str_ends_with_suffix p :
  Path.suffix p ≠ "" → ∃ pre, Path.str p = pre +:+ Path.suffix p.
Proof.
  unfold Path.suffix, Path.str, Path.name.
  destruct (Path.suffix_index _) as [i|] eqn:Hi; [|done]. intros _.
  destruct (Path.parts p) as [|x l] eqn:Hparts; [done|].
  destruct (join_last "/" (x :: l)) as [pre Hpre]; [done|].
  rewrite Hpre.
  exists (Path.root p +:+ pre +:+ PyStr.take i (List.last (x :: l) "")).
  rewrite !str_app_assoc, take_drop.
  destruct (Path.root p +:+ pre +:+ List.last (x :: l) "") eqn:Hs; [|done].
  exfalso. apply (f_equal String.length) in Hs. rewrite !length_app in Hs.
  unfold Path.suffix_index in Hi.
  destruct (PyStr.rfind "." _) as [j|] eqn:Hj; [|done].
  apply rfind_lt in Hj. change (String.length "") with 0%nat in Hs. lia.
Qed.

Lemma video_ext_cases x :
  x ∈ VIDEO_EXTS →
  x = ".mp4" ∨ x = ".mov" ∨ x = ".avi" ∨ x = ".mkv" ∨ x = ".webm"
  ∨ x = ".mpg" ∨ x = ".mpeg".
Proof.
  unfold VIDEO_EXTS. rewrite !elem_of_union, !elem_of_singleton. tauto.
Qed.

(** On a path whose extension is a supported one, the test of line 162
    is the test that the extension is [.mp4]. *)
Lemma endswith_mp4 p :
  PyStr.lower (Path.suffix p) ∈ VIDEO_EXTS →
  PyStr.endswith (PyStr.lower (Path.str p)) ".mp4"
  = bool_decide (PyStr.lower (Path.suffix p) = ".mp4").
Proof.
  intros Hin.
  destruct (str_ends_with_suffix p) as [pre ->].
  { intros Hs. rewrite Hs in Hin. by apply video_ext_cases in Hin as [|[|[|[|[|[|]]]]]]. }
  rewrite lower_app.
  apply video_ext_cases in Hin as [->|[->|[->|[->|[->|[->| ->]]]]]];
    (rewrite endswith_app_long by (simpl; lia)); reflexivity.
Qed.

(** Putting a non-empty stem in front of a suffix keeps the suffix. *)
Lemma suffix_index_restem nm i pre :
  Path.suffix_index nm = Some i → pre ≠ "" →
  Path.suffix_index (pre +:+ PyStr.drop i nm) = Some (String.length pre).
Proof.
  unfold Path.suffix_index. intros Hi Hpre.
  destruct (PyStr.rfind "." nm) as [j|] eqn:Hj; [|done].
  destruct ((0 <? j)%nat && (j <? String.length nm - 1)%nat) eqn:Hc; [|done].
  injection Hi as ->. apply andb_prop in Hc as [_ Hlt%Nat.ltb_lt].
  rewrite rfind_app, (rfind_drop _ _ _ Hj), Nat.add_0_r, length_app, length_drop.
  assert (0 < String.length pre)%nat by (destruct pre; [done|simpl; lia]).
  replace (0 <? String.length pre)%nat with true by (symmetry; apply Nat.ltb_lt; lia).
  replace (String.length pre <? String.length pre + (String.length nm - i) - 1)%nat
    with true by (symmetry; apply Nat.ltb_lt; lia).
  done.
Qed.

Lemma name_snoc r l nm : Path.name (Path.mk r (l ++ [nm])) = nm.
Proof. unfold Path.name. simpl. apply last_last. Qed.

Lemma suffix_with_stem p r l pre :
  Path.suffix p ≠ "" → pre ≠ "" →
  Path.suffix (Path.mk r (l ++ [pre +:+ Path.suffix p])) = Path.suffix p.
Proof.
  unfold Path.suffix. rewrite name_snoc.
  destruct (Path.suffix_index (Path.name p)) as [i|] eqn:Hi; [|done].
  intros _ Hpre. rewrite (suffix_index_restem _ _ _ Hi Hpre). apply drop_app_length.
Qed.

(** A path with a supported extension is not called like the filter. *)
Lemma str_not_filter_name p :
  PyStr.lower (Path.suffix p) ∈ VIDEO_EXTS → Path.str p ≠ "aac_adtstoasc".
Proof.
  intros Hin Heq.
  destruct (str_ends_with_suffix p) as [pre Hpre].
  { intros Hs. rewrite Hs in Hin. by apply video_ext_cases in Hin as [|[|[|[|[|[|]]]]]]. }
  rewrite Hpre in Heq. apply (f_equal PyStr.lower) in Heq. rewrite lower_app in Heq.
  assert (PyStr.endswith (PyStr.lower "aac_adtstoasc") (PyStr.lower (Path.suffix p))
          = true) as Hends.
  { rewrite <- Heq, endswith_app_long by lia.
    by apply video_ext_cases in Hin as [->|[->|[->|[->|[->|[->| ->]]]]]]. }
  by apply video_ext_cases in Hin as [Hx|[Hx|[Hx|[Hx|[Hx|[Hx|Hx]]]]]];
    rewrite Hx in Hends.
Qed.

(** ** The monad *)

Section Facts.

Variable E : Env.

Lemma bind_Ok {A B} (m : M A) (k : A → M B) s a s' :
  m s = (Ok a, s') → bind m k s = k a s'.
Proof. unfold bind. by intros ->. Qed.

(** *** Removal *)

Lemma shrinks_refl m : shrinks m m.
Proof. intros q. by left. Qed.

Lemma shrinks_trans m1 m2 m3 : shrinks m1 m2 → shrinks m2 m3 → shrinks m1 m3.
Proof.
  intros H12 H23 q. destruct (H12 q) as [H|[H H']], (H23 q) as [K|[K K']];
    try (left; congruence); right; split; congruence.
Qed.

Lemma released_shrinks m m' p :
  shrinks m m' → released E m p → released E m' p.
Proof.
  intros Hs. unfold released, lookup_path. case_bool_decide; [done|].
  destruct (Hs p) as [K|[K _]]; rewrite K; tauto.
Qed.

Lemma remove_quietly_spec (p : option string) (s : State) :
  ∃ m', remove_quietly E p s
          = (Ok tt, mkState m' (log s) (marker_container s) (marker_ts s) (main_ts s))
        ∧ shrinks (fs s) m'
        ∧ ((∀ path, p = Some path → lookup_path (fs s) path = None) → m' = fs s)
        ∧ ∀ path, p = Some path → path ≠ "" → released E m' path.
Proof.
  destruct s as [m l a b c]. destruct p as [[|ch p]|]; simpl.
  - exists m. split_and!; [done|apply shrinks_refl|done|]. by intros ? [= <-].
  - remember (String ch p) as q eqn:Eq. clear Eq.
    unfold bind, os_path_exists, get_fs, ret, try_except, os_remove, bind, get_fs.
    simpl. destruct (lookup_path m q) as [[|]|] eqn:Hq; simpl; rewrite ?Hq; simpl.
    + destruct (denied E q) eqn:Hd; simpl; rewrite ?Hd; simpl.
      * exists m. split_and!; [done|apply shrinks_refl|done|].
        intros ? [= <-] _. by right; left.
      * exists (delete q m). split_and!; [done| | |].
        2:{ intros H. specialize (H _ eq_refl). simpl in H. congruence. }
        -- intros k. destruct (decide (k = q)) as [->|Hne].
           ++ right. rewrite lookup_delete_eq. split; [done|].
              revert Hq. unfold lookup_path. by case_bool_decide.
           ++ left. by rewrite lookup_delete_ne.
        -- intros ? [= <-] _. left. unfold lookup_path in *.
           case_bool_decide; [done|]. by rewrite lookup_delete_eq.
    + exists m. split_and!; [done|apply shrinks_refl|done|].
      intros ? [= <-] _. by right; right.
    + exists m. split_and!; [done|apply shrinks_refl|done|].
      intros ? [= <-] _. by left.
  - exists m. split_and!; [done|apply shrinks_refl|done|]. done.
Qed.

Lemma cleanup_spec (ps : list (option string)) (s : State) :
  ∃ m', for_each ps (remove_quietly E) s
          = (Ok tt, mkState m' (log s) (marker_container s) (marker_ts s) (main_ts s))
        ∧ shrinks (fs s) m'
        ∧ ((∀ path, Some path ∈ ps → lookup_path (fs s) path = None) → m' = fs s)
        ∧ ∀ path, Some path ∈ ps → path ≠ "" → released E m' path.
Proof.
  revert s. induction ps as [|p ps IH]; intros s.
  - exists (fs s). destruct s; simpl. split_and!; [done|apply shrinks_refl|done|].
    intros ? H. by apply elem_of_nil in H.
  - destruct (remove_quietly_spec p s) as (m1 & H1 & Hs1 & Hn1 & Hr1).
    destruct (IH (mkState m1 (log s) (marker_container s) (marker_ts s) (main_ts s)))
      as (m2 & H2 & Hs2 & Hn2 & Hr2). simpl in *.
    exists m2. split_and!.
    + simpl. erewrite bind_Ok by exact H1. exact H2.
    + by eapply shrinks_trans.
    + intros Habs.
      assert (m1 = fs s) as ->.
      { apply Hn1. intros path ->. apply Habs, elem_of_cons. by left. }
      apply Hn2. intros path Hin. apply Habs. apply elem_of_cons. by right.
    + intros path Hin Hne. apply elem_of_cons in Hin as [<-|Hin].
      * eapply released_shrinks; [exact Hs2|]. by apply Hr1.
      * by apply Hr2.
Qed.

(** *** The log and the locals while the paths are resolved *)

Lemma keeps_frame_ret {A} (a : A) : keeps_frame (ret a).
Proof. by intros s r s' [= <- <-]. Qed.

Lemma keeps_frame_raise {A} e : keeps_frame (@raise A e).
Proof. by intros s r s' [= <- <-]. Qed.

Lemma keeps_frame_get_fs : keeps_frame get_fs.
Proof. by intros s r s' [= <- <-]. Qed.

Lemma keeps_frame_set_fs m : keeps_frame (set_fs m).
Proof. by intros s r s' [= <- <-]. Qed.

Lemma keeps_frame_bind {A B} (m : M A) (k : A → M B) :
  keeps_frame m → (∀ a, keeps_frame (k a)) → keeps_frame (bind m k).
Proof.
  intros Hm Hk s r s'. unfold bind. destruct (m s) as [[a|e] s1] eqn:H1.
  - intros H2. apply Hm in H1. apply Hk in H2. intuition congruence.
  - intros [= <- <-]. by apply Hm in H1.
Qed.

Lemma keeps_frame_try_except {A} (m : M A) (h : exn → M A) :
  keeps_frame m → (∀ e, keeps_frame (h e)) → keeps_frame (try_except m h).
Proof.
  intros Hm Hh s r s'. unfold try_except. destruct (m s) as [[a|e] s1] eqn:H1.
  - intros [= <- <-]. by apply Hm in H1.
  - intros H2. apply Hm in H1. apply Hh in H2. intuition congruence.
Qed.

Lemma keeps_frame_if {A} (b : bool) (m1 m2 : M A) :
  keeps_frame m1 → keeps_frame m2 → keeps_frame (if b then m1 else m2).
Proof. by destruct b. Qed.

Create HintDb frame.

#[local] Hint Resolve keeps_frame_ret keeps_frame_raise keeps_frame_get_fs
  keeps_frame_set_fs : frame.

Ltac frame :=
  repeat first
    [ progress eauto with frame
    | apply keeps_frame_bind; [|intros ?]
    | apply keeps_frame_try_except; [|intros ?]
    | apply keeps_frame_if
    | match goal with |- keeps_frame (match ?x with _ => _ end) => destruct x end ].

Lemma keeps_frame_path_is_dir p : keeps_frame (path_is_dir p).
Proof. unfold path_is_dir. frame. Qed.

Lemma keeps_frame_os_mkdir p : keeps_frame (os_mkdir E p).
Proof. unfold os_mkdir. frame. Qed.

#[local] Hint Resolve keeps_frame_path_is_dir keeps_frame_os_mkdir : frame.

Lemma keeps_frame_mkdir_exist_ok p : keeps_frame (mkdir_exist_ok E p).
Proof. unfold mkdir_exist_ok. frame. Qed.

#[local] Hint Resolve keeps_frame_mkdir_exist_ok : frame.

Lemma keeps_frame_mkdir_parents root rparts :
  keeps_frame (mkdir_parents E root rparts).
Proof. induction rparts as [|x rparts IH]; simpl; frame. Qed.

Lemma keeps_frame_with_name p name : keeps_frame (with_name p name).
Proof. unfold with_name. frame. Qed.

#[local] Hint Resolve keeps_frame_mkdir_parents keeps_frame_with_name : frame.

Lemma keeps_frame_resolve_paths input_path output_path :
  keeps_frame (resolve_paths E input_path output_path).
Proof.
  unfold resolve_paths, path_exists, os_path_exists, path_is_file,
    path_mkdir_parents, with_stem.
  frame.
Qed.

(** *** One stage *)

Lemma run_checked_spec cmd s :
  ∃ m, (run_checked E cmd s = (Ok tt, after_run s cmd m)
        ∧ ∃ out err, execute E cmd (fs s) = (subprocess.Exited 0 out err, m))
       ∨ (∃ e, run_checked E cmd s = (Err e, after_run s cmd m)
               ∧ run_failure cmd e
               ∧ match e with
                 | CalledProcessError rc _ _ _ =>
                     ∃ out err, execute E cmd (fs s) = (subprocess.Exited rc out err, m)
                 | _ => m = fs s ∧ ∃ m', execute E cmd (fs s) = (subprocess.NotFound, m')
                 end).
Proof.
  unfold run_checked, subprocess_run, bind, emit, get_fs, set_fs, ret, raise,
    after_run. simpl.
  destruct (execute E cmd (fs s)) as [[|rc out err] m'] eqn:Hx; simpl.
  - exists (fs s). right. eexists. split_and!; [done|constructor|simpl; eauto].
  - exists m'. destruct (rc =? 0)%Z eqn:Hrc; simpl.
    + apply Z.eqb_eq in Hrc as ->. left. eauto.
    + apply Z.eqb_neq in Hrc. right. eexists.
      split_and!; [done|by constructor|simpl; eauto].
Qed.

(** *** The four stages in a row *)

Lemma four_runs c1 c2 c3 c4 st r s' :
  bind (run_checked E c1) (λ _,
    bind (bind (run_checked E c2) (λ _,
            bind (run_checked E c3) (λ _, ret tt)))
         (λ _, run_checked E c4)) st = (r, s') →
  ∃ cmds,
    cmds ≠ [] ∧ cmds `prefix_of` [c1; c2; c3; c4]
    ∧ log s' = (log st ++ (Run <$> cmds))%list
    ∧ marker_container s' = marker_container st
    ∧ marker_ts s' = marker_ts st ∧ main_ts s' = main_ts st
    ∧ ((r = Ok tt ∧ cmds = [c1; c2; c3; c4])
       ∨ ∃ e cmd, r = Err e ∧ last cmds = Some cmd ∧ run_failure cmd e).
Proof.
  unfold bind at 1.
  destruct (run_checked_spec c1 st) as (m1 & [[-> _]|(e & -> & Hf & _)]).
  2:{ intros [= <- <-]. exists [c1].
      split_and!; try done; [by exists [c2; c3; c4]|]. right. by exists e, c1. }
  unfold bind at 1. unfold bind at 1.
  destruct (run_checked_spec c2 (after_run st c1 m1))
    as (m2 & [[-> _]|(e & -> & Hf & _)]).
  2:{ intros [= <- <-]. exists [c1; c2].
      split_and!; try done; [by exists [c3; c4]|simpl; by rewrite <- ?app_assoc|].
      right. by exists e, c2. }
  unfold bind at 1.
  destruct (run_checked_spec c3 (after_run (after_run st c1 m1) c2 m2))
    as (m3 & [[-> _]|(e & -> & Hf & _)]).
  2:{ intros [= <- <-]. exists [c1; c2; c3].
      split_and!; try done; [by exists [c4]|simpl; by rewrite <- ?app_assoc|].
      right. by exists e, c3. }
  unfold ret at 1.
  destruct (run_checked_spec c4
              (after_run (after_run (after_run st c1 m1) c2 m2) c3 m3))
    as (m4 & [[-> _]|(e & -> & Hf & _)]).
  - intros [= <- <-]. exists [c1; c2; c3; c4].
    split_and!; try done; [simpl; by rewrite <- ?app_assoc|]. by left.
  - intros [= <- <-]. exists [c1; c2; c3; c4].
    split_and!; try done; [simpl; by rewrite <- ?app_assoc|]. right. by exists e, c4.
Qed.

(** *** The body of the [try] *)

Lemma body_trace input_path output_p resolution overlay_text s r s' :
  mark_video_body E input_path output_p resolution overlay_text s = (r, s') →
  (s' = s ∧ (∃ e, r = Err e) ∧ ¬ validated E input_path resolution (fs s))
  ∨ ∃ probe video_stream evs,
      _ffprobe_param E input_path (fs s) = Ok probe
      ∧ passes_validation resolution probe video_stream
      ∧ log s' = (log s ++ evs)%list
      ∧ evs `prefix_of`
          stage_events E input_path output_p resolution overlay_text video_stream
      ∧ temps_assigned E s'
      ∧ ((∃ src, _generate_lavfi_drawtext E
                   (resolved_text input_path overlay_text)
                   (resolved_resolution resolution video_stream)
                   (QArith_base.Qmake 1 2) = Ok src)
         ∨ ∃ ev, evs = [ev])
      ∧ ((r = Ok tt
          ∧ evs = stage_events E input_path output_p resolution overlay_text
                    video_stream)
         ∨ (∃ e, r = Err e
                 ∧ _generate_lavfi_drawtext E
                     (resolved_text input_path overlay_text)
                     (resolved_resolution resolution video_stream)
                     (QArith_base.Qmake 1 2) = Err e
                 ∧ ∃ ev, evs = [ev])
         ∨ (∃ e cmd, r = Err e ∧ last evs = Some (Run cmd) ∧ run_failure cmd e)).
Proof.
  unfold mark_video_body. unfold bind at 1. unfold try_except at 1.
  destruct (_ffprobe_param E input_path (fs s)) as [probe|e] eqn:Hprobe.
  2:{ intros H. left. destruct (isinstance e Cls.FFmpegProcessError);
        injection H as <- <-; (split_and!; [done|eauto|]);
        intros (? & ? & ? & ?); congruence. }
  destruct (default [] (streams probe)) as [|st0 sts] eqn:Hstreams.
  { intros [= <- <-]. left. split_and!; [done|eauto|].
    intros (? & ? & Hp & Hv & _). rewrite Hprobe in Hp. injection Hp as <-.
    by rewrite Hstreams in Hv. }
  rewrite <- Hstreams.
  destruct (first_stream "video" (default [] (streams probe)))
    as [video_stream|] eqn:Hvideo.
  2:{ intros [= <- <-]. left. split_and!; [done|eauto|].
      intros (? & ? & Hp & Hv & _). rewrite Hprobe in Hp. injection Hp as <-.
      congruence. }
  replace (match resolution with
           | Some r0 => r0.1 | None => default 0%Z (width video_stream) end)
    with (resolved_resolution resolution video_stream).1 by (by destruct resolution).
  replace (match resolution with
           | Some r0 => r0.2 | None => default 0%Z (height video_stream) end)
    with (resolved_resolution resolution video_stream).2 by (by destruct resolution).
  fold (resolved_text input_path overlay_text).
  fold (video_codec_of video_stream).
  fold (marker_container_path E) (marker_ts_path E) (main_ts_path E).
  destruct ((_ <=? 0)%Z || (_ <=? 0)%Z) eqn:Hdims.
  { intros [= <- <-]. left. split_and!; [done|eauto|].
    intros (? & vs & Hp & Hv & Hw & Hh & _).
    rewrite Hprobe in Hp. injection Hp as <-.
    assert (vs = video_stream) as -> by congruence.
    apply orb_true_iff in Hdims as [H%Z.leb_le|H%Z.leb_le]; lia. }
  apply orb_false_elim in Hdims as [Hw%Z.leb_gt Hh%Z.leb_gt].
  case_bool_decide as Hcodec; simpl.
  2:{ intros [= <- <-]. left. split_and!; [done|eauto|].
      intros (? & vs & Hp & Hv & _ & _ & Hc & _).
      rewrite Hprobe in Hp. injection Hp as <-.
      assert (vs = video_stream) as -> by congruence. done. }
  replace ((resolved_resolution resolution video_stream).1,
           (resolved_resolution resolution video_stream).2)
    with (resolved_resolution resolution video_stream)
    by (by destruct (resolved_resolution resolution video_stream)).
  unfold bind at 1.
  match goal with
  | |- context [match first_stream "audio" ?l with
                | Some a => @?f a | None => ?g end s] =>
      set (chk := match first_stream "audio" l with
                  | Some a => f a | None => g end)
  end.
  assert (Hchk : (chk s = (Ok tt, s)
                  ∧ match first_stream "audio" (default [] (streams probe)) with
                    | Some audio_stream =>
                        PyStr.lower (default "" (codec_name audio_stream))
                          ∈ [""; "aac"]
                    | None => True
                    end)
                 ∨ (∃ e, chk s = (Err e, s))
                   ∧ ¬ validated E input_path resolution (fs s)).
  { subst chk. destruct (first_stream "audio" _) eqn:Ha;
      [case_bool_decide|]; simpl; eauto.
    right. split; [eauto|].
    intros (? & vs & Hp & _ & _ & _ & _ & Hc).
    rewrite Hprobe in Hp. injection Hp as <-. by rewrite Ha in Hc. }
  clearbody chk. destruct Hchk as [[-> Haudio]|[[e ->] Hnv]].
  2:{ intros [= <- <-]. left. split_and!; [done|eauto|done]. }
  assert (Hpass : passes_validation resolution probe video_stream) by done.
  unfold bind at 1, set_marker_container at 1.
  unfold bind at 1, set_marker_ts at 1. cbn [fs log marker_container marker_ts main_ts].
  unfold bind at 1, set_main_ts at 1. cbn [fs log marker_container marker_ts main_ts].
  unfold bind at 1, emit at 1. cbn [fs log marker_container marker_ts main_ts].
  unfold bind at 1.
  intros Hrun. right. exists probe, video_stream.
  unfold stage_events.
  destruct (_generate_lavfi_drawtext E _ _ _) as [lavfi_src|e] eqn:Hlavfi.
  - apply four_runs in Hrun
      as (cmds & Hne & Hpre & Hlog & Hmc & Hmt & Hmn & Hout).
    cbn [log marker_container marker_ts main_ts] in *.
    exists (Drawtext (resolved_text input_path overlay_text)
              (resolved_resolution resolution video_stream) :: (Run <$> cmds)).
    split_and!; try done.
    + by rewrite Hlog, <- app_assoc.
    + apply prefix_cons. destruct Hpre as [k Hk]. exists (Run <$> k).
      by rewrite <- fmap_app, <- Hk.
    + left. eauto.
    + destruct Hout as [[Hr Hc]|(e & cmd & -> & Hlast & Hf)]; [left; by subst|].
      right; right. exists e, cmd. split_and!; try done.
      destruct cmds as [|c0 cmds]; [done|].
      rewrite last_cons, fmap_last, Hlast. done.
  - injection Hrun as <- <-.
    exists [Drawtext (resolved_text input_path overlay_text)
              (resolved_resolution resolution video_stream)].
    split_and!; try done; [by eexists|right; eauto|]. right; left. eauto.
Qed.

Lemma body_rejects_resolution input_path output_p resolution overlay_text s
    probe video_stream :
  _ffprobe_param E input_path (fs s) = Ok probe →
  first_stream "video" (default [] (streams probe)) = Some video_stream →
  ((resolved_resolution resolution video_stream).1 ≤ 0
   ∨ (resolved_resolution resolution video_stream).2 ≤ 0)%Z →
  mark_video_body E input_path output_p resolution overlay_text s
  = (Err (InvalidMediaError
            ("Invalid video resolution detected: "
             +:+ PyStr.str_of_int (resolved_resolution resolution video_stream).1
             +:+ "x"
             +:+ PyStr.str_of_int (resolved_resolution resolution video_stream).2
             +:+ ".")), s).
Proof.
  intros Hprobe Hvideo Hdims.
  unfold mark_video_body. unfold bind at 1. unfold try_except at 1.
  rewrite Hprobe.
  destruct (default [] (streams probe)) as [|st0 sts] eqn:Hstreams; [done|].
  rewrite Hvideo.
  replace (match resolution with
           | Some r0 => r0.1 | None => default 0%Z (width video_stream) end)
    with (resolved_resolution resolution video_stream).1 by (by destruct resolution).
  replace (match resolution with
           | Some r0 => r0.2 | None => default 0%Z (height video_stream) end)
    with (resolved_resolution resolution video_stream).2 by (by destruct resolution).
  destruct ((_ <=? 0)%Z || (_ <=? 0)%Z) eqn:Hb; [done|].
  apply orb_false_elim in Hb as [Hw%Z.leb_gt Hh%Z.leb_gt]. lia.
Qed.

Lemma body_rejects_codec input_path output_p resolution overlay_text s
    probe video_stream :
  _ffprobe_param E input_path (fs s) = Ok probe →
  first_stream "video" (default [] (streams probe)) = Some video_stream →
  (0 < (resolved_resolution resolution video_stream).1)%Z →
  (0 < (resolved_resolution resolution video_stream).2)%Z →
  video_codec_of video_stream ∉ ["h264"; "hevc"] →
  mark_video_body E input_path output_p resolution overlay_text s
  = (Err (InvalidMediaError
            ("Unsupported video codec: '" +:+ video_codec_of video_stream
             +:+ "'. Only h264/hevc are supported for stream copying.")), s).
Proof.
  intros Hprobe Hvideo Hw Hh Hcodec.
  unfold mark_video_body. unfold bind at 1. unfold try_except at 1.
  rewrite Hprobe.
  destruct (default [] (streams probe)) as [|st0 sts] eqn:Hstreams; [done|].
  rewrite Hvideo.
  replace (match resolution with
           | Some r0 => r0.1 | None => default 0%Z (width video_stream) end)
    with (resolved_resolution resolution video_stream).1 by (by destruct resolution).
  replace (match resolution with
           | Some r0 => r0.2 | None => default 0%Z (height video_stream) end)
    with (resolved_resolution resolution video_stream).2 by (by destruct resolution).
  fold (video_codec_of video_stream).
  destruct ((_ <=? 0)%Z || (_ <=? 0)%Z) eqn:Hb.
  { apply orb_true_iff in Hb as [H%Z.leb_le|H%Z.leb_le]; lia. }
  by rewrite bool_decide_eq_false_2.
Qed.

(** *** The [except] clauses *)

Lemma except_raises e s : ∃ e', mark_video_except E e s = (Err e', s).
Proof.
  unfold mark_video_except.
  destruct (isinstance e Cls.CalledProcessError).
  { destruct e as [| | | | |? ? ? [?|]|]; by eexists. }
  destruct (_ || _); [by eexists|].
  destruct (isinstance e Cls.MarkerError); by eexists.
Qed.

Lemma except_any_state e s s0 :
  mark_video_except E e s = ((mark_video_except E e s0).1, s).
Proof.
  unfold mark_video_except.
  destruct (isinstance e Cls.CalledProcessError).
  { by destruct e as [| | | | |? ? ? [?|]|]. }
  destruct (_ || _); [done|].
  by destruct (isinstance e Cls.MarkerError).
Qed.

Lemma except_invalid_media msg s :
  mark_video_except E (InvalidMediaError msg) s = (Err (InvalidMediaError msg), s).
Proof. reflexivity. Qed.

Lemma except_non_zero rc cmd s :
  mark_video_except E (CalledProcessError rc cmd None None) s
  = (Err (AttributeError "'NoneType' object has no attribute 'decode'"), s).
Proof. reflexivity. Qed.

Lemma except_not_found msg s :
  mark_video_except E (FileNotFoundError msg) s
  = (Err (VideoMarkingError
            ("An unexpected error occurred during marking: "
             +:+ exn_str E (FileNotFoundError msg))), s).
Proof. reflexivity. Qed.

Lemma mark_video_try_spec input_path output_p resolution overlay_text s r s' :
  mark_video_try E input_path output_p resolution overlay_text s = (r, s') →
  (r = Ok tt
   ∧ mark_video_body E input_path output_p resolution overlay_text s = (Ok tt, s'))
  ∨ ∃ e, mark_video_body E input_path output_p resolution overlay_text s
           = (Err e, s')
         ∧ mark_video_except E e s' = (r, s').
Proof.
  unfold mark_video_try, try_except.
  destruct (mark_video_body _ _ _ _ _ s) as [[[]|e] s1] eqn:Hbody.
  - intros [= <- <-]. by left.
  - intros H. right. exists e.
    destruct (except_raises e s1) as [e' He']. rewrite He' in H.
    injection H as <- <-. done.
Qed.

(** *** The whole call *)

Lemma mark_video_spec input_path output_path resolution overlay_text s r s' :
  mark_video E input_path output_path resolution overlay_text s = (r, s') →
  (∃ e, r = Err e ∧ resolve_paths E input_path output_path s = (Err e, s'))
  ∨ ∃ output_p s1 s2,
      resolve_paths E input_path output_path s = (Ok output_p, s1)
      ∧ mark_video_try E input_path output_p resolution overlay_text
          (reset_temps s1) = (r, s2)
      ∧ mark_video_finally E s2 = (Ok tt, s').
Proof.
  unfold mark_video. unfold bind at 1.
  destruct (resolve_paths E input_path output_path s) as [[output_p|e] s1] eqn:Hp.
  2:{ intros [= <- <-]. left. eauto. }
  intros H. right. exists output_p, s1.
  unfold bind, set_marker_container, set_marker_ts, set_main_ts in H.
  cbn [fs log marker_container marker_ts main_ts] in H.
  fold (reset_temps s1) in H. unfold try_finally in H.
  destruct (mark_video_try _ _ _ _ _ _) as [r2 s2] eqn:Htry.
  exists s2. unfold mark_video_finally in *.
  destruct (cleanup_spec [marker_container s2; marker_ts s2; main_ts s2] s2)
    as (m' & Hc & _). rewrite Hc in H. injection H as <- <-. done.
Qed.

Lemma finally_spec s :
  ∃ m', mark_video_finally E s
          = (Ok tt, mkState m' (log s) (marker_container s) (marker_ts s) (main_ts s))
        ∧ shrinks (fs s) m'
        ∧ ((∀ path, Some path ∈ temps s → lookup_path (fs s) path = None)
           → m' = fs s)
        ∧ ∀ path, Some path ∈ temps s → path ≠ "" → released E m' path.
Proof. apply cleanup_spec. Qed.

(** What a call logs, and how it ends. *)
Lemma mark_video_trace input_path output_path resolution overlay_text s r s' :
  mark_video E input_path output_path resolution overlay_text s = (r, s') →
  ∃ evs, log s' = (log s ++ evs)%list ∧
    ((evs = [] ∧ (∃ e, r = Err e)
      ∧ (temps s' = temps s ∨ temps s' = [None; None; None])
      ∧ ∀ output_p s1,
          resolve_paths E input_path output_path s = (Ok output_p, s1) →
          ¬ validated E input_path resolution (fs s1))
     ∨ ∃ output_p s1 probe video_stream,
         resolve_paths E input_path output_path s = (Ok output_p, s1)
         ∧ _ffprobe_param E input_path (fs s1) = Ok probe
         ∧ passes_validation resolution probe video_stream
         ∧ evs `prefix_of`
             stage_events E input_path output_p resolution overlay_text
               video_stream
         ∧ temps_assigned E s'
         ∧ ((∃ src, _generate_lavfi_drawtext E
                      (resolved_text input_path overlay_text)
                      (resolved_resolution resolution video_stream)
                      (QArith_base.Qmake 1 2) = Ok src)
            ∨ ∃ ev, evs = [ev])
         ∧ ((r = Ok tt
             ∧ evs = stage_events E input_path output_p resolution overlay_text
                       video_stream)
            ∨ (∃ e, _generate_lavfi_drawtext E
                      (resolved_text input_path overlay_text)
                      (resolved_resolution resolution video_stream)
                      (QArith_base.Qmake 1 2) = Err e
                    ∧ (∃ e', r = Err e') ∧ ∃ ev, evs = [ev])
            ∨ (∃ e cmd, last evs = Some (Run cmd) ∧ run_failure cmd e
                        ∧ mark_video_except E e s' = (r, s')))).
Proof.
  intros H. apply mark_video_spec in H
    as [(e & -> & Hp)|(output_p & s1 & s2 & Hp & Htry & Hfin)].
  { exists []. split.
    - apply keeps_frame_resolve_paths in Hp as [-> _]. by rewrite app_nil_r.
    - left. split_and!; [done|eauto| |intros ? ? Hp'; congruence].
      apply keeps_frame_resolve_paths in Hp as (_ & Ha & Hb & Hc).
      left. unfold temps. by rewrite Ha, Hb, Hc. }
  pose proof (keeps_frame_resolve_paths _ _ _ _ _ Hp) as (Hl1 & _).
  destruct (finally_spec s2) as (m' & Hfin' & _).
  rewrite Hfin' in Hfin. injection Hfin as <-.
  cbn [log marker_container marker_ts main_ts].
  apply mark_video_try_spec in Htry as [[-> Hbody]|(e & Hbody & Hexc)];
    apply body_trace in Hbody
      as [(-> & [e0 He0] & Hnv)|(probe & vs & evs & Hprobe & Hpass & Hlog & Hpre & Hta & Hsrc & Hout)];
    try discriminate.
  - exists evs. split; [by rewrite Hlog, <- Hl1|]. right.
    exists output_p, s1, probe, vs. split_and!; try done.
    destruct Hout as [[_ ->]|[(e & [=] & _)|(e & cmd & [=] & _)]]. by left.
  - exists []. split; [by rewrite app_nil_r|]. left.
    destruct (except_raises e (reset_temps s1)) as [e' He']. rewrite He' in Hexc.
    injection Hexc as <-. split_and!; [done|eauto|by right|].
    intros ? ? Hp'. rewrite Hp in Hp'. by injection Hp' as <- <-.
  - exists evs. split; [by rewrite Hlog, <- Hl1|]. right.
    exists output_p, s1, probe, vs. split_and!; try done.
    destruct Hout as [[[=] _]|[(e1 & [= <-] & Hlavfi & Hev)|(e1 & cmd & [= <-] & Hlast & Hf)]].
    + right; left. exists e. split_and!; [done| |done].
      destruct (except_raises e s2) as [e' He']. rewrite He' in Hexc.
      injection Hexc as <-. eauto.
    + right; right. exists e, cmd. split_and!; try done.
      rewrite (except_any_state e _ s2), Hexc. done.
Qed.

(** *** The output path *)

Lemma resolve_paths_suffix input_path output_path s output_p s1 :
  resolve_paths E input_path output_path s = (Ok output_p, s1) →
  PyStr.lower (Path.suffix output_p) ∈ VIDEO_EXTS.
Proof.
  unfold resolve_paths.
  unfold bind at 1, path_exists, os_path_exists, bind at 1, get_fs at 1, ret at 1.
  destruct (negb _); [done|].
  unfold bind at 1, path_is_file, bind at 1, get_fs at 1, ret at 1.
  destruct (negb _); [done|].
  case_bool_decide as Hin; [|done]. cbn [negb].
  unfold bind at 1.
  destruct output_path as [output_path|].
  - case_bool_decide as Hout; [|done]. cbn [negb].
    unfold bind at 1, path_is_dir, bind at 1, get_fs at 1, ret at 1.
    destruct (bool_decide _); [done|]. unfold ret at 1.
    unfold bind.
    destruct (try_except _ _ s) as [[[]|e] s2]; [|done].
    by intros [= <- <-].
  - unfold with_stem, with_name.
    destruct (bool_decide _ || _ || _ || _)%bool, (bool_decide _); try done.
    unfold ret at 1. unfold bind.
    destruct (try_except _ _ s) as [[[]|e] s2]; [|done].
    intros [= <- <-]. rewrite suffix_with_stem; [done| |].
    + intros Hs. rewrite Hs in Hin.
      by apply video_ext_cases in Hin as [|[|[|[|[|[|]]]]]].
    + by destruct (Path.stem (Path.of_string input_path)).
Qed.

(** An event found in the part of the log that the call wrote is the
    event of that rank in [stage_events], and so are the ones before it;
    past the first event, the text source was produced. *)
Lemma logged_event input_path output_path resolution overlay_text s r s' i ev :
  mark_video E input_path output_path resolution overlay_text s = (r, s') →
  log s' !! (length (log s) + i)%nat = Some ev →
  ∃ output_p s1 probe video_stream,
    resolve_paths E input_path output_path s = (Ok output_p, s1)
    ∧ _ffprobe_param E input_path (fs s1) = Ok probe
    ∧ passes_validation resolution probe video_stream
    ∧ (∀ j, (j ≤ i)%nat →
         log s' !! (length (log s) + j)%nat
         = stage_events E input_path output_p resolution overlay_text
             video_stream !! j)
    ∧ ((1 ≤ i)%nat →
         ∃ src, _generate_lavfi_drawtext E
                  (resolved_text input_path overlay_text)
                  (resolved_resolution resolution video_stream)
                  (QArith_base.Qmake 1 2) = Ok src).
Proof.
  intros Hrun Hev.
  apply mark_video_trace in Hrun as (evs & Hlog & [(-> & _)|H]).
  { rewrite Hlog, app_nil_r in Hev. apply lookup_lt_Some in Hev. lia. }
  destruct H as (output_p & s1 & probe & vs & Hp & Hprobe & Hpass & Hpre & _ & Hsrc & _).
  exists output_p, s1, probe, vs. split_and!; try done.
  - intros j Hj. rewrite Hlog, lookup_app_r, Nat.add_comm, Nat.add_sub by lia.
    rewrite Hlog, lookup_app_r, Nat.add_comm, Nat.add_sub in Hev by lia.
    apply lookup_lt_Some in Hev. destruct Hpre as [k ->].
    rewrite lookup_app_l by lia. done.
  - intros Hi. destruct Hsrc as [Hsrc|[ev' ->]]; [done|].
    rewrite Hlog, lookup_app_r, Nat.add_comm, Nat.add_sub in Hev by lia.
    apply lookup_lt_Some in Hev. simpl in Hev. lia.
Qed.

(** *** The temporary paths *)

Lemma os_path_join_nonempty a b : b ≠ "" → os_path_join a b ≠ "".
Proof.
  intros Hb. unfold os_path_join.
  destruct b as [|c b]; [done|].
  destruct (Ascii.eqb_spec c "/") as [->|Hc].
  - done.
  - assert (a +:+ String c b ≠ "") by (by destruct a).
    assert (a +:+ "/" +:+ String c b ≠ "") by (by destruct a).
    destruct c as [[] [] [] [] [] [] [] []]; try done;
      by destruct (bool_decide (a = "") || PyStr.endswith a "/").
Qed.

Lemma temp_paths_nonempty :
  marker_container_path E ≠ "" ∧ marker_ts_path E ≠ "" ∧ main_ts_path E ≠ "".
Proof. split_and!; by apply os_path_join_nonempty. Qed.

End Facts.

(** The command that synthesizes the marker: its frame rate, and when it
    is issued. *)
Lemma synth_command E input_path output_path resolution overlay_text s r s'
    output_p s1 probe video_stream :
  mark_video E input_path output_path resolution overlay_text s = (r, s') →
  resolve_paths E input_path output_path s = (Ok output_p, s1) →
  _ffprobe_param E input_path (fs s1) = Ok probe →
  first_stream "video" (default [] (streams probe)) = Some video_stream →
  (∀ cmd, log s' !! (length (log s) + 1)%nat = Some (Run cmd) →
     cmd !! 15%nat = Some "-r"
     ∧ cmd !! 16%nat = Some (resolve_fps video_stream))
  ∧ (passes_validation resolution probe video_stream →
     (∃ src, _generate_lavfi_drawtext E (resolved_text input_path overlay_text)
               (resolved_resolution resolution video_stream)
               (QArith_base.Qmake 1 2) = Ok src) →
     ∃ cmd, log s' !! (length (log s) + 1)%nat = Some (Run cmd)).
Proof.
  intros Hrun Hp Hprobe Hvideo. split.
  - intros cmd Hev.
    destruct (logged_event _ _ _ _ _ _ _ _ _ _ Hrun Hev)
      as (output_p' & s1' & probe' & vs & Hp' & Hprobe' & (Hvideo' & _) & Hst & _).
    rewrite Hp in Hp'. injection Hp' as <- <-.
    rewrite Hprobe in Hprobe'. injection Hprobe' as <-.
    rewrite Hvideo in Hvideo'. injection Hvideo' as <-.
    specialize (Hst 1%nat (le_n _)). rewrite Hev in Hst. injection Hst as ->.
    done.
  - intros Hpass [src Hsrc].
    apply mark_video_trace in Hrun as (evs & Hlog & [(_ & _ & _ & Hnv)|H]).
    { destruct (Hnv _ _ Hp). by exists probe, video_stream. }
    destruct H as (output_p' & s1' & probe' & vs & Hp' & Hprobe' & (Hvideo' & _)
                   & Hpre & _ & _ & Hout).
    rewrite Hp in Hp'. injection Hp' as <- <-.
    rewrite Hprobe in Hprobe'. injection Hprobe' as <-.
    rewrite Hvideo in Hvideo'. injection Hvideo' as <-.
    assert (∃ ev0 ev1 rest, evs = ev0 :: ev1 :: rest) as (ev0 & ev1 & rest & ->).
    { destruct Hout as [[_ ->]|[(e & He & _)|(e & cmd & Hlast & _)]].
      - by eexists _, _, _.
      - congruence.
      - destruct evs as [|ev0 [|ev1 rest]]; [done| |by eexists _, _, _].
        destruct Hpre as [k Hk]. injection Hk as <- _. done. }
    destruct Hpre as [k Hk]. injection Hk as _ <- _.
    eexists. rewrite Hlog, lookup_app_r, Nat.add_comm, Nat.add_sub by lia. done.
Qed.

(** A call whose probe output is rejected ends with the error of the
    check, and logs nothing. *)
Lemma mark_video_rejected E input_path output_path resolution overlay_text
    s r s' output_p s1 msg :
  mark_video E input_path output_path resolution overlay_text s = (r, s') →
  resolve_paths E input_path output_path s = (Ok output_p, s1) →
  mark_video_body E input_path output_p resolution overlay_text (reset_temps s1)
  = (Err (InvalidMediaError msg), reset_temps s1) →
  r = Err (InvalidMediaError msg) ∧ log s' = log s.
Proof.
  intros Hrun Hp Hbody.
  apply mark_video_spec in Hrun
    as [(e & -> & Hp')|(output_p' & s1' & s2 & Hp' & Htry & Hfin)];
    rewrite Hp in Hp'; [done|]. injection Hp' as <- <-.
  apply keeps_frame_resolve_paths in Hp as (Hlog & _).
  destruct (finally_spec E s2) as (m' & Hfin' & _).
  rewrite Hfin' in Hfin. injection Hfin as <-. cbn [log].
  apply mark_video_try_spec in Htry as [[_ Hb]|(e & Hb & Hexc)];
    rewrite Hbody in Hb; [done|]. injection Hb as <- <-.
  rewrite except_invalid_media in Hexc. injection Hexc as <-. done.
Qed.

(** ** Lower case *)

Lemma lower_char_idemp c : PyStr.lower_char (PyStr.lower_char c) = PyStr.lower_char c.
Proof. by destruct c as [[] [] [] [] [] [] [] []]. Qed.

Lemma lower_idemp s : PyStr.lower (PyStr.lower s) = PyStr.lower s.
Proof.
  induction s as [|c s IH]; [done|]. simpl. by rewrite lower_char_idemp, IH.
Qed.

Lemma first_stream_lower kind l :
  first_stream kind (map lower_codec l) = lower_codec <$> first_stream kind l.
Proof.
  induction l as [|st l IH]; [done|]. simpl.
  destruct (bool_decide (codec_type st = Some kind)); [done|]. exact IH.
Qed.

Lemma codec_lower st :
  PyStr.lower (default "" (codec_name (lower_codec st)))
  = PyStr.lower (default "" (codec_name st)).
Proof. destruct st as [? [c|] ? ? ?]; simpl; [apply lower_idemp|done]. Qed.

(** The body of the [try] does not see the case of the codec names. *)
Lemma body_lowered E input_path output_p resolution overlay_text s :
  mark_video_body (with_lowered_codecs E) input_path output_p resolution
    overlay_text s
  = mark_video_body E input_path output_p resolution overlay_text s.
Proof.
  unfold mark_video_body, bind, try_except.
  cbn [_ffprobe_param with_lowered_codecs].
  destruct (_ffprobe_param E input_path (fs s)) as [[[l|]]|e]; [| |done].
  2:{ done. }
  cbn [streams lower_probe fmap option_fmap option_map default from_option id].
  destruct l as [|st0 l]; [done|].
  rewrite !first_stream_lower.
  change (map lower_codec (st0 :: l)) with (lower_codec st0 :: map lower_codec l).
  cbv iota.
  destruct (first_stream "video" (st0 :: l)) as [vs|]; [|done].
  cbn [fmap option_fmap option_map].
  rewrite codec_lower.
  change (width (lower_codec vs)) with (width vs).
  change (height (lower_codec vs)) with (height vs).
  change (resolve_fps (lower_codec vs)) with (resolve_fps vs).
  destruct (_ || _)%bool; [done|].
  destruct (negb _); [done|].
  destruct (first_stream "audio" (st0 :: l)) as [au|]; [|done].
  cbn [fmap option_fmap option_map]. by rewrite codec_lower.
Qed.

(** How a call can end right after it has run a command: normally, or
    with one of two exceptions, neither of which is a process-failure or a
    tool-not-found error. *)
Lemma after_a_stage E input_path output_path resolution overlay_text s r s' cmd :
  mark_video E input_path output_path resolution overlay_text s = (r, s') →
  log s' ≠ log s →
  last (log s') = Some (Run cmd) →
  r = Ok tt
  ∨ r = Err (AttributeError "'NoneType' object has no attribute 'decode'")
  ∨ r = Err (VideoMarkingError
               ("An unexpected error occurred during marking: "
                +:+ exn_str E (FileNotFoundError "No such file or directory"))).
Proof.
  intros Hrun Hne Hlast.
  apply mark_video_trace in Hrun as (evs & Hlog & [(-> & _)|H]).
  { by rewrite app_nil_r in Hlog. }
  destruct H as (output_p & s1 & probe & vs & _ & _ & _ & Hpre & _ & _ & Hout).
  destruct Hout as [[-> _]|[(e & _ & _ & ev & ->)|(e & cmd' & _ & Hf & Hexc)]].
  - by left.
  - destruct Hpre as [k Hk]. injection Hk as <- _.
    by rewrite Hlog, last_snoc in Hlast.
  - right. destruct Hf as [|rc Hrc].
    + rewrite except_not_found in Hexc. injection Hexc as <-. by right.
    + rewrite except_non_zero in Hexc. injection Hexc as <-. by left.
Qed.

(** ** Fractions from decimal numerals *)

Lemma digit_value c :
  PyStr.is_digit c = true → (0 ≤ Z.of_nat (nat_of_ascii c) - 48 ≤ 9)%Z.
Proof.
  unfold PyStr.is_digit. intros [H1 H2]%andb_true_iff.
  apply Nat.leb_le in H1, H2. lia.
Qed.

Lemma digit_not_space c : PyStr.is_digit c = true → PyStr.is_space c = false.
Proof.
  unfold PyStr.is_digit, PyStr.is_space. intros [H1 H2]%andb_true_iff.
  apply Nat.leb_le in H1, H2.
  repeat match goal with
         | |- context [(?a <=? ?b)%nat] => destruct (Nat.leb_spec a b)
         | |- context [(?a =? ?b)%nat] => destruct (Nat.eqb_spec a b)
         end; try done; lia.
Qed.

Lemma digit_not c c' :
  PyStr.is_digit c = true → PyStr.is_digit c' = false → Ascii.eqb c c' = false.
Proof. intros H H'. destruct (Ascii.eqb_spec c c') as [->|]; congruence. Qed.

Lemma lstrip_digit c s :
  PyStr.is_digit c = true → PyStr.lstrip (String c s) = String c s.
Proof. intros H. cbn [PyStr.lstrip]. by rewrite digit_not_space. Qed.

Lemma match_sign_digit c s :
  PyStr.is_digit c = true → Fraction.match_sign (String c s) = (false, String c s).
Proof.
  intros H. unfold Fraction.match_sign.
  by rewrite !(digit_not c) by done.
Qed.

Lemma group_tail_digits s r :
  all_digits s = true → Fraction.group_tail r = ("", r) →
  Fraction.group_tail (s +:+ r) = (s, r).
Proof.
  intros Hs Hr. induction s as [|c s IH]; [done|].
  cbn [all_digits] in Hs. apply andb_true_iff in Hs as [Hc Hs].
  rewrite app_cons. cbn [Fraction.group_tail]. by rewrite Hc, IH.
Qed.

Lemma span_group_digits c s r :
  all_digits (String c s) = true → Fraction.group_tail r = ("", r) →
  Fraction.span_group (String c s +:+ r) = (String c s, r).
Proof.
  intros Hs Hr. pose proof Hs as Hc. cbn [all_digits] in Hc.
  apply andb_true_iff in Hc as [Hc _].
  rewrite app_cons. unfold Fraction.span_group. rewrite Hc, <- app_cons.
  by apply group_tail_digits.
Qed.

Lemma remove_underscores_digits s :
  all_digits s = true → Fraction.remove_underscores s = s.
Proof.
  induction s as [|c s IH]; [done|]. cbn [all_digits Fraction.remove_underscores].
  intros [Hc Hs]%andb_true_iff. by rewrite (digit_not c "_"), IH.
Qed.

Lemma int_of_digits_bound s acc :
  all_digits s = true → (0 ≤ acc)%Z →
  (0 ≤ PyStr.int_of_digits_from acc s
   < (acc + 1) * 10 ^ Z.of_nat (String.length s))%Z.
Proof.
  revert acc. induction s as [|c s IH]; intros acc Hs Hacc.
  - cbn. lia.
  - cbn [all_digits] in Hs. apply andb_true_iff in Hs as [Hc Hs].
    apply digit_value in Hc. cbn [PyStr.int_of_digits_from String.length].
    rewrite Nat2Z.inj_succ, Z.pow_succ_r by lia.
    specialize (IH (10 * acc + (Z.of_nat (nat_of_ascii c) - 48))%Z Hs).
    assert (0 < 10 ^ Z.of_nat (String.length s))%Z by (apply Z.pow_pos_nonneg; lia).
    nia.
Qed.

Lemma uint_digits u : all_digits (NilEmpty.string_of_uint u) = true.
Proof. induction u; [done|exact IHu..]. Qed.

Lemma int_of_uint_acc u acc :
  PyStr.int_of_digits_from (Z.pos acc) (NilEmpty.string_of_uint u)
  = Z.pos (Pos.of_uint_acc u acc).
Proof.
  revert acc. induction u; intros acc; [done|..];
    cbn [NilEmpty.string_of_uint PyStr.int_of_digits_from Pos.of_uint_acc];
    rewrite <- IHu; f_equal;
    try match goal with
        | |- context [Z.of_nat (nat_of_ascii ?c)] =>
            let v := eval vm_compute in (Z.of_nat (nat_of_ascii c)) in
            change (Z.of_nat (nat_of_ascii c)) with v
        end; lia.
Qed.

Lemma int_of_uint u :
  PyStr.int_of_digits_from 0 (NilEmpty.string_of_uint u) = Z.of_N (Pos.of_uint u).
Proof.
  induction u; [done|exact IHu|..];
    cbn [NilEmpty.string_of_uint PyStr.int_of_digits_from Pos.of_uint];
    apply int_of_uint_acc.
Qed.

(** [str(n)] is a numeral: a digit, then digits, and [int] reads [n] from it *)
Lemma str_of_int_numeral n :
  (0 ≤ n)%Z →
  ∃ c s, PyStr.str_of_int n = String c s
         ∧ all_digits (String c s) = true
         ∧ PyStr.int_of_digits (String c s) = n.
Proof.
  intros Hn. destruct n as [|p|p]; [by exists "0"%char, ""| |lia].
  unfold PyStr.str_of_int. cbn [Z.to_int NilZero.string_of_int].
  pose proof (DecimalPos.Unsigned.of_to p) as Hof.
  pose proof (uint_digits (Pos.to_uint p)) as Hd.
  pose proof (int_of_uint (Pos.to_uint p)) as Hi. rewrite Hof in Hi.
  unfold NilZero.string_of_uint.
  destruct (Pos.to_uint p) eqn:Hu; [done|..];
    (eexists _, _; split; [reflexivity|]; split; [exact Hd|exact Hi]).
Qed.

Lemma app_empty_r a : a +:+ "" = a.
Proof. induction a as [|c a IH]; [done|]. by rewrite app_cons, IH. Qed.

Lemma int_of_group_numeral n :
  (0 ≤ n)%Z →
  (Z.of_nat (String.length (PyStr.str_of_int n)) ≤ Fraction.max_str_digits)%Z →
  Fraction.int_of_group (PyStr.str_of_int n) = Some n.
Proof.
  intros Hn Hlen. destruct (str_of_int_numeral n Hn) as (c & s & Hs & Hd & Hi).
  unfold Fraction.int_of_group. rewrite Hs in Hlen |- *.
  rewrite remove_underscores_digits by done.
  destruct (Z.ltb_spec Fraction.max_str_digits
              (Z.of_nat (String.length (String c s)))); [lia|].
  by rewrite Hi.
Qed.

Lemma rational_match_quotient n d :
  (0 ≤ n)%Z → (0 ≤ d)%Z →
  Fraction.rational_match (PyStr.str_of_int n +:+ "/" +:+ PyStr.str_of_int d)
  = Some (Fraction.mk_groups false (PyStr.str_of_int n)
            (Some (PyStr.str_of_int d)) None None).
Proof.
  intros Hn Hd.
  destruct (str_of_int_numeral n Hn) as (c & s & -> & Hs & _).
  destruct (str_of_int_numeral d Hd) as (c' & s' & -> & Hs' & _).
  pose proof Hs as Hc. cbn [all_digits] in Hc. apply andb_true_iff in Hc as [Hc _].
  change ("/" +:+ String c' s') with (String "/" (String c' s')).
  unfold Fraction.rational_match.
  rewrite app_cons, lstrip_digit, match_sign_digit by done.
  unfold Fraction.lookahead at 1. rewrite Hc. cbn [orb negb].
  rewrite <- app_cons, span_group_digits by done.
  cbv beta iota zeta.
  rewrite <- (app_empty_r (String c' s')) at 1.
  rewrite span_group_digits by done. done.
Qed.

Lemma str_limit_eq : Fraction.str_limit = (10 ^ 4300)%Z.
Proof. vm_compute. reflexivity. Qed.

Lemma numeral_fits n :
  (0 ≤ n)%Z →
  (Z.of_nat (String.length (PyStr.str_of_int n)) ≤ Fraction.max_str_digits)%Z →
  (n < Fraction.str_limit)%Z.
Proof.
  intros Hn Hlen. destruct (str_of_int_numeral n Hn) as (c & s & Hs & Hd & Hi).
  rewrite Hs in Hlen. rewrite str_limit_eq, <- Hi.
  pose proof (int_of_digits_bound (String c s) 0 Hd (Z.le_refl 0)) as [_ Hb].
  unfold PyStr.int_of_digits. eapply Z.lt_le_trans; [exact Hb|].
  rewrite Z.mul_1_l. apply Z.pow_le_mono_r; [lia|exact Hlen].
Qed.

Lemma quotient_fits n k :
  (0 ≤ n < Fraction.str_limit)%Z → (0 < k)%Z →
  Fraction.int_str_fits (n / k) = true.
Proof.
  intros [Hn Hlim] Hk. unfold Fraction.int_str_fits. apply Z.ltb_lt.
  assert (0 ≤ n / k)%Z by (apply Z.div_pos; lia).
  assert (n / k ≤ n)%Z by (apply Z.div_le_upper_bound; nia).
  lia.
Qed.

(** [Fraction] of a numerator, a slash and a denominator *)
Lemma of_string_quotient n d :
  (0 ≤ n)%Z → (0 ≤ d)%Z →
  (Z.of_nat (String.length (PyStr.str_of_int n)) ≤ Fraction.max_str_digits)%Z →
  (Z.of_nat (String.length (PyStr.str_of_int d)) ≤ Fraction.max_str_digits)%Z →
  Fraction.of_string (PyStr.str_of_int n +:+ "/" +:+ PyStr.str_of_int d)
  = if (d =? 0)%Z then inl Fraction.ZeroDivisionError
    else inr (Fraction.mk (n / Z.gcd n d) (d / Z.gcd n d)).
Proof.
  intros Hn Hd Hln Hld. unfold Fraction.of_string.
  rewrite rational_match_quotient by done.
  unfold Fraction.of_groups. cbn [Fraction.g_num Fraction.g_denom Fraction.g_neg].
  destruct (str_of_int_numeral n Hn) as (c & s & Hs & _).
  replace (if PyStr.str_of_int n is EmptyString then "0" else PyStr.str_of_int n)
    with (PyStr.str_of_int n) by (by rewrite Hs).
  by rewrite !int_of_group_numeral by done.
Qed.

Lemma quotient_str_fits n d :
  (0 ≤ n)%Z → (0 < d)%Z →
  (Z.of_nat (String.length (PyStr.str_of_int n)) ≤ Fraction.max_str_digits)%Z →
  (Z.of_nat (String.length (PyStr.str_of_int d)) ≤ Fraction.max_str_digits)%Z →
  Fraction.str_fits (Fraction.mk (n / Z.gcd n d) (d / Z.gcd n d)) = true.
Proof.
  intros Hn Hd Hln Hld.
  assert (0 < Z.gcd n d)%Z.
  { pose proof (Z.gcd_nonneg n d).
    destruct (Z.eq_dec (Z.gcd n d) 0%Z) as [H0|]; [|lia].
    apply Z.gcd_eq_0_r in H0. lia. }
  unfold Fraction.str_fits. cbn [Fraction.numerator Fraction.denominator].
  rewrite !quotient_fits; [by rewrite orb_true_r|split; [lia|]|done|split; [done|]|done];
    apply numeral_fits; done || lia.
Qed.

Lemma has_digit_lstrip s :
  has_digit (PyStr.lstrip s) = true → has_digit s = true.
Proof.
  induction s as [|c s IH]; [done|]. cbn [PyStr.lstrip has_digit].
  destruct (PyStr.is_space c); [|done]. intros H. rewrite IH by done.
  by rewrite orb_true_r.
Qed.

Lemma has_digit_match_sign s :
  has_digit (Fraction.match_sign s).2 = true → has_digit s = true.
Proof.
  destruct s as [|c s]; [done|]. unfold Fraction.match_sign.
  destruct (Ascii.eqb c "-"); [|destruct (Ascii.eqb c "+")]; cbn [snd has_digit];
    try done; intros ->; by rewrite orb_true_r.
Qed.

Lemma lookahead_has_digit s :
  Fraction.lookahead s = true → has_digit s = true.
Proof.
  destruct s as [|c s]; [done|]. cbn [Fraction.lookahead has_digit].
  destruct (PyStr.is_digit c); [done|]. cbn [orb].
  intros [_ H]%andb_true_iff. destruct s as [|c' s]; [done|].
  cbn [has_digit]. by rewrite H.
Qed.

(** a string without a digit is no fraction *)
Lemma of_string_no_digit s :
  has_digit s = false → Fraction.of_string s = inl Fraction.ValueError.
Proof.
  intros Hs. unfold Fraction.of_string, Fraction.rational_match.
  destruct (Fraction.match_sign (PyStr.lstrip s)) as [neg s2] eqn:Hsign.
  destruct (Fraction.lookahead s2) eqn:Hl; [|done].
  apply lookahead_has_digit in Hl.
  assert (has_digit s = true); [|congruence].
  apply has_digit_lstrip, has_digit_match_sign. by rewrite Hsign.
Qed.

(** * The claims *)

(** C1.  Take a call of [mark_video] that starts with its three locals
    unbound.  The locals are assigned together: when the call returns they
    are all still unbound or they hold the three temporary paths, and they
    hold them on every normal return and whenever the call has logged
    anything.  Whenever they do, each of the three
    paths has been released by the time the call returns, whatever the
    outcome [r] (normal return or any exception): the path is absent, or
    its removal was refused and the refusal ignored.  The outcome of the
    call is the outcome of the guarded part: the [finally] clause never
    raises, and on a state in which every assigned path is already absent
    it changes nothing. *)
Theorem temporary_paths_released E input_path output_path resolution
    overlay_text m l r s' :
  mark_video E input_path output_path resolution overlay_text
    (mkState m l None None None) = (r, s') →
  (temps s' = [None; None; None] ∨ temps_assigned E s')
  ∧ (r = Ok tt → temps_assigned E s')
  ∧ (log s' ≠ l → temps_assigned E s')
  ∧ (temps_assigned E s' →
       released E (fs s') (marker_container_path E)
       ∧ released E (fs s') (marker_ts_path E)
       ∧ released E (fs s') (main_ts_path E))
  ∧ (∀ output_p s1,
       resolve_paths E input_path output_path (mkState m l None None None)
         = (Ok output_p, s1) →
       r = (mark_video_try E input_path output_p resolution overlay_text
              (reset_temps s1)).1)
  ∧ (∀ s, (mark_video_finally E s).1 = Ok tt)
  ∧ (∀ s, (∀ path, Some path ∈ temps s → lookup_path (fs s) path = None) →
          mark_video_finally E s = (Ok tt, s)).
Proof.
  intros Hrun. split_and!.
  - apply mark_video_trace in Hrun as (evs & _ & [(_ & _ & [Ht|Ht] & _)|H]).
    + by left.
    + by left.
    + right. by destruct H as (? & ? & ? & ? & _ & _ & _ & _ & Hta & _).
  - intros ->.
    apply mark_video_trace in Hrun as (evs & _ & [(_ & [e [=]] & _)|H]).
    by destruct H as (? & ? & ? & ? & _ & _ & _ & _ & Hta & _).
  - intros Hlog.
    apply mark_video_trace in Hrun as (evs & Hl & [(-> & _)|H]).
    { cbn [log] in Hl. by rewrite app_nil_r in Hl. }
    by destruct H as (? & ? & ? & ? & _ & _ & _ & _ & Hta & _).
  - intros (Ha & Hb & Hc).
    apply mark_video_spec in Hrun as [(e & -> & Hp)|(op & s1 & s2 & _ & _ & Hfin)].
    { apply keeps_frame_resolve_paths in Hp as (_ & Hmc & _). simpl in Hmc.
      congruence. }
    destruct (finally_spec E s2) as (m' & Hfin' & _ & _ & Hrel).
    rewrite Hfin' in Hfin. injection Hfin as <-.
    cbn [fs marker_container marker_ts main_ts] in *.
    destruct (temp_paths_nonempty E) as (Na & Nb & Nc).
    unfold temps in Hrel. rewrite Ha, Hb, Hc in Hrel.
    split_and!; apply Hrel; try done; set_solver.
  - intros output_p s1 Hp.
    apply mark_video_spec in Hrun as [(e & -> & Hp')|(op & s1' & s2 & Hp' & Htry & _)];
      rewrite Hp in Hp'; [done|]. injection Hp' as <- <-. by rewrite Htry.
  - intros s. destruct (finally_spec E s) as (m' & -> & _). done.
  - intros s Habs. destruct (finally_spec E s) as (m' & -> & _ & Hid & _).
    rewrite (Hid Habs). by destruct s.
Qed.

(** A witness for C1: the marker is synthesized and the first remux then
    fails; the call ends with an exception and the three paths are gone. *)
Lemma temporary_paths_released_witness :
  let E := Demo.env [Demo.clip] Demo.remux_fails [] in
  let out := mark_video E "clip.mp4" None None None Demo.start in
  (∃ e, out.1 = Err e)
  ∧ temps out.2 = [ Some "/tmp/marker_ab12.mp4"; Some "/tmp/marker_ab12.ts";
                    Some "/tmp/main_ab12.ts" ]
  ∧ released E (fs out.2) "/tmp/marker_ab12.mp4"
  ∧ released E (fs out.2) "/tmp/marker_ab12.ts"
  ∧ released E (fs out.2) "/tmp/main_ab12.ts".
Proof.
  intros E out.
  split; [eexists; vm_compute; reflexivity|].
  split; [vm_compute; reflexivity|].
  refine (proj1 (proj2 (proj2 (proj2
    (temporary_paths_released E "clip.mp4" None None None Demo.disk []
       out.1 out.2 (surjective_pairing out))))) _).
  vm_compute. repeat split.
Defined.

(** C2.  The code does not do what the claim says.  Each of the three
    runs below stops at a process that exits with status 1: the
    synthesis, the first remux, the concatenation.  [subprocess.run] is
    called with the standard error stream redirected and not captured,
    so the [stderr] attribute of the exception it raises is [None], and
    the handler that builds the process-failure error fails on
    [e.stderr.decode]: [mark_video] raises [AttributeError], and no
    [FFmpegProcessError]. *)
Theorem failing_stage_raises_attribute_error :
  Forall (λ exit,
    let E := Demo.env [Demo.clip] exit [] in
    let out := mark_video E "clip.mp4" None None None Demo.start in
    out.1 = Err (AttributeError "'NoneType' object has no attribute 'decode'")
    ∧ (∃ cmd, last (log out.2) = Some (Run cmd)
              ∧ exit cmd
                = subprocess.Exited 1 "" "Invalid data found when processing input")
    ∧ ∀ command stderr, out.1 ≠ Err (FFmpegProcessError command stderr))
  [Demo.all_fail; Demo.remux_fails; Demo.concat_fails].
Proof.
  repeat apply Forall_cons_2; [..|apply Forall_nil_2].
  all: split_and!;
    [ vm_compute; reflexivity
    | eexists; split; vm_compute; reflexivity
    | intros command stderr; vm_compute; discriminate ].
Qed.

(** C3.  The fifth event a call logs is its concatenation command.  That
    command is the six fixed arguments, then the two arguments of the
    audio bitstream filter exactly when the extension of the destination,
    in lower case, is [.mp4], then the destination; so the filter is in
    the command if and only if the destination is an [.mp4] file.  The
    probe output does not enter into it: the statement holds for every
    environment, whether the source has an audio stream or not. *)
Theorem audio_filter_iff_mp4 E input_path output_path resolution overlay_text
    s r s' output_p s1 cmd :
  mark_video E input_path output_path resolution overlay_text s = (r, s') →
  resolve_paths E input_path output_path s = (Ok output_p, s1) →
  log s' !! (length (log s) + 4)%nat = Some (Run cmd) →
  cmd = ([ "ffmpeg"; "-y"; "-i";
           "concat:" +:+ marker_ts_path E +:+ "|" +:+ main_ts_path E;
           "-c"; "copy" ]
         ++ (if bool_decide (PyStr.lower (Path.suffix output_p) = ".mp4")
             then [ "-bsf:a"; "aac_adtstoasc" ] else [])
         ++ [ Path.str output_p ])%list
  ∧ ("aac_adtstoasc" ∈ cmd ↔ PyStr.lower (Path.suffix output_p) = ".mp4").
Proof.
  intros Hrun Hp Hev.
  destruct (logged_event _ _ _ _ _ _ _ _ _ _ Hrun Hev)
    as (output_p' & s1' & probe & vs & Hp' & _ & _ & Hst & _).
  rewrite Hp in Hp'. injection Hp' as <- <-.
  pose proof (resolve_paths_suffix _ _ _ _ _ _ Hp) as Hsuf.
  specialize (Hst 4%nat (le_n _)). rewrite Hev in Hst.
  injection Hst as ->. unfold final_cmd. rewrite (endswith_mp4 _ Hsuf).
  split.
  - by case_bool_decide.
  - case_bool_decide as Hmp4.
    + split; [done|]. intros _. cbn [app]. rewrite !elem_of_cons. tauto.
    + split; [|done]. cbn [app]. rewrite !elem_of_cons, elem_of_nil.
      pose proof (str_not_filter_name _ Hsuf).
      intros [|[|[|[|[|[|[|]]]]]]]; done.
Qed.

(** A witness for C3: a clip written to an [.mp4] file. *)
Lemma audio_filter_iff_mp4_witness :
  let E := Demo.env [Demo.clip] Demo.all_fine [] in
  let mp4 := mark_video E "clip.mp4" None None None Demo.start in
  log mp4.2 !! 4%nat
  = Some (Run [ "ffmpeg"; "-y"; "-i";
                "concat:/tmp/marker_ab12.ts|/tmp/main_ab12.ts"; "-c"; "copy";
                "-bsf:a"; "aac_adtstoasc"; "clip_marked.mp4" ])
  ∧ ("aac_adtstoasc"
       ∈ [ "ffmpeg"; "-y"; "-i";
           "concat:/tmp/marker_ab12.ts|/tmp/main_ab12.ts"; "-c"; "copy";
           "-bsf:a"; "aac_adtstoasc"; "clip_marked.mp4" ]
     ↔ PyStr.lower (Path.suffix (Path.of_string "clip_marked.mp4")) = ".mp4").
Proof.
  intros E mp4.
  assert (Hev : log mp4.2 !! (length (log Demo.start) + 4)%nat
                = Some (Run [ "ffmpeg"; "-y"; "-i";
                              "concat:/tmp/marker_ab12.ts|/tmp/main_ab12.ts";
                              "-c"; "copy"; "-bsf:a"; "aac_adtstoasc";
                              "clip_marked.mp4" ])) by (vm_compute; reflexivity).
  split; [exact Hev|].
  refine (proj2 (audio_filter_iff_mp4 E "clip.mp4" None None None Demo.start
                   mp4.1 mp4.2 (Path.of_string "clip_marked.mp4")
                   (resolve_paths E "clip.mp4" None Demo.start).2 _
                   (surjective_pairing mp4) _ Hev)).
  vm_compute. reflexivity.
Defined.

(** C4, as stated, fails.  First: a stream with the codec [vp9] that is
    probed at 0 by 0 is rejected by the resolution check, which comes
    before the codec check, so the error is the invalid-resolution error
    and not the unsupported-video-codec error.  Second: the codec name
    [H264] is not one of the two strings [h264] and [hevc], yet the call
    succeeds and the marker is synthesized, because the name is put in
    lower case before the check. *)
Lemma unsupported_codec_counterexample :
  (let E := Demo.env [Demo.video "vp9" 0 0 (Some "30/1")] Demo.all_fine [] in
   let out := mark_video E "clip.mp4" None None None Demo.start in
   ("vp9" ∉ ["h264"; "hevc"])
   ∧ out.1 = Err (InvalidMediaError "Invalid video resolution detected: 0x0.")
   ∧ out.1 ≠ Err (InvalidMediaError
                    "Unsupported video codec: 'vp9'. Only h264/hevc are supported for stream copying."))
  ∧ (let E := Demo.env [Demo.video "H264" 1280 720 (Some "30/1")] Demo.all_fine [] in
     let out := mark_video E "clip.mp4" None None None Demo.start in
     ("H264" ∉ ["h264"; "hevc"])
     ∧ out.1 = Ok tt
     ∧ ∃ cmd, log out.2 !! 1%nat = Some (Run cmd) ∧ cmd !! 12%nat = Some "libx264").
Proof.
  split; intros E out.
  - split_and!; [|vm_compute; reflexivity|vm_compute; discriminate].
    rewrite !elem_of_cons, elem_of_nil. intros [|[|[]]]; discriminate.
  - split_and!; [|vm_compute; reflexivity|eexists; split; vm_compute; reflexivity].
    rewrite !elem_of_cons, elem_of_nil. intros [|[|[]]]; discriminate.
Qed.

(** C4, amended.  Let the probe output have a first video stream whose
    codec name, in lower case, is neither [h264] nor [hevc].  The call
    fails with [InvalidMediaError] and logs nothing, so no process is
    spawned and the marker is never synthesized.  The error is the
    unsupported-video-codec error when the width and height of the
    resolved resolution are positive, and the invalid-resolution error
    otherwise. *)
Theorem unsupported_codec_rejected E input_path output_path resolution
    overlay_text s r s' output_p s1 probe video_stream :
  mark_video E input_path output_path resolution overlay_text s = (r, s') →
  resolve_paths E input_path output_path s = (Ok output_p, s1) →
  _ffprobe_param E input_path (fs s1) = Ok probe →
  first_stream "video" (default [] (streams probe)) = Some video_stream →
  PyStr.lower (default "" (codec_name video_stream)) ∉ ["h264"; "hevc"] →
  let wh :=
    match resolution with
    | Some override => override
    | None => (default 0%Z (width video_stream), default 0%Z (height video_stream))
    end in
  r = Err (InvalidMediaError
             (if ((wh.1 <=? 0) || (wh.2 <=? 0))%Z
              then "Invalid video resolution detected: " +:+ PyStr.str_of_int wh.1
                   +:+ "x" +:+ PyStr.str_of_int wh.2 +:+ "."
              else "Unsupported video codec: '"
                   +:+ PyStr.lower (default "" (codec_name video_stream))
                   +:+ "'. Only h264/hevc are supported for stream copying."))
  ∧ log s' = log s.
Proof.
  intros Hrun Hp Hprobe Hvideo Hcodec wh.
  change wh with (resolved_resolution resolution video_stream). clear wh.
  eapply mark_video_rejected; [exact Hrun|exact Hp|].
  destruct ((_ <=? 0)%Z || (_ <=? 0)%Z) eqn:Hdims.
  - apply body_rejects_resolution with (probe := probe); try done.
    apply orb_true_iff in Hdims as [H%Z.leb_le|H%Z.leb_le]; [by left|by right].
  - apply orb_false_elim in Hdims as [Hw%Z.leb_gt Hh%Z.leb_gt].
    by apply body_rejects_codec with (probe := probe).
Qed.

(** A witness for C4 as amended: a [vp9] stream probed at 1280 by 720. *)
Lemma unsupported_codec_rejected_witness :
  let E := Demo.env [Demo.video "VP9" 1280 720 (Some "30/1")] Demo.all_fine [] in
  let out := mark_video E "clip.mp4" None None None Demo.start in
  out.1 = Err (InvalidMediaError
                 "Unsupported video codec: 'vp9'. Only h264/hevc are supported for stream copying.")
  ∧ log out.2 = log Demo.start.
Proof.
  intros E out.
  refine (unsupported_codec_rejected E "clip.mp4" None None None Demo.start
            out.1 out.2 (Path.of_string "clip_marked.mp4")
            (resolve_paths E "clip.mp4" None Demo.start).2
            {| streams := Some [Demo.video "VP9" 1280 720 (Some "30/1")] |}
            (Demo.video "VP9" 1280 720 (Some "30/1"))
            (surjective_pairing out) _ _ _ _); try (vm_compute; reflexivity).
  rewrite !elem_of_cons, elem_of_nil. intros [H|[H|[]]]; vm_compute in H; discriminate.
Defined.

(** C5.  The code does not do what the claim says.  When there is no
    [ffmpeg] to run, [subprocess.run] raises the built-in
    [FileNotFoundError]; no [except] clause of [mark_video] turns it into
    [FFmpegNotFoundError], so the catch-all clause wraps it in a
    [VideoMarkingError]. *)
Theorem missing_encoder_raises_video_marking_error :
  let E := Demo.env [Demo.clip] Demo.no_ffmpeg [] in
  let out := mark_video E "clip.mp4" None None None Demo.start in
  (∀ cmd m, execute E cmd m = (subprocess.NotFound, m))
  ∧ out.1 = Err (VideoMarkingError
                   "An unexpected error occurred during marking: No such file or directory")
  ∧ isinstance (VideoMarkingError "") Cls.FFmpegNotFoundError = false
  ∧ ∀ executable_name, out.1 ≠ Err (FFmpegNotFoundError executable_name).
Proof.
  intros E out. split_and!.
  - done.
  - vm_compute. reflexivity.
  - reflexivity.
  - intros executable_name. vm_compute. discriminate.
Qed.

(** C6.  Let the probe output have a first video stream.  The resolution
    of the call is the override when the caller gives one, and otherwise
    the width and height the probe reports for that stream (0 for a
    missing one).  It is the resolution the marker is synthesized at: the
    only text source a call asks for is asked for at this resolution, the
    command that synthesizes the marker reads the source produced for it,
    and a call that returns normally has asked for it.  When the width or
    the height of this resolution is not positive, the call fails with
    the invalid-resolution error and logs nothing. *)
Theorem resolution_override_or_probed E input_path output_path resolution
    overlay_text s r s' output_p s1 probe video_stream :
  mark_video E input_path output_path resolution overlay_text s = (r, s') →
  resolve_paths E input_path output_path s = (Ok output_p, s1) →
  _ffprobe_param E input_path (fs s1) = Ok probe →
  first_stream "video" (default [] (streams probe)) = Some video_stream →
  let wh :=
    match resolution with
    | Some override => override
    | None => (default 0%Z (width video_stream), default 0%Z (height video_stream))
    end in
  (∀ k text used,
     log s' !! (length (log s) + k)%nat = Some (Drawtext text used) →
     used = wh ∧ (0 < wh.1)%Z ∧ (0 < wh.2)%Z)
  ∧ (∀ cmd, log s' !! (length (log s) + 1)%nat = Some (Run cmd) →
       ∃ src, _generate_lavfi_drawtext E (resolved_text input_path overlay_text)
                wh (QArith_base.Qmake 1 2) = Ok src
              ∧ cmd !! 5%nat = Some src)
  ∧ (r = Ok tt →
       log s' !! length (log s) = Some (Drawtext (resolved_text input_path overlay_text) wh))
  ∧ ((wh.1 ≤ 0 ∨ wh.2 ≤ 0)%Z →
       r = Err (InvalidMediaError
                  ("Invalid video resolution detected: " +:+ PyStr.str_of_int wh.1
                   +:+ "x" +:+ PyStr.str_of_int wh.2 +:+ "."))
       ∧ log s' = log s).
Proof.
  intros Hrun Hp Hprobe Hvideo wh.
  change wh with (resolved_resolution resolution video_stream). clear wh.
  assert (Hsame : ∀ i ev, log s' !! (length (log s) + i)%nat = Some ev →
            passes_validation resolution probe video_stream
            ∧ stage_events E input_path output_p resolution overlay_text
                video_stream !! i = Some ev
            ∧ ((1 ≤ i)%nat →
               ∃ src, _generate_lavfi_drawtext E
                        (resolved_text input_path overlay_text)
                        (resolved_resolution resolution video_stream)
                        (QArith_base.Qmake 1 2) = Ok src)).
  { intros i ev Hev.
    destruct (logged_event _ _ _ _ _ _ _ _ _ _ Hrun Hev)
      as (output_p' & s1' & probe' & vs & Hp' & Hprobe' & Hpass & Hst & Hsrc).
    rewrite Hp in Hp'. injection Hp' as <- <-.
    rewrite Hprobe in Hprobe'. injection Hprobe' as <-.
    pose proof Hpass as (Hvideo' & _).
    rewrite Hvideo in Hvideo'. injection Hvideo' as <-.
    split_and!; [done| |done]. by rewrite <- Hev, (Hst i (le_n _)). }
  split_and!.
  - intros k text used Hev.
    destruct (Hsame _ _ Hev) as ((_ & Hw & Hh & _) & Hst & _).
    split_and!; [|done|done].
    unfold stage_events in Hst.
    destruct k as [|[|[|[|[|k]]]]]; cbn [lookup list_lookup] in Hst;
      [by injection Hst as _ <-|done..].
  - intros cmd Hev.
    destruct (Hsame _ _ Hev) as (_ & Hst & Hsrc).
    destruct Hsrc as [src Hsrc]; [done|]. exists src. split; [done|].
    unfold stage_events in Hst. rewrite Hsrc in Hst.
    cbn [lookup list_lookup] in Hst. by injection Hst as <-.
  - intros ->.
    apply mark_video_trace in Hrun as (evs & Hlog & [(_ & [e [=]] & _)|H]).
    destruct H as (output_p' & s1' & probe' & vs & Hp' & Hprobe' & (Hvideo' & _)
                   & _ & _ & _ & Hout).
    rewrite Hp in Hp'. injection Hp' as <- <-.
    rewrite Hprobe in Hprobe'. injection Hprobe' as <-.
    rewrite Hvideo in Hvideo'. injection Hvideo' as <-.
    destruct Hout as [[_ ->]|[(e & _ & [e' [=]] & _)|(e & cmd & _ & _ & Hexc)]].
    + rewrite Hlog, lookup_app_r, Nat.sub_diag by lia. done.
    + destruct (except_raises E e s') as [e' He']. congruence.
  - intros Hbad.
    eapply mark_video_rejected; [exact Hrun|exact Hp|].
    by apply body_rejects_resolution with (probe := probe).
Qed.

(** A witness for C6: the override (640, 480) on a stream probed at 1920
    by 1080, and the override (0, 480) on the same stream. *)
Lemma resolution_override_or_probed_witness :
  let stream := Demo.video "h264" 1920 1080 (Some "30/1") in
  let E := Demo.env [stream] Demo.all_fine [] in
  let out := mark_video E "clip.mp4" None (Some (640, 480)%Z) None Demo.start in
  let bad := mark_video E "clip.mp4" None (Some (0, 480)%Z) None Demo.start in
  log out.2 !! 0%nat = Some (Drawtext "Filename: clip.mp4" (640, 480)%Z)
  ∧ bad.1 = Err (InvalidMediaError "Invalid video resolution detected: 0x480.")
  ∧ log bad.2 = [].
Proof.
  intros stream E out bad. split.
  - refine (proj1 (proj2 (proj2
      (resolution_override_or_probed E "clip.mp4" None
         (Some (640, 480)%Z) None Demo.start out.1 out.2
         (Path.of_string "clip_marked.mp4")
         (resolve_paths E "clip.mp4" None Demo.start).2
         {| streams := Some [stream] |} stream
         (surjective_pairing out) _ _ _))) _); vm_compute; reflexivity.
  - refine (proj2 (proj2 (proj2
      (resolution_override_or_probed E "clip.mp4" None
         (Some (0, 480)%Z) None Demo.start bad.1 bad.2
         (Path.of_string "clip_marked.mp4")
         (resolve_paths E "clip.mp4" None Demo.start).2
         {| streams := Some [stream] |} stream
         (surjective_pairing bad) _ _ _))) _);
      try (vm_compute; reflexivity).
    left. simpl. lia.
Defined.

(** C7.  When a call logs a fifth event, its concatenation command, the
    input of that command is [concat:] followed by the marker transport
    segment, a bar, and the main transport segment, in this order.  The
    marker segment is the file the second command remuxes the synthesized
    marker container into, and the main segment is the file the third
    command remuxes the original input into. *)
Theorem marker_segment_first E input_path output_path resolution overlay_text
    s r s' cmd :
  mark_video E input_path output_path resolution overlay_text s = (r, s') →
  log s' !! (length (log s) + 4)%nat = Some (Run cmd) →
  ∃ synth_args v_bsf,
    log s' !! (length (log s) + 1)%nat
    = Some (Run (synth_args ++ [ marker_container_path E ]))
    ∧ log s' !! (length (log s) + 2)%nat
      = Some (Run [ "ffmpeg"; "-y"; "-i"; marker_container_path E; "-c"; "copy";
                    "-bsf:v"; v_bsf; "-f"; "mpegts"; marker_ts_path E ])
    ∧ log s' !! (length (log s) + 3)%nat
      = Some (Run [ "ffmpeg"; "-y"; "-i"; input_path; "-c"; "copy";
                    "-bsf:v"; v_bsf; "-f"; "mpegts"; main_ts_path E ])
    ∧ cmd !! 2%nat = Some "-i"
    ∧ cmd !! 3%nat
      = Some ("concat:" +:+ marker_ts_path E +:+ "|" +:+ main_ts_path E).
Proof.
  intros Hrun Hev.
  destruct (logged_event _ _ _ _ _ _ _ _ _ _ Hrun Hev)
    as (output_p & s1 & probe & vs & _ & _ & _ & Hst & _).
  pose proof (Hst 1%nat ltac:(lia)) as H1.
  pose proof (Hst 2%nat ltac:(lia)) as H2.
  pose proof (Hst 3%nat ltac:(lia)) as H3.
  pose proof (Hst 4%nat ltac:(lia)) as H4.
  rewrite Hev in H4. injection H4 as ->.
  eexists (removelast (cmd_marker _ _ _ "")), _.
  rewrite H1, H2, H3. split_and!; try reflexivity.
  all: unfold final_cmd; by destruct (PyStr.endswith _ _).
Qed.

(** A witness for C7: a run in which all four stages succeed. *)
Lemma marker_segment_first_witness :
  let E := Demo.env [Demo.clip] Demo.all_fine [] in
  let out := mark_video E "clip.mp4" (Some "out/clip.mkv") None None Demo.start in
  ∃ cmd,
    log out.2 !! 4%nat = Some (Run cmd)
    ∧ cmd !! 3%nat = Some "concat:/tmp/marker_ab12.ts|/tmp/main_ab12.ts"
    ∧ log out.2 !! 2%nat
      = Some (Run [ "ffmpeg"; "-y"; "-i"; "/tmp/marker_ab12.mp4"; "-c"; "copy";
                    "-bsf:v"; "h264_mp4toannexb"; "-f"; "mpegts";
                    "/tmp/marker_ab12.ts" ])
    ∧ log out.2 !! 3%nat
      = Some (Run [ "ffmpeg"; "-y"; "-i"; "clip.mp4"; "-c"; "copy";
                    "-bsf:v"; "h264_mp4toannexb"; "-f"; "mpegts";
                    "/tmp/main_ab12.ts" ]).
Proof.
  intros E out.
  assert (Hev : log out.2 !! (length (log Demo.start) + 4)%nat
                = Some (Run [ "ffmpeg"; "-y"; "-i";
                              "concat:/tmp/marker_ab12.ts|/tmp/main_ab12.ts";
                              "-c"; "copy"; "out/clip.mkv" ]))
    by (vm_compute; reflexivity).
  eexists. split; [exact Hev|].
  destruct (marker_segment_first E "clip.mp4" (Some "out/clip.mkv") None None
              Demo.start out.1 out.2 _ (surjective_pairing out) Hev)
    as (synth_args & v_bsf & _ & _ & _ & _ & H3).
  split; [exact H3|]. split; vm_compute; reflexivity.
Defined.

(** C8.  Let the first video stream of the probe output carry the
    frame-rate string [raw].  The command that synthesizes the marker, the
    second event a call logs, has after its [-r] option the rendering of
    [raw] parsed as a fraction when it parses, and [raw] itself,
    unchanged, when it does not, or when the fraction has a number of
    more than 4300 digits, which [str] refuses.  So a numerator, a slash
    and a denominator above zero, of at most 4300 digits each, give the
    fraction in lowest terms, without the denominator when that is 1; a
    denominator of zero and a string without a digit are passed on as
    they are.  A frame rate that does not parse stops nothing: when the
    probe output passes the checks and the text source is produced, the
    command is issued. *)
Theorem frame_rate_parsed_or_passed_through E input_path output_path
    resolution overlay_text s r s' output_p s1 probe video_stream raw :
  mark_video E input_path output_path resolution overlay_text s = (r, s') →
  resolve_paths E input_path output_path s = (Ok output_p, s1) →
  _ffprobe_param E input_path (fs s1) = Ok probe →
  first_stream "video" (default [] (streams probe)) = Some video_stream →
  r_frame_rate video_stream = Some raw →
  (∀ cmd, log s' !! (length (log s) + 1)%nat = Some (Run cmd) →
     cmd !! 15%nat = Some "-r"
     ∧ cmd !! 16%nat
       = Some (match Fraction.of_string raw with
               | inr f => if Fraction.str_fits f then Fraction.str f else raw
               | inl _ => raw
               end)
     ∧ (∀ n d : Z,
          (0 ≤ n)%Z → (0 < d)%Z →
          (Z.of_nat (String.length (PyStr.str_of_int n)) ≤ 4300)%Z →
          (Z.of_nat (String.length (PyStr.str_of_int d)) ≤ 4300)%Z →
          raw = PyStr.str_of_int n +:+ "/" +:+ PyStr.str_of_int d →
          cmd !! 16%nat
          = Some (if (d / Z.gcd n d =? 1)%Z
                  then PyStr.str_of_int (n / Z.gcd n d)
                  else PyStr.str_of_int (n / Z.gcd n d) +:+ "/"
                       +:+ PyStr.str_of_int (d / Z.gcd n d)))
     ∧ (∀ n : Z,
          (0 ≤ n)%Z →
          (Z.of_nat (String.length (PyStr.str_of_int n)) ≤ 4300)%Z →
          raw = PyStr.str_of_int n +:+ "/0" →
          cmd !! 16%nat = Some raw)
     ∧ (has_digit raw = false → cmd !! 16%nat = Some raw))
  ∧ (passes_validation resolution probe video_stream →
     (∃ src, _generate_lavfi_drawtext E (resolved_text input_path overlay_text)
               (resolved_resolution resolution video_stream)
               (QArith_base.Qmake 1 2) = Ok src) →
     ∃ cmd, log s' !! (length (log s) + 1)%nat = Some (Run cmd)).
Proof.
  intros Hrun Hp Hprobe Hvideo Hraw.
  destruct (synth_command _ _ _ _ _ _ _ _ _ _ _ _ Hrun Hp Hprobe Hvideo)
    as [Hcmd Hissued].
  split; [|done]. intros cmd Hev. destruct (Hcmd cmd Hev) as [Hr Hfps].
  split; [done|]. rewrite Hfps. unfold resolve_fps. rewrite Hraw.
  change (default "30/1" (Some raw)) with raw. split_and!; [done| | |].
  - intros n d Hn Hd Hln Hld ->.
    rewrite of_string_quotient by (done || lia).
    destruct (Z.eqb_spec d 0); [lia|].
    by rewrite quotient_str_fits.
  - intros n Hn Hln ->.
    change "/0" with ("/" +:+ PyStr.str_of_int 0).
    by rewrite of_string_quotient.
  - intros Hd. by rewrite of_string_no_digit.
Qed.

(** A witness for C8: the probe reports the frame rate [50/2], and the
    encoder is handed [25]. *)
Lemma frame_rate_parsed_or_passed_through_witness :
  let E := Demo.env [Demo.video "h264" 1280 720 (Some "50/2")] Demo.all_fine [] in
  let out := mark_video E "clip.mp4" None None None Demo.start in
  ∃ cmd, log out.2 !! 1%nat = Some (Run cmd)
         ∧ cmd !! 15%nat = Some "-r" ∧ cmd !! 16%nat = Some "25".
Proof.
  intros E out.
  destruct (frame_rate_parsed_or_passed_through E "clip.mp4" None None None
              Demo.start out.1 out.2 (Path.of_string "clip_marked.mp4")
              (resolve_paths E "clip.mp4" None Demo.start).2
              {| streams := Some [Demo.video "h264" 1280 720 (Some "50/2")] |}
              (Demo.video "h264" 1280 720 (Some "50/2")) "50/2"
              (surjective_pairing out))
    as [Hcmd Hissued]; try (vm_compute; reflexivity).
  destruct Hissued as [cmd Hev].
  - repeat split; try (vm_compute; reflexivity). apply list_elem_of_here.
  - eexists. reflexivity.
  - exists cmd. split; [exact Hev|].
    destruct (Hcmd cmd Hev) as (Hr & _ & Hquot & _). split; [exact Hr|].
    apply (Hquot 50%Z 2%Z); [lia|lia|by vm_compute|by vm_compute|reflexivity].
Defined.

(** What the encoder is handed for some frame rates that the probe may
    report; the last three are passed on as they are. *)
Example frame_rates_resolved :
  resolve_fps <$> (Demo.video "h264" 1280 720 <$>
    [Some "30000/1001"; Some " 24/1 "; Some "1_000/1"; Some "29.97";
     Some "0/0"; Some "N/A"; Some "3/ 4"])
  = ["30000/1001"; "24"; "1000"; "2997/100"; "0/0"; "N/A"; "3/ 4"].
Proof. vm_compute. reflexivity. Qed.

(** C9.  Let the first video stream of the probe output carry no frame
    rate.  The default is the string [30/1], which parses, and the command
    that synthesizes the marker has [30] after its [-r] option; the
    missing field stops nothing: when the probe output passes the checks
    and the text source is produced, the command is issued. *)
Theorem frame_rate_default E input_path output_path resolution overlay_text
    s r s' output_p s1 probe video_stream :
  mark_video E input_path output_path resolution overlay_text s = (r, s') →
  resolve_paths E input_path output_path s = (Ok output_p, s1) →
  _ffprobe_param E input_path (fs s1) = Ok probe →
  first_stream "video" (default [] (streams probe)) = Some video_stream →
  r_frame_rate video_stream = None →
  default "30/1" (r_frame_rate video_stream) = "30/1"
  ∧ Fraction.of_string "30/1" = inr (Fraction.mk 30 1)
  ∧ Fraction.str (Fraction.mk 30 1) = "30"
  ∧ (∀ cmd, log s' !! (length (log s) + 1)%nat = Some (Run cmd) →
       cmd !! 15%nat = Some "-r" ∧ cmd !! 16%nat = Some "30")
  ∧ (passes_validation resolution probe video_stream →
     (∃ src, _generate_lavfi_drawtext E (resolved_text input_path overlay_text)
               (resolved_resolution resolution video_stream)
               (QArith_base.Qmake 1 2) = Ok src) →
     ∃ cmd, log s' !! (length (log s) + 1)%nat = Some (Run cmd)).
Proof.
  intros Hrun Hp Hprobe Hvideo Hraw.
  destruct (synth_command _ _ _ _ _ _ _ _ _ _ _ _ Hrun Hp Hprobe Hvideo)
    as [Hcmd Hissued].
  split_and!; [by rewrite Hraw|done|done| |done].
  intros cmd Hev. destruct (Hcmd cmd Hev) as [Hr Hfps].
  split; [done|]. rewrite Hfps. unfold resolve_fps. by rewrite Hraw.
Qed.

(** A witness for C9: the probe reports a video stream without a frame
    rate. *)
Lemma frame_rate_default_witness :
  let E := Demo.env [Demo.video "hevc" 640 480 None] Demo.all_fine [] in
  let out := mark_video E "clip.mp4" None None None Demo.start in
  out.1 = Ok tt
  ∧ ∃ cmd, log out.2 !! 1%nat = Some (Run cmd)
           ∧ cmd !! 15%nat = Some "-r" ∧ cmd !! 16%nat = Some "30".
Proof.
  intros E out. split; [vm_compute; reflexivity|].
  destruct (frame_rate_default E "clip.mp4" None None None
              Demo.start out.1 out.2 (Path.of_string "clip_marked.mp4")
              (resolve_paths E "clip.mp4" None Demo.start).2
              {| streams := Some [Demo.video "hevc" 640 480 None] |}
              (Demo.video "hevc" 640 480 None)
              (surjective_pairing out))
    as (_ & _ & _ & Hcmd & Hissued); try (vm_compute; reflexivity).
  destruct Hissued as [cmd Hev].
  - repeat split; try (vm_compute; reflexivity).
    apply list_elem_of_further, list_elem_of_here.
  - eexists. reflexivity.
  - exists cmd. split; [exact Hev|]. exact (Hcmd cmd Hev).
Defined.

Lemma same_letter_lower a b :
  same_letter a b = true → PyStr.lower_char a = PyStr.lower_char b.
Proof.
  unfold same_letter, PyStr.lower_char, PyStr.is_upper.
  pose proof (ascii_nat_embedding a) as Ha.
  pose proof (ascii_nat_embedding b) as Hb.
  set (m := nat_of_ascii a) in *. set (n := nat_of_ascii b) in *.
  intros H.
  repeat match goal with
         | _ : context [(?x <=? ?y)%nat] |- _ => destruct (Nat.leb_spec x y)
         | _ : context [(?x =? ?y)%nat] |- _ => destruct (Nat.eqb_spec x y)
         | |- context [(?x <=? ?y)%nat] => destruct (Nat.leb_spec x y)
         | |- context [(?x =? ?y)%nat] => destruct (Nat.eqb_spec x y)
         end;
    cbn in H |- *; try discriminate H; try lia; congruence.
Qed.

Lemma same_ignoring_case_lower s t :
  same_ignoring_case s t = true → PyStr.lower s = PyStr.lower t.
Proof.
  revert t. induction s as [|a s IH]; intros [|b t]; try done.
  cbn [same_ignoring_case PyStr.lower]. intros [Hc Hs]%andb_true_iff.
  by rewrite (same_letter_lower a b), (IH t).
Qed.

Lemma same_stream_lower st1 st2 :
  same_stream_ignoring_case st1 st2 = true → lower_codec st1 = lower_codec st2.
Proof.
  unfold same_stream_ignoring_case, lower_codec.
  intros [[[[Ht Hw]%andb_true_iff Hh]%andb_true_iff Hr]%andb_true_iff Hn]%andb_true_iff.
  apply bool_decide_eq_true in Ht, Hw, Hh, Hr. rewrite Ht, Hw, Hh, Hr.
  destruct (codec_name st1) as [a|], (codec_name st2) as [b|]; try done.
  cbn [fmap option_fmap option_map]. by rewrite (same_ignoring_case_lower a b).
Qed.

Lemma same_streams_lower l1 l2 :
  same_streams_ignoring_case l1 l2 = true →
  map lower_codec l1 = map lower_codec l2.
Proof.
  revert l2. induction l1 as [|st1 l1 IH]; intros [|st2 l2]; try done.
  cbn [same_streams_ignoring_case map]. intros [Hst Hl]%andb_true_iff.
  by rewrite (same_stream_lower st1 st2), (IH l2).
Qed.

Lemma streams_lower_probe p :
  default [] (streams (lower_probe p)) = map lower_codec (default [] (streams p)).
Proof. by destruct p as [[l|]]. Qed.

(** The body of the [try] does not see a difference in the case of the
    codec names. *)
Lemma body_same_codecs E f input_path output_p resolution overlay_text s p1 p2 :
  _ffprobe_param E input_path (fs s) = Ok p1 →
  f input_path (fs s) = Ok p2 →
  same_codecs_ignoring_case p1 p2 →
  mark_video_body (with_probe f E) input_path output_p resolution overlay_text s
  = mark_video_body E input_path output_p resolution overlay_text s.
Proof.
  intros H1 H2 Hsame. apply same_streams_lower in Hsame.
  rewrite <- (body_lowered (with_probe f E)), <- (body_lowered E).
  unfold mark_video_body, bind, try_except.
  cbn [_ffprobe_param with_probe with_lowered_codecs]. rewrite H1, H2.
  by rewrite !streams_lower_probe, Hsame.
Qed.

(** C10.  The codec checks do not see the case of the codec names.  Let
    two probe outputs differ at most in the case of the letters of their
    codec names, as [H264] and [h264], or [AAC] and [aac], do.  A call
    behaves in the same way with either, outcome and final state.  A
    video codec that is [h264] or [hevc] in any case, and an audio codec
    that is [aac] in any case, pass the checks.  In particular a call
    behaves in the same way when every codec name of the probe output is
    replaced by its lower-case form: the names are put in lower case
    before they are compared or used. *)
Theorem codec_checks_ignore_case E f input_path output_path resolution
    overlay_text s output_p s1 p1 p2 :
  resolve_paths E input_path output_path s = (Ok output_p, s1) →
  _ffprobe_param E input_path (fs s1) = Ok p1 →
  f input_path (fs s1) = Ok p2 →
  same_codecs_ignoring_case p1 p2 →
  mark_video (with_probe f E) input_path output_path resolution overlay_text s
  = mark_video E input_path output_path resolution overlay_text s
  ∧ (∀ video_stream video_codec,
       first_stream "video" (default [] (streams p1)) = Some video_stream →
       codec_name video_stream = Some video_codec →
       same_ignoring_case video_codec "h264" = true
       ∨ same_ignoring_case video_codec "hevc" = true →
       (0 < (resolved_resolution resolution video_stream).1)%Z →
       (0 < (resolved_resolution resolution video_stream).2)%Z →
       match first_stream "audio" (default [] (streams p1)) with
       | Some audio_stream =>
           match codec_name audio_stream with
           | Some audio_codec =>
               audio_codec = "" ∨ same_ignoring_case audio_codec "aac" = true
           | None => True
           end
       | None => True
       end →
       passes_validation resolution p1 video_stream)
  ∧ mark_video (with_lowered_codecs E) input_path output_path resolution
      overlay_text s
    = mark_video E input_path output_path resolution overlay_text s.
Proof.
  intros Hp H1 H2 Hsame. split_and!.
  - unfold mark_video. unfold bind at 1 5.
    change (resolve_paths (with_probe f E)) with (resolve_paths E). rewrite Hp.
    unfold bind, set_marker_container, set_marker_ts, set_main_ts, try_finally,
      mark_video_try, try_except.
    cbn [fs log marker_container marker_ts main_ts].
    fold (reset_temps s1).
    rewrite (body_same_codecs E f input_path output_p resolution
               overlay_text (reset_temps s1) p1 p2 H1 H2 Hsame).
    reflexivity.
  - intros vs vc Hvs Hvc Hcodec Hw Hh Haudio.
    unfold passes_validation, video_codec_of. rewrite Hvc.
    split_and!; [done|done|done| |].
    + cbn [default from_option id].
      destruct Hcodec as [->%same_ignoring_case_lower| ->%same_ignoring_case_lower].
      * apply list_elem_of_here.
      * apply list_elem_of_further, list_elem_of_here.
    + destruct (first_stream "audio" (default [] (streams p1))) as [au|]; [|done].
      destruct (codec_name au) as [ac|]; [|apply list_elem_of_here].
      cbn [default from_option id].
      destruct Haudio as [->| ->%same_ignoring_case_lower].
      * apply list_elem_of_here.
      * apply list_elem_of_further, list_elem_of_here.
  - unfold mark_video. unfold bind at 1 5.
    change (resolve_paths (with_lowered_codecs E)) with (resolve_paths E).
    rewrite Hp.
    unfold bind, set_marker_container, set_marker_ts, set_main_ts, try_finally,
      mark_video_try, try_except.
    rewrite body_lowered. reflexivity.
Qed.

(** A witness for C10: the probe reports the codecs [H264] and [AAC];
    the call goes as with [h264] and [aac], and returns normally. *)
Lemma codec_checks_ignore_case_witness :
  let upper := [Demo.video "H264" 1280 720 (Some "25/1"); Demo.audio "AAC"] in
  let lower := [Demo.video "h264" 1280 720 (Some "25/1"); Demo.audio "aac"] in
  let E := Demo.env upper Demo.all_fine [] in
  mark_video (with_probe (λ _ _, Ok {| streams := Some lower |}) E)
    "clip.mp4" None None None Demo.start
  = mark_video E "clip.mp4" None None None Demo.start
  ∧ passes_validation None {| streams := Some upper |}
      (Demo.video "H264" 1280 720 (Some "25/1"))
  ∧ (mark_video E "clip.mp4" None None None Demo.start).1 = Ok tt.
Proof.
  intros upper lower E.
  destruct (codec_checks_ignore_case E
              (λ _ _, Ok {| streams := Some lower |}) "clip.mp4" None None None
              Demo.start (Path.of_string "clip_marked.mp4")
              (resolve_paths E "clip.mp4" None Demo.start).2
              {| streams := Some upper |} {| streams := Some lower |})
    as (Hsame & Hpass & _); try (vm_compute; reflexivity).
  split; [exact Hsame|]. split; [|vm_compute; reflexivity].
  apply (Hpass (Demo.video "H264" 1280 720 (Some "25/1")) "H264");
    try (vm_compute; reflexivity).
  - left. vm_compute. reflexivity.
  - right. vm_compute. reflexivity.
Defined.

(** For instance, a source whose probe reports the codecs [H264] and
    [AAC] is marked like one whose probe reports [h264] and [aac]. *)
Example upper_case_codecs_accepted :
  let upper := [Demo.video "H264" 1280 720 (Some "25/1"); Demo.audio "AAC"] in
  let lower := [Demo.video "h264" 1280 720 (Some "25/1"); Demo.audio "aac"] in
  mark_video (Demo.env upper Demo.all_fine []) "clip.mp4" None None None Demo.start
  = mark_video (Demo.env lower Demo.all_fine []) "clip.mp4" None None None Demo.start
  ∧ (mark_video (Demo.env upper Demo.all_fine []) "clip.mp4" None None None
       Demo.start).1 = Ok tt.
Proof. split; vm_compute; reflexivity. Qed.

(** * Further properties *)

(** ** [mark_video]: the checks on the probe output *)

(** A call whose [try] body stops before the locals are assigned ends in
    the state the paths were resolved in, with what the [except] clauses
    make of the exception. *)
Lemma mark_video_stopped E input_path output_path resolution overlay_text
    s r s' output_p s1 e :
  mark_video E input_path output_path resolution overlay_text s = (r, s') →
  resolve_paths E input_path output_path s = (Ok output_p, s1) →
  mark_video_body E input_path output_p resolution overlay_text (reset_temps s1)
  = (Err e, reset_temps s1) →
  mark_video_except E e (reset_temps s1) = (r, reset_temps s1)
  ∧ s' = reset_temps s1.
Proof.
  intros Hrun Hp Hbody.
  apply mark_video_spec in Hrun
    as [(e' & -> & Hp')|(output_p' & s1' & s2 & Hp' & Htry & Hfin)];
    rewrite Hp in Hp'; [done|]. injection Hp' as <- <-.
  apply mark_video_try_spec in Htry as [[_ Hb]|(e' & Hb & Hexc)];
    rewrite Hbody in Hb; [done|]. injection Hb as <- <-.
  destruct (finally_spec E (reset_temps s1)) as (m' & Hfin' & _ & Hid & _).
  rewrite Hfin' in Hfin. injection Hfin as <-.
  rewrite Hid; [done|]. intros path Hin. unfold temps, reset_temps in Hin.
  cbn in Hin. rewrite !elem_of_cons, elem_of_nil in Hin.
  by destruct Hin as [|[|[|]]].
Qed.

(** X1.  When the probe output has no stream at all (the list is empty or
    the key is missing), the call fails with the no-media-streams error;
    when it has streams but none of kind video, with the no-video-stream
    error. Either way nothing is logged, so no process is spawned, and the
    call ends in the state the paths were resolved in. *)
Theorem no_stream_rejected E input_path output_path resolution overlay_text
    s r s' output_p s1 probe :
  mark_video E input_path output_path resolution overlay_text s = (r, s') →
  resolve_paths E input_path output_path s = (Ok output_p, s1) →
  _ffprobe_param E input_path (fs s1) = Ok probe →
  first_stream "video" (default [] (streams probe)) = None →
  r = Err (InvalidMediaError
             (if default [] (streams probe) is []
              then "No media streams found in the input file."
              else "No video stream found in the input file."))
  ∧ s' = reset_temps s1 ∧ log s' = log s.
Proof.
  intros Hrun Hp Hprobe Hvideo.
  assert (Hbody : mark_video_body E input_path output_p resolution overlay_text
                    (reset_temps s1)
                  = (Err (InvalidMediaError
                            (if default [] (streams probe) is []
                             then "No media streams found in the input file."
                             else "No video stream found in the input file.")),
                     reset_temps s1)).
  { unfold mark_video_body. unfold bind at 1. unfold try_except at 1.
    cbn [fs reset_temps]. rewrite Hprobe.
    destruct (default [] (streams probe)) as [|st0 sts]; [done|].
    by rewrite Hvideo. }
  destruct (mark_video_stopped _ _ _ _ _ _ _ _ _ _ _ Hrun Hp Hbody) as [Hexc ->].
  rewrite except_invalid_media in Hexc. injection Hexc as <-.
  split_and!; [done|done|]. cbn [log reset_temps].
  by apply keeps_frame_resolve_paths in Hp as (-> & _).
Qed.

(** A witness for X1: a probe output that holds one subtitle stream. *)
Lemma no_stream_rejected_witness :
  let subtitle :=
    {| codec_type := Some "subtitle"; codec_name := Some "mov_text";
       width := None; height := None; r_frame_rate := None |} in
  let E := Demo.env [subtitle] Demo.all_fine [] in
  let out := mark_video E "clip.mp4" None None None Demo.start in
  out.1 = Err (InvalidMediaError "No video stream found in the input file.")
  ∧ out.2 = reset_temps (resolve_paths E "clip.mp4" None Demo.start).2
  ∧ log out.2 = log Demo.start.
Proof.
  intros subtitle E out.
  refine (no_stream_rejected E "clip.mp4" None None None Demo.start out.1 out.2
            (Path.of_string "clip_marked.mp4")
            (resolve_paths E "clip.mp4" None Demo.start).2
            {| streams := Some [subtitle] |}
            (surjective_pairing out) _ _ _); vm_compute; reflexivity.
Defined.

(** X2.  When the probe output passes the video checks and its first audio
    stream has a codec whose lower-case name is neither empty nor [aac], the
    call fails with the unsupported-audio-codec error, which names the codec
    in lower case; nothing is logged and no process is spawned. *)
Theorem unsupported_audio_rejected E input_path output_path resolution
    overlay_text s r s' output_p s1 probe video_stream audio_stream :
  mark_video E input_path output_path resolution overlay_text s = (r, s') →
  resolve_paths E input_path output_path s = (Ok output_p, s1) →
  _ffprobe_param E input_path (fs s1) = Ok probe →
  first_stream "video" (default [] (streams probe)) = Some video_stream →
  (0 < (resolved_resolution resolution video_stream).1)%Z →
  (0 < (resolved_resolution resolution video_stream).2)%Z →
  PyStr.lower (default "" (codec_name video_stream)) ∈ ["h264"; "hevc"] →
  first_stream "audio" (default [] (streams probe)) = Some audio_stream →
  PyStr.lower (default "" (codec_name audio_stream)) ∉ [""; "aac"] →
  r = Err (InvalidMediaError
             ("Unsupported audio codec: '"
              +:+ PyStr.lower (default "" (codec_name audio_stream))
              +:+ "'. Only AAC or no audio is supported for stream copying."))
  ∧ s' = reset_temps s1 ∧ log s' = log s.
Proof.
  intros Hrun Hp Hprobe Hvideo Hw Hh Hcodec Haudio Hacodec.
  assert (Hbody : mark_video_body E input_path output_p resolution overlay_text
                    (reset_temps s1)
                  = (Err (InvalidMediaError
                            ("Unsupported audio codec: '"
                             +:+ PyStr.lower (default "" (codec_name audio_stream))
                             +:+ "'. Only AAC or no audio is supported for stream copying.")),
                     reset_temps s1)).
  { unfold mark_video_body. unfold bind at 1. unfold try_except at 1.
    cbn [fs reset_temps]. rewrite Hprobe.
    destruct (default [] (streams probe)) as [|st0 sts]; [done|].
    rewrite Hvideo, Haudio.
    replace (match resolution with
             | Some r0 => r0.1 | None => default 0%Z (width video_stream) end)
      with (resolved_resolution resolution video_stream).1 by (by destruct resolution).
    replace (match resolution with
             | Some r0 => r0.2 | None => default 0%Z (height video_stream) end)
      with (resolved_resolution resolution video_stream).2 by (by destruct resolution).
    destruct ((_ <=? 0)%Z || (_ <=? 0)%Z) eqn:Hb.
    { apply orb_true_iff in Hb as [H%Z.leb_le|H%Z.leb_le]; lia. }
    rewrite (bool_decide_eq_true_2 _ Hcodec). cbn [negb].
    unfold bind at 1. by rewrite (bool_decide_eq_false_2 _ Hacodec). }
  destruct (mark_video_stopped _ _ _ _ _ _ _ _ _ _ _ Hrun Hp Hbody) as [Hexc ->].
  rewrite except_invalid_media in Hexc. injection Hexc as <-.
  split_and!; [done|done|]. cbn [log reset_temps].
  by apply keeps_frame_resolve_paths in Hp as (-> & _).
Qed.

(** A witness for X2: an h264 stream with an [MP3] audio stream. *)
Lemma unsupported_audio_rejected_witness :
  let E := Demo.env [Demo.clip; Demo.audio "MP3"] Demo.all_fine [] in
  let out := mark_video E "clip.mp4" None None None Demo.start in
  out.1 = Err (InvalidMediaError
                 "Unsupported audio codec: 'mp3'. Only AAC or no audio is supported for stream copying.")
  ∧ out.2 = reset_temps (resolve_paths E "clip.mp4" None Demo.start).2
  ∧ log out.2 = log Demo.start.
Proof.
  intros E out.
  refine (unsupported_audio_rejected E "clip.mp4" None None None Demo.start
            out.1 out.2 (Path.of_string "clip_marked.mp4")
            (resolve_paths E "clip.mp4" None Demo.start).2
            {| streams := Some [Demo.clip; Demo.audio "MP3"] |}
            Demo.clip (Demo.audio "MP3")
            (surjective_pairing out) _ _ _ _ _ _ _ _);
    try (vm_compute; reflexivity).
  - apply list_elem_of_here.
  - rewrite !elem_of_cons, elem_of_nil.
    intros [H|[H|[]]]; vm_compute in H; discriminate.
Defined.

(** ** [pathlib]: parsing and printing *)

Lemma rfind_cons_None c a s :
  PyStr.rfind c (String a s) = None ↔ a ≠ c ∧ PyStr.rfind c s = None.
Proof.
  simpl. destruct (PyStr.rfind c s) as [i|]; [by split; [|intros [_ ?]]|].
  destruct (Ascii.eqb_spec a c); split; try done; by intros [? _].
Qed.

Lemma rfind_app_None c a b :
  PyStr.rfind c (a +:+ b) = None
  ↔ PyStr.rfind c a = None ∧ PyStr.rfind c b = None.
Proof.
  rewrite rfind_app. destruct (PyStr.rfind c b); [by split; [|intros [_ ?]]|].
  tauto.
Qed.

Lemma split_nosep c x : PyStr.rfind c x = None → PyStr.split c x = [x].
Proof.
  induction x as [|a x IH]; [done|]. intros [Ha Hx]%rfind_cons_None.
  simpl. destruct (Ascii.eqb_spec a c); [done|]. by rewrite IH.
Qed.

Lemma split_app_sep c x r :
  PyStr.rfind c x = None →
  PyStr.split c (x +:+ String c r) = x :: PyStr.split c r.
Proof.
  induction x as [|a x IH].
  - intros _. rewrite app_nil. simpl. by rewrite Ascii.eqb_refl.
  - intros [Ha Hx]%rfind_cons_None. rewrite app_cons. simpl.
    destruct (Ascii.eqb_spec a c); [done|]. by rewrite IH.
Qed.

Lemma split_nonempty c s : PyStr.split c s ≠ [].
Proof.
  destruct s as [|a s]; [done|]. simpl.
  destruct (Ascii.eqb a c); [done|]. by destruct (PyStr.split c s).
Qed.

Lemma split_nosep_parts c s :
  Forall (λ x, PyStr.rfind c x = None) (PyStr.split c s).
Proof.
  induction s as [|a s IH]; [by repeat constructor|]. simpl.
  destruct (Ascii.eqb_spec a c) as [->|Ha]; [by constructor|].
  destruct (PyStr.split c s) as [|x l].
  { constructor; [by apply rfind_cons_None|constructor]. }
  apply Forall_cons in IH as [Hx Hl]. constructor; [|done].
  by apply rfind_cons_None.
Qed.

Lemma split_join c l :
  l ≠ [] → Forall (λ x, PyStr.rfind c x = None) l →
  PyStr.split c (PyStr.join (String c "") l) = l.
Proof.
  induction l as [|x l IH]; [done|]. intros _ [Hx Hl]%Forall_cons.
  destruct l as [|y l]; [by apply split_nosep|].
  change (PyStr.join (String c "") (x :: y :: l))
    with (x +:+ String c "" +:+ PyStr.join (String c "") (y :: l)).
  rewrite app_cons, app_nil, split_app_sep by done. by rewrite IH.
Qed.

Lemma lstrip_sep_length s :
  (String.length (Path.lstrip_sep s) ≤ String.length s)%nat.
Proof.
  induction s as [|a s IH]; [done|]. simpl.
  destruct a as [[] [] [] [] [] [] [] []]; simpl; lia.
Qed.

(** Every path that is parsed from a string is well formed. *)
Lemma of_string_wf s : path_wf (Path.of_string s).
Proof.
  unfold Path.of_string, path_wf.
  destruct (Path.splitroot s) as [r rel] eqn:Hs. cbn [Path.root Path.parts].
  split.
  - unfold Path.splitroot in Hs. rewrite !elem_of_cons.
    destruct s as [|a s']; [injection Hs as <- _; tauto|].
    destruct (Ascii.eqb_spec a "/") as [->|Ha].
    + destruct (_ =? 2)%nat; injection Hs as <- _; tauto.
    + destruct a as [[] [] [] [] [] [] [] []]; try done;
        injection Hs as <- _; tauto.
  - apply Forall_forall. intros x [[Hx1 Hx2] Hin]%list_elem_of_filter.
    split_and!; [done|done|].
    by eapply (proj1 (Forall_forall _ _) (split_nosep_parts "/" rel)).
Qed.

Lemma splitroot_nosep a s :
  a ≠ "/"%char → Path.splitroot (String a s) = ("", String a s).
Proof. intros Ha. by destruct a as [[] [] [] [] [] [] [] []]. Qed.

Lemma lstrip_sep_nosep a s :
  a ≠ "/"%char → Path.lstrip_sep (String a s) = String a s.
Proof. intros Ha. by destruct a as [[] [] [] [] [] [] [] []]. Qed.

Lemma lstrip_sep_sep s : Path.lstrip_sep (String "/" s) = Path.lstrip_sep s.
Proof. reflexivity. Qed.

Lemma filter_all {A} (P : A → Prop) `{∀ x, Decision (P x)} (l : list A) :
  Forall P l → filter P l = l.
Proof.
  induction 1 as [|x l Hx Hl IH]; [done|].
  rewrite filter_cons, decide_True by done. by rewrite IH.
Qed.

Lemma join_head sep x l :
  ∃ rest, PyStr.join sep (x :: l) = x +:+ rest.
Proof.
  destruct l as [|y l]; [exists ""|by eexists].
  simpl. induction x as [|a x IH]; [done|]. by rewrite app_cons, <- IH.
Qed.

(** Printing a well-formed path and parsing the text gives the path
    back. *)
Lemma of_string_str p : path_wf p → Path.of_string (Path.str p) = p.
Proof.
  destruct p as [r l]. unfold path_wf. cbn [Path.root Path.parts].
  intros [Hr Hl]. rewrite !elem_of_cons, elem_of_nil in Hr.
  destruct l as [|x l].
  { by destruct Hr as [->|[->|[->|[]]]]. }
  pose proof Hl as [(Hx & _ & Hsep) _]%Forall_cons.
  destruct x as [|a x]; [done|]. apply rfind_cons_None in Hsep as [Ha _].
  destruct (join_head "/" (String a x) l) as [rest Hj].
  rewrite app_cons in Hj.
  assert (Hparts : filter (λ y, y ≠ "" ∧ y ≠ ".")
                     (PyStr.split "/" (PyStr.join "/" (String a x :: l)))
                   = String a x :: l).
  { rewrite split_join; [|done|by eapply Forall_impl; [exact Hl|intros ? (_ & _ & ?)]].
    apply filter_all. eapply Forall_impl; [exact Hl|]. by intros ? (? & ? & _). }
  unfold Path.str, Path.of_string. cbn [Path.root Path.parts].
  remember (PyStr.join "/" (String a x :: l)) as J eqn:HJ. clear HJ.
  subst J. set (R := x +:+ rest) in *.
  destruct Hr as [->|[->|[->|[]]]].
  - rewrite app_nil, splitroot_nosep by done. by rewrite Hparts.
  - rewrite app_cons, app_nil. unfold Path.splitroot.
    rewrite !lstrip_sep_sep, lstrip_sep_nosep by done.
    replace (String.length (String "/" (String a R))
             - String.length (String a R))%nat
      with 1%nat by (simpl; lia).
    cbn [Nat.eqb]. by rewrite Hparts.
  - rewrite !app_cons, app_nil. unfold Path.splitroot.
    rewrite !lstrip_sep_sep, lstrip_sep_nosep by done.
    replace (String.length (String "/" (String "/" (String a R)))
             - String.length (String a R))%nat
      with 2%nat by (simpl; lia).
    cbn [Nat.eqb]. by rewrite Hparts.
Qed.

Lemma nosep_take c n s : PyStr.rfind c s = None → PyStr.rfind c (PyStr.take n s) = None.
Proof.
  intros H. rewrite <- (take_drop n s) in H. by apply rfind_app_None in H as [? _].
Qed.

Lemma nosep_drop c n s : PyStr.rfind c s = None → PyStr.rfind c (PyStr.drop n s) = None.
Proof.
  intros H. rewrite <- (take_drop n s) in H. by apply rfind_app_None in H as [_ ?].
Qed.

Lemma endswith_nosep s : PyStr.rfind "/" s = None → PyStr.endswith s "/" = false.
Proof.
  induction s as [|a s IH]; [done|]. intros [Ha Hs]%rfind_cons_None.
  cbn [PyStr.endswith]. rewrite (IH Hs).
  destruct (String.eqb_spec (String a s) "/") as [[= -> _]|_]; done.
Qed.

(** A string that could be a component parses to the path made of it. *)
Lemma of_string_component x :
  x ≠ "" → x ≠ "." → PyStr.rfind "/" x = None →
  Path.of_string x = Path.mk "" [x].
Proof.
  intros Hne Hdot Hsep. destruct x as [|a x]; [done|].
  pose proof Hsep as [Ha _]%rfind_cons_None.
  unfold Path.of_string. rewrite splitroot_nosep, split_nosep by done.
  rewrite filter_cons, decide_True by done. done.
Qed.

(** The name of a well-formed path holds no slash, and neither do its
    stem and its suffix. *)
Lemma name_nosep p : path_wf p → PyStr.rfind "/" (Path.name p) = None.
Proof.
  intros [_ Hl]. unfold Path.name.
  destruct (Path.parts p) as [|x l] using rev_ind; [done|].
  rewrite last_last. by apply Forall_app in Hl as [_ [(_ & _ & ?) _]%Forall_cons].
Qed.

Lemma stem_nosep p : path_wf p → PyStr.rfind "/" (Path.stem p) = None.
Proof.
  intros Hwf. unfold Path.stem. destruct (Path.suffix_index _);
    [apply nosep_take|]; by apply name_nosep.
Qed.

Lemma suffix_nosep p : path_wf p → PyStr.rfind "/" (Path.suffix p) = None.
Proof.
  intros Hwf. unfold Path.suffix. destruct (Path.suffix_index _);
    [apply nosep_drop; by apply name_nosep|done].
Qed.

Lemma stem_suffix p : Path.stem p +:+ Path.suffix p = Path.name p.
Proof.
  unfold Path.stem, Path.suffix. destruct (Path.suffix_index _);
    [apply take_drop|]. induction (Path.name p) as [|a s IH]; [done|].
  by rewrite app_cons, IH.
Qed.

Lemma suffix_name_nonempty p : Path.suffix p ≠ "" → Path.name p ≠ "".
Proof.
  unfold Path.suffix, Path.suffix_index. by destruct (Path.name p).
Qed.

Lemma stem_nonempty p : Path.name p ≠ "" → Path.stem p ≠ "".
Proof.
  unfold Path.stem, Path.suffix_index. intros Hn.
  destruct (PyStr.rfind "." (Path.name p)) as [i|]; [|done].
  destruct ((0 <? i)%nat && _) eqn:Hc; [|done].
  apply andb_prop in Hc as [Hi%Nat.ltb_lt _].
  destruct i as [|i]; [lia|]. by destruct (Path.name p).
Qed.

Section PathFacts.

Variable E : Env.

(** For a well-formed path with a suffix, [with_stem] succeeds: the new
    name is the new stem followed by the old suffix, in the same
    directory. *)
Lemma with_stem_ok p stem s :
  path_wf p → Path.suffix p ≠ "" → stem ≠ "" →
  PyStr.rfind "/" stem = None →
  with_stem p stem s
  = (Ok (Path.mk (Path.root p)
           (removelast (Path.parts p) ++ [stem +:+ Path.suffix p])), s).
Proof.
  intros Hwf Hsuf Hstem Hsep. unfold with_stem, with_name.
  rewrite bool_decide_eq_false_2 by (by apply suffix_name_nonempty).
  assert (Hn : PyStr.rfind "/" (stem +:+ Path.suffix p) = None)
    by (apply rfind_app_None; split; [done|by apply suffix_nosep]).
  assert (Hne : stem +:+ Path.suffix p ≠ "") by (by destruct stem).
  assert (Hdot : stem +:+ Path.suffix p ≠ ".").
  { intros Heq. apply (f_equal String.length) in Heq.
    rewrite length_app in Heq. destruct stem, (Path.suffix p); simpl in *; try done.
    lia. }
  rewrite (of_string_component _ Hne Hdot Hn), (endswith_nosep _ Hn).
  by rewrite (bool_decide_eq_false_2 _ Hne).
Qed.

End PathFacts.

(** ** Making the directories *)

Section Mkdir.

Variable E : Env.

Lemma lookup_path_insert_eq (m : gmap string node) k v :
  lookup_path m k = None → lookup_path (<[k:=v]> m) k = Some v.
Proof.
  unfold lookup_path. case_bool_decide; [done|]. intros _.
  by rewrite lookup_insert_eq.
Qed.

Lemma lookup_path_insert_ne (m : gmap string node) k v q :
  q ≠ k → lookup_path (<[k:=v]> m) q = lookup_path m q.
Proof.
  intros Hne. unfold lookup_path. case_bool_decide; [done|].
  by rewrite lookup_insert_ne.
Qed.

(** *** Paths that hold a NUL byte *)

Lemma has_nul_app a b :
  PyStr.has_nul (a +:+ b) = PyStr.has_nul a || PyStr.has_nul b.
Proof.
  induction a as [|c a IH]; [by rewrite app_nil|].
  rewrite app_cons. simpl. by rewrite IH, orb_assoc.
Qed.

Lemma has_nul_join l :
  PyStr.has_nul (PyStr.join "/" l) = existsb PyStr.has_nul l.
Proof.
  induction l as [|x l IH]; [done|]. destruct l as [|y l].
  - simpl. by rewrite orb_false_r.
  - change (PyStr.join "/" (x :: y :: l))
      with (x +:+ "/" +:+ PyStr.join "/" (y :: l)).
    rewrite !has_nul_app, IH. done.
Qed.

Lemma str_has_nul p :
  PyStr.has_nul (Path.str p)
  = PyStr.has_nul (Path.root p) || existsb PyStr.has_nul (Path.parts p).
Proof.
  rewrite <- has_nul_join, <- has_nul_app. unfold Path.str.
  by destruct (Path.root p +:+ PyStr.join "/" (Path.parts p)).
Qed.

Lemma parent_has_nul root rparts x :
  PyStr.has_nul (Path.str (Path.mk root (rev rparts))) = true →
  PyStr.has_nul (Path.str (Path.mk root (rev (x :: rparts)))) = true.
Proof.
  rewrite !str_has_nul. cbn [Path.root Path.parts rev].
  rewrite existsb_app. intros [-> | ->]%orb_true_iff; [done|].
  by rewrite orb_true_r.
Qed.

Lemma mkdir_failure_nul p e :
  PyStr.has_nul (Path.str p) = true →
  mkdir_failure p e → e = Raise Cls.ValueError "embedded null byte".
Proof. unfold mkdir_failure. by intros ->. Qed.

Lemma mkdir_failure_os p e :
  PyStr.has_nul (Path.str p) = false →
  mkdir_failure p e → isinstance e Cls.OSError = true.
Proof. unfold mkdir_failure. by intros ->. Qed.

Lemma mkdir_failure_cases p e :
  mkdir_failure p e →
  isinstance e Cls.OSError = true
  ∨ (e = Raise Cls.ValueError "embedded null byte"
     ∧ PyStr.has_nul (Path.str p) = true).
Proof.
  unfold mkdir_failure. destruct (PyStr.has_nul (Path.str p)); auto.
Qed.

(** What making directories does to a state: the log and the locals stay,
    whatever was on the filesystem stays, and nothing but directories is
    added.  A path that holds a NUL byte makes the call fail with a
    [ValueError]; every other failure is an [OSError]. *)
Lemma os_mkdir_spec p s r s' :
  os_mkdir E p s = (r, s') →
  (∀ q x, lookup_path (fs s) q = Some x → lookup_path (fs s') q = Some x)
  ∧ (∀ q, lookup_path (fs s') q = Some File → lookup_path (fs s) q = Some File)
  ∧ match r with
    | Ok _ =>
        lookup_path (fs s') (Path.str p) = Some Dir
        ∧ PyStr.has_nul (Path.str p) = false
    | Err e => mkdir_failure p e
    end.
Proof.
  unfold os_mkdir, mkdir_failure.
  destruct (PyStr.has_nul (Path.str p)) eqn:Hnul.
  { intros [= <- <-]. done. }
  unfold bind, get_fs, set_fs, raise.
  destruct (lookup_path (fs s) (Path.str p)) as [k|] eqn:Hp.
  { intros [= <- <-]. done. }
  destruct (lookup_path (fs s) (Path.str (Path.parent p))) as [[|]|].
  1,3: intros [= <- <-]; done.
  destruct (denied E (Path.str p)); intros [= <- <-]; [done|].
  cbn [fs]. split_and!; [| | |done].
  - intros q x Hq. destruct (decide (q = Path.str p)) as [->|Hne].
    + congruence.
    + by rewrite lookup_path_insert_ne.
  - intros q. destruct (decide (q = Path.str p)) as [->|Hne].
    + by rewrite lookup_path_insert_eq.
    + by rewrite lookup_path_insert_ne.
  - by apply lookup_path_insert_eq.
Qed.

Lemma os_mkdir_nul p s :
  PyStr.has_nul (Path.str p) = true →
  os_mkdir E p s = (Err (Raise Cls.ValueError "embedded null byte"), s).
Proof. unfold os_mkdir. by intros ->. Qed.

Lemma path_is_dir_spec p s :
  path_is_dir p s
  = (Ok (bool_decide (lookup_path (fs s) (Path.str p) = Some Dir)), s).
Proof. reflexivity. Qed.

Lemma mkdir_exist_ok_spec p s r s' :
  mkdir_exist_ok E p s = (r, s') →
  (∀ q x, lookup_path (fs s) q = Some x → lookup_path (fs s') q = Some x)
  ∧ (∀ q, lookup_path (fs s') q = Some File → lookup_path (fs s) q = Some File)
  ∧ match r with
    | Ok _ =>
        lookup_path (fs s') (Path.str p) = Some Dir
        ∧ PyStr.has_nul (Path.str p) = false
    | Err e => mkdir_failure p e
    end.
Proof.
  unfold mkdir_exist_ok, try_except.
  destruct (os_mkdir E p s) as [[[]|e] s1] eqn:Hmk;
    pose proof (os_mkdir_spec _ _ _ _ Hmk) as (Hkeep & Hfile & Hres).
  { by intros [= <- <-]. }
  destruct (PyStr.has_nul (Path.str p)) eqn:Hnul.
  { rewrite (mkdir_failure_nul _ _ Hnul Hres) in *.
    intros [= <- <-]. split_and!; [done|done|].
    unfold mkdir_failure. by rewrite Hnul. }
  pose proof (mkdir_failure_os _ _ Hnul Hres) as Hos.
  rewrite Hos. unfold bind. rewrite path_is_dir_spec.
  case_bool_decide as Hd; intros [= <- <-]; done.
Qed.

Lemma mkdir_parents_spec root rparts s r s' :
  mkdir_parents E root rparts s = (r, s') →
  (∀ q x, lookup_path (fs s) q = Some x → lookup_path (fs s') q = Some x)
  ∧ (∀ q, lookup_path (fs s') q = Some File → lookup_path (fs s) q = Some File)
  ∧ match r with
    | Ok _ =>
        lookup_path (fs s') (Path.str (Path.mk root (rev rparts))) = Some Dir
        ∧ PyStr.has_nul (Path.str (Path.mk root (rev rparts))) = false
    | Err e => mkdir_failure (Path.mk root (rev rparts)) e
    end.
Proof.
  revert s r s'. induction rparts as [|x rparts IH]; intros s r s';
    cbn [mkdir_parents]; unfold try_except;
    destruct (os_mkdir E _ s) as [[[]|e] s1] eqn:Hmk;
    pose proof (os_mkdir_spec _ _ _ _ Hmk) as (Hkeep & Hfile & Hres).
  - by intros [= <- <-].
  - destruct (PyStr.has_nul (Path.str (Path.mk root (rev [])))) eqn:Hnul.
    { rewrite (mkdir_failure_nul _ _ Hnul Hres) in *.
      intros [= <- <-]. split_and!; [done|done|].
      unfold mkdir_failure. by rewrite Hnul. }
    pose proof (mkdir_failure_os _ _ Hnul Hres) as Hos.
    destruct (isinstance e Cls.FileNotFoundError); [by intros [= <- <-]|].
    rewrite Hos. unfold bind. rewrite path_is_dir_spec.
    case_bool_decide as Hd; intros [= <- <-]; done.
  - by intros [= <- <-].
  - destruct (PyStr.has_nul (Path.str (Path.mk root (rev (x :: rparts)))))
      eqn:Hnul.
    { rewrite (mkdir_failure_nul _ _ Hnul Hres) in *.
      intros [= <- <-]. split_and!; [done|done|].
      unfold mkdir_failure. by rewrite Hnul. }
    pose proof (mkdir_failure_os _ _ Hnul Hres) as Hos.
    destruct (isinstance e Cls.FileNotFoundError).
    + unfold bind.
      destruct (mkdir_parents E root rparts s1) as [[[]|e2] s2] eqn:Hrec;
        pose proof (IH _ _ _ Hrec) as (Hkeep2 & Hfile2 & Hres2).
      * intros Hok. apply mkdir_exist_ok_spec in Hok as (Hkeep3 & Hfile3 & Hres3).
        split; [|split]; [|by intros q Hq; apply Hfile, Hfile2, Hfile3|].
        { intros q y Hq. by apply Hkeep3, Hkeep2, Hkeep. }
        destruct r as [[]|e3]; [by destruct Hres3|done].
      * intros [= <- <-].
        split; [|split]; [|by intros q Hq; apply Hfile, Hfile2|].
        { intros q y Hq. by apply Hkeep2, Hkeep. }
        unfold mkdir_failure. rewrite Hnul.
        apply (mkdir_failure_os _ _) in Hres2; [done|].
        destruct (PyStr.has_nul (Path.str (Path.mk root (rev rparts))))
          eqn:Hpn; [|done].
        apply (parent_has_nul _ _ x) in Hpn. congruence.
    + rewrite Hos. unfold bind. rewrite path_is_dir_spec.
      case_bool_decide as Hd; intros [= <- <-]; done.
Qed.

Lemma mkdir_parents_nul root rparts s :
  PyStr.has_nul (Path.str (Path.mk root (rev rparts))) = true →
  mkdir_parents E root rparts s
  = (Err (Raise Cls.ValueError "embedded null byte"), s).
Proof.
  intros Hnul.
  destruct rparts as [|x rparts]; cbn [mkdir_parents]; unfold try_except;
    by rewrite (os_mkdir_nul _ _ Hnul).
Qed.

(** [p.mkdir(parents=True, exist_ok=True)] on a path *)
Lemma path_mkdir_parents_spec (p : Path.t) s r s' :
  path_mkdir_parents E p s = (r, s') →
  log s' = log s ∧ temps s' = temps s
  ∧ (∀ q x, lookup_path (fs s) q = Some x → lookup_path (fs s') q = Some x)
  ∧ (∀ q, lookup_path (fs s') q = Some File → lookup_path (fs s) q = Some File)
  ∧ match r with
    | Ok _ =>
        lookup_path (fs s') (Path.str p) = Some Dir
        ∧ PyStr.has_nul (Path.str p) = false
    | Err e => mkdir_failure p e
    end.
Proof.
  unfold path_mkdir_parents. intros Hmk.
  pose proof (mkdir_parents_spec _ _ _ _ _ Hmk) as (Hkeep & Hfile & Hres).
  apply keeps_frame_mkdir_parents in Hmk as (Hl & Ha & Hb & Hc).
  rewrite rev_involutive in Hres.
  replace (Path.mk (Path.root p) (Path.parts p)) with p in Hres
    by (by destruct p).
  split_and!; try done. unfold temps. by rewrite Ha, Hb, Hc.
Qed.

(** Lines 67-72 of [mark_video], and the same lines of [mark_audio] and
    [mark_image]: an [OSError] of [mkdir] becomes an
    [InvalidOutputPathError]; the [ValueError] of a NUL byte is not caught. *)
Lemma guarded_mkdir_spec (output_p : Path.t) s r s' :
  try_except (path_mkdir_parents E (Path.parent output_p)) (λ e,
    if isinstance e Cls.OSError
    then raise (InvalidOutputPathError (Path.str output_p)
                  ("Could not create parent directory: " +:+ exn_str E e))
    else raise e) s = (r, s') →
  log s' = log s ∧ temps s' = temps s
  ∧ (∀ q x, lookup_path (fs s) q = Some x → lookup_path (fs s') q = Some x)
  ∧ (∀ q, lookup_path (fs s') q = Some File → lookup_path (fs s) q = Some File)
  ∧ match r with
    | Ok _ =>
        lookup_path (fs s') (Path.str (Path.parent output_p)) = Some Dir
        ∧ PyStr.has_nul (Path.str (Path.parent output_p)) = false
    | Err e =>
        isinstance e Cls.MarkerError = true
        ∨ (e = Raise Cls.ValueError "embedded null byte"
           ∧ PyStr.has_nul (Path.str (Path.parent output_p)) = true)
    end.
Proof.
  unfold try_except, path_mkdir_parents.
  destruct (mkdir_parents E _ _ s) as [[[]|e] s2] eqn:Hmk;
    pose proof (mkdir_parents_spec _ _ _ _ _ Hmk) as (Hkeep & Hfile & Hres);
    apply keeps_frame_mkdir_parents in Hmk as (Hl & Ha & Hb & Hc);
    rewrite rev_involutive in Hres;
    replace (Path.mk (Path.root (Path.parent output_p))
               (Path.parts (Path.parent output_p)))
      with (Path.parent output_p) in Hres by (by destruct (Path.parent output_p)).
  - intros [= <- <-]. destruct Hres. split_and!; try done.
    unfold temps. by rewrite Ha, Hb, Hc.
  - apply mkdir_failure_cases in Hres as [Hos|[-> Hnul]].
    + rewrite Hos. intros [= <- <-]. split_and!; try done; [|by left].
      unfold temps. by rewrite Ha, Hb, Hc.
    + intros [= <- <-]. split_and!; try done; [|by right].
      unfold temps. by rewrite Ha, Hb, Hc.
Qed.

End Mkdir.

(** ** [mark_video]: the input and output paths *)

Section ResolvePaths.

Variable E : Env.

Lemma video_suffix_nonempty p :
  PyStr.lower (Path.suffix p) ∈ VIDEO_EXTS → Path.suffix p ≠ "".
Proof.
  intros Hin Hs. rewrite Hs in Hin.
  by apply video_ext_cases in Hin as [|[|[|[|[|[|]]]]]].
Qed.

Lemma resolve_paths_spec input_path output_path s r s1 :
  resolve_paths E input_path output_path s = (r, s1) →
  (∀ q x, lookup_path (fs s) q = Some x → lookup_path (fs s1) q = Some x)
  ∧ (∀ q, lookup_path (fs s1) q = Some File → lookup_path (fs s) q = Some File)
  ∧ match r with
    | Ok output_p =>
        lookup_path (fs s) (Path.str (Path.of_string input_path)) = Some File
        ∧ PyStr.lower (Path.suffix (Path.of_string input_path)) ∈ VIDEO_EXTS
        ∧ lookup_path (fs s1) (Path.str (Path.parent output_p)) = Some Dir
        ∧ output_p = match output_path with
                     | None => default_output_video (Path.of_string input_path)
                     | Some o => Path.of_string o
                     end
        ∧ (is_Some output_path →
           lookup_path (fs s) (Path.str output_p) ≠ Some Dir)
    | Err e =>
        isinstance e Cls.MarkerError = true
        ∨ (e = Raise Cls.ValueError "embedded null byte"
           ∧ PyStr.has_nul
               (Path.str
                  (Path.parent
                     match output_path with
                     | None => default_output_video (Path.of_string input_path)
                     | Some o => Path.of_string o
                     end)) = true)
    end.
Proof.
  unfold resolve_paths.
  unfold bind at 1, path_exists, os_path_exists, bind at 1, get_fs at 1, ret at 1.
  destruct (lookup_path (fs s) (Path.str (Path.of_string input_path)))
    as [k|] eqn:Hin.
  2:{ rewrite bool_decide_eq_false_2 by (by intros [? ?]).
      intros [= <- <-]. split_and!; try done. by left. }
  rewrite bool_decide_eq_true_2 by eauto. cbn [negb].
  unfold bind at 1, path_is_file, bind at 1, get_fs at 1, ret at 1. rewrite Hin.
  case_bool_decide as Hfile;
    [|intros [= <- <-]; split_and!; try done; by left]. cbn [negb].
  case_bool_decide as Hext;
    [|intros [= <- <-]; split_and!; try done; by left]. cbn [negb].
  unfold bind at 1.
  set (pick := match output_path with
               | Some o => _ | None => _ end).
  assert (Hpick : (∃ output_p,
             pick s = (Ok output_p, s)
             ∧ output_p = match output_path with
                          | None => default_output_video (Path.of_string input_path)
                          | Some o => Path.of_string o
                          end
             ∧ (is_Some output_path →
                lookup_path (fs s) (Path.str output_p) ≠ Some Dir))
           ∨ ∃ e, pick s = (Err e, s) ∧ isinstance e Cls.MarkerError = true).
  { subst pick. destruct output_path as [o|].
    - case_bool_decide; [|right; by eexists]. cbn [negb].
      unfold bind. rewrite path_is_dir_spec.
      case_bool_decide as Hd; [right; by eexists|]. left. by eexists.
    - left. eexists. rewrite with_stem_ok.
      + split_and!; [done|done|]. by intros [? [=]].
      + apply of_string_wf.
      + by apply video_suffix_nonempty.
      + by destruct (Path.stem (Path.of_string input_path)).
      + apply rfind_app_None. split; [apply stem_nosep, of_string_wf|done]. }
  clearbody pick.
  destruct Hpick as [(output_p & -> & Hout & Hnd)|(e & -> & He)];
    [|intros [= <- <-]; split_and!; try done; by left].
  unfold bind at 1.
  destruct (try_except _ _ s) as [[[]|e] s2] eqn:Hmk;
    apply guarded_mkdir_spec in Hmk as (_ & _ & Hkeep & Hfile' & Hres);
    intros [= <- <-].
  - destruct Hres as [Hdir _]. split_and!; done.
  - split_and!; try done. by rewrite <- Hout.
Qed.

End ResolvePaths.

(** X3.  The directory of the output exists once the paths are resolved, and
    resolving them loses nothing: every node that was on the filesystem is
    still there, no file has appeared, and neither the log nor the locals
    have changed. *)
Theorem output_directory_made E input_path output_path s output_p s1 :
  resolve_paths E input_path output_path s = (Ok output_p, s1) →
  lookup_path (fs s1) (Path.str (Path.parent output_p)) = Some Dir
  ∧ (∀ q x, lookup_path (fs s) q = Some x → lookup_path (fs s1) q = Some x)
  ∧ (∀ q, lookup_path (fs s1) q = Some File → lookup_path (fs s) q = Some File)
  ∧ log s1 = log s ∧ temps s1 = temps s.
Proof.
  intros Hp.
  pose proof (resolve_paths_spec E _ _ _ _ _ Hp) as (Hkeep & Hfile & _ & _ & Hdir & _).
  apply keeps_frame_resolve_paths in Hp as (Hl & Ha & Hb & Hc).
  split_and!; try done. unfold temps. by rewrite Ha, Hb, Hc.
Qed.

(** A witness for X3: the output [out/x/clip.mkv] on a filesystem that has
    neither [out] nor [out/x]. *)
Lemma output_directory_made_witness :
  let E := Demo.env [Demo.clip] Demo.all_fine [] in
  let res := resolve_paths E "clip.mp4" (Some "out/x/clip.mkv") Demo.start in
  lookup_path (fs Demo.start) "out/x" = None
  ∧ lookup_path (fs res.2) "out/x" = Some Dir.
Proof.
  intros E res. split; [reflexivity|].
  refine (proj1 (output_directory_made E "clip.mp4" (Some "out/x/clip.mkv")
                   Demo.start (Path.of_string "out/x/clip.mkv") res.2 _)).
  vm_compute. reflexivity.
Defined.

Lemma removelast_snoc {A} (l : list A) x : removelast (l ++ [x]) = l.
Proof. apply removelast_last. Qed.

Lemma default_output_wf p :
  path_wf p → Path.suffix p ≠ "" → path_wf (default_output_video p).
Proof.
  intros Hwf Hsuf. pose proof Hwf as [Hr Hl]. split; [done|].
  cbn [default_output_video Path.parts]. apply Forall_app. split.
  - destruct (Path.parts p) as [|x l] using rev_ind; [done|].
    rewrite removelast_snoc. by apply Forall_app in Hl as [? _].
  - constructor; [|done]. split_and!.
    + by destruct (Path.stem p).
    + intros Heq. apply (f_equal String.length) in Heq.
      rewrite !length_app in Heq. simpl in Heq. lia.
    + rewrite !rfind_app_None. split_and!; [by apply stem_nosep|done|].
      by apply suffix_nosep.
Qed.

(** X4.  When the caller names no output, the output is put beside the input
    under the name of the input with [_marked] between its stem and its
    suffix: the directory and the suffix are those of the input, and the
    output is never the input itself. *)
Theorem default_output_beside_input E input_path s output_p s1 :
  resolve_paths E input_path None s = (Ok output_p, s1) →
  let input_p := Path.of_string input_path in
  Path.name output_p = Path.stem input_p +:+ "_marked" +:+ Path.suffix input_p
  ∧ Path.parent output_p = Path.parent input_p
  ∧ Path.suffix output_p = Path.suffix input_p
  ∧ Path.str output_p ≠ Path.str input_p.
Proof.
  intros Hp input_p.
  pose proof (resolve_paths_spec E _ _ _ _ _ Hp) as (_ & _ & _ & Hext & _ & -> & _).
  fold input_p in Hext |- *.
  pose proof (video_suffix_nonempty _ Hext) as Hsuf.
  assert (Hname : Path.name (default_output_video input_p)
                  = Path.stem input_p +:+ "_marked" +:+ Path.suffix input_p).
  { unfold default_output_video. by rewrite name_snoc, str_app_assoc. }
  split_and!.
  - done.
  - unfold Path.parent, default_output_video. cbn [Path.root Path.parts].
    by rewrite removelast_snoc.
  - unfold default_output_video. apply suffix_with_stem; [done|].
    by destruct (Path.stem input_p).
  - intros Heq. apply (f_equal Path.of_string) in Heq.
    rewrite !of_string_str in Heq
      by (first [by apply default_output_wf; [apply of_string_wf|]
                | apply of_string_wf]).
    apply (f_equal Path.name) in Heq. rewrite Hname, <- (stem_suffix input_p) in Heq.
    apply (f_equal String.length) in Heq. rewrite !length_app in Heq.
    simpl in Heq. lia.
Qed.

(** A witness for X4: the input [in/clip.MP4]. *)
Lemma default_output_beside_input_witness :
  let E := Demo.env [Demo.clip] Demo.all_fine [] in
  let s := mkState {[ "in/clip.MP4" := File; "in" := Dir ]} [] None None None in
  let res := resolve_paths E "in/clip.MP4" None s in
  ∃ output_p, res.1 = Ok output_p
    ∧ Path.str output_p = "in/clip_marked.MP4"
    ∧ Path.str output_p ≠ Path.str (Path.of_string "in/clip.MP4").
Proof.
  intros E s res. exists (Path.mk "" ["in"; "clip_marked.MP4"]).
  split; [vm_compute; reflexivity|]. split; [reflexivity|].
  refine (proj2 (proj2 (proj2
    (default_output_beside_input E "in/clip.MP4" s
       (Path.mk "" ["in"; "clip_marked.MP4"]) res.2 _)))).
  vm_compute. reflexivity.
Defined.

(** ** [mark_video]: the exceptions that leave it *)

Lemma marker_not_called_process e :
  isinstance e Cls.MarkerError = true →
  isinstance e Cls.CalledProcessError = false.
Proof. unfold isinstance. by destruct (class_of e). Qed.

Lemma except_classes E e s r s' :
  mark_video_except E e s = (r, s') →
  ∃ e', r = Err e'
    ∧ (isinstance e' Cls.MarkerError = true
       ∨ (class_of e' = Cls.AttributeError
          ∧ isinstance e Cls.CalledProcessError = true)).
Proof.
  unfold mark_video_except.
  destruct (isinstance e Cls.CalledProcessError) eqn:Hc.
  { destruct e as [| | | | |? ? ? [?|]|]; intros [= <- <-]; eexists;
      (split; [done|]); first [by left | by right]. }
  destruct (_ || _) eqn:Ht.
  { intros [= <- <-]. exists e. split; [done|]. left.
    unfold isinstance in *. by destruct (class_of e). }
  destruct (isinstance e Cls.MarkerError) eqn:Hm; intros [= <- <-];
    eexists; (split; [done|]); by left.
Qed.

Lemma except_marker E e s :
  isinstance e Cls.MarkerError = true →
  mark_video_except E e s = (Err e, s).
Proof.
  intros Hm. unfold mark_video_except.
  rewrite (marker_not_called_process _ Hm), Hm. by destruct (_ || _).
Qed.

(** X5.  Every exception that leaves [mark_video] is a [MarkerError] or
    an [AttributeError], with one exception: the [ValueError] that [mkdir]
    raises on line 68 when the directory of the output holds a NUL byte,
    which the [except OSError] of line 69 does not catch. *)
Theorem exceptions_that_leave_mark_video E input_path output_path resolution
    overlay_text s e s' :
  mark_video E input_path output_path resolution overlay_text s = (Err e, s') →
  isinstance e Cls.MarkerError = true
  ∨ class_of e = Cls.AttributeError
  ∨ (e = Raise Cls.ValueError "embedded null byte"
     ∧ PyStr.has_nul
         (Path.str
            (Path.parent
               match output_path with
               | None => default_output_video (Path.of_string input_path)
               | Some o => Path.of_string o
               end)) = true).
Proof.
  intros Hrun.
  apply mark_video_spec in Hrun
    as [(e' & [= <-] & Hp)|(output_p & s1 & s2 & Hp & Htry & Hfin)].
  { destruct (proj2 (proj2 (resolve_paths_spec E _ _ _ _ _ Hp))); tauto. }
  apply mark_video_try_spec in Htry as [[[=] _]|(e0 & _ & Hexc)].
  apply except_classes in Hexc as (e' & [= <-] & [H|[H _]]); tauto.
Qed.

(** A witness for X5: the output [out\0/x.mp4], whose directory holds a
    NUL byte. *)
Lemma exceptions_that_leave_mark_video_witness :
  let E := Demo.env [Demo.clip] Demo.all_fine [] in
  let output_path := "out" +:+ String "000" "/x.mp4" in
  let out := mark_video E "clip.mp4" (Some output_path) None None Demo.start in
  let e := Raise Cls.ValueError "embedded null byte" in
  out.1 = Err e
  ∧ (isinstance e Cls.MarkerError = true
     ∨ class_of e = Cls.AttributeError
     ∨ (e = Raise Cls.ValueError "embedded null byte"
        ∧ PyStr.has_nul
            (Path.str (Path.parent (Path.of_string output_path))) = true)).
Proof.
  intros E output_path out e. split; [vm_compute; reflexivity|].
  apply (exceptions_that_leave_mark_video E "clip.mp4" (Some output_path)
           None None Demo.start e out.2).
  vm_compute. reflexivity.
Defined.

(** X6.  When the probe fails, nothing is logged and the call ends in the
    state the paths were resolved in. A process failure of the probe is
    reported as the failed-to-probe error; any other [MarkerError] of the
    probe leaves the call as it is. *)
Theorem probe_failure_reported E input_path output_path resolution overlay_text
    s r s' output_p s1 e :
  mark_video E input_path output_path resolution overlay_text s = (r, s') →
  resolve_paths E input_path output_path s = (Ok output_p, s1) →
  _ffprobe_param E input_path (fs s1) = Err e →
  isinstance e Cls.MarkerError = true →
  r = Err (if isinstance e Cls.FFmpegProcessError
           then VideoMarkingError "Failed to probe video parameters." else e)
  ∧ s' = reset_temps s1 ∧ log s' = log s.
Proof.
  intros Hrun Hp Hprobe Hm.
  set (e' := if isinstance e Cls.FFmpegProcessError
             then VideoMarkingError "Failed to probe video parameters." else e).
  assert (Hm' : isinstance e' Cls.MarkerError = true).
  { subst e'. by destruct (isinstance e Cls.FFmpegProcessError). }
  assert (Hbody : mark_video_body E input_path output_p resolution overlay_text
                    (reset_temps s1) = (Err e', reset_temps s1)).
  { unfold mark_video_body. unfold bind at 1. unfold try_except at 1.
    cbn [fs reset_temps]. rewrite Hprobe. subst e'.
    by destruct (isinstance e Cls.FFmpegProcessError). }
  destruct (mark_video_stopped _ _ _ _ _ _ _ _ _ _ _ Hrun Hp Hbody) as [Hexc ->].
  rewrite (except_marker _ _ _ Hm') in Hexc. injection Hexc as <-.
  split_and!; [done|done|]. cbn [log reset_temps].
  by apply keeps_frame_resolve_paths in Hp as (-> & _).
Qed.

(** A witness for X6: the probe fails with a process error. *)
Lemma probe_failure_reported_witness :
  let e := FFmpegProcessError ["ffprobe"; "clip.mp4"] (Some "moov atom not found") in
  let E := with_probe (λ _ _, Err e) (Demo.env [] Demo.all_fine []) in
  let out := mark_video E "clip.mp4" None None None Demo.start in
  out.1 = Err (VideoMarkingError "Failed to probe video parameters.")
  ∧ out.2 = reset_temps (resolve_paths E "clip.mp4" None Demo.start).2
  ∧ log out.2 = log Demo.start.
Proof.
  intros e E out.
  refine (probe_failure_reported E "clip.mp4" None None None Demo.start
            out.1 out.2 (Path.of_string "clip_marked.mp4")
            (resolve_paths E "clip.mp4" None Demo.start).2 e
            (surjective_pairing out) _ _ _); vm_compute; reflexivity.
Defined.

(** ** [mark_video]: the commands *)

(** X7.  The encoder of the marker and the bitstream filter of the two
    remuxes follow the codec of the first video stream: [libx264] and
    [h264_mp4toannexb] for h264, [libx265] and [hevc_mp4toannexb] for hevc,
    the only other codec with which a command is run. *)
Theorem encoder_and_filter_follow_codec E input_path output_path resolution
    overlay_text s r s' output_p s1 probe video_stream i cmd :
  mark_video E input_path output_path resolution overlay_text s = (r, s') →
  resolve_paths E input_path output_path s = (Ok output_p, s1) →
  _ffprobe_param E input_path (fs s1) = Ok probe →
  first_stream "video" (default [] (streams probe)) = Some video_stream →
  log s' !! (length (log s) + i)%nat = Some (Run cmd) →
  let h264 := bool_decide (video_codec_of video_stream = "h264") in
  (h264 = false → video_codec_of video_stream = "hevc")
  ∧ (i = 1%nat →
     cmd !! 11%nat = Some "-c:v"
     ∧ cmd !! 12%nat = Some (if h264 then "libx264" else "libx265"))
  ∧ (i = 2%nat ∨ i = 3%nat →
     cmd !! 4%nat = Some "-c" ∧ cmd !! 5%nat = Some "copy"
     ∧ cmd !! 6%nat = Some "-bsf:v"
     ∧ cmd !! 7%nat
       = Some (if h264 then "h264_mp4toannexb" else "hevc_mp4toannexb")).
Proof.
  intros Hrun Hp Hprobe Hvideo Hev h264.
  destruct (logged_event _ _ _ _ _ _ _ _ _ _ Hrun Hev)
    as (output_p' & s1' & probe' & vs & Hp' & Hprobe' & (Hvideo' & _ & _ & Hc & _)
        & Hst & _).
  rewrite Hp in Hp'. injection Hp' as <- <-.
  rewrite Hprobe in Hprobe'. injection Hprobe' as <-.
  rewrite Hvideo in Hvideo'. injection Hvideo' as <-.
  specialize (Hst i (le_n _)). rewrite Hev in Hst.
  split_and!.
  - subst h264. intros Hne. apply bool_decide_eq_false in Hne.
    rewrite !elem_of_cons, elem_of_nil in Hc. tauto.
  - intros ->. by injection Hst as ->.
  - intros [-> | ->]; by injection Hst as ->.
Qed.

(** A witness for X7: a stream whose codec is reported as [HEVC]. *)
Lemma encoder_and_filter_follow_codec_witness :
  let clip := Demo.video "HEVC" 640 360 None in
  let E := Demo.env [clip] Demo.all_fine [] in
  let out := mark_video E "clip.mp4" None None None Demo.start in
  ∃ cmd, log out.2 !! 2%nat = Some (Run cmd)
         ∧ cmd !! 7%nat = Some "hevc_mp4toannexb".
Proof.
  intros clip E out. eexists. split; [vm_compute; reflexivity|].
  refine (proj2 (proj2 (proj2 (proj2 (proj2
    (encoder_and_filter_follow_codec E "clip.mp4" None None None Demo.start
       out.1 out.2 (Path.of_string "clip_marked.mp4")
       (resolve_paths E "clip.mp4" None Demo.start).2
       {| streams := Some [clip] |} clip 2%nat _
       (surjective_pairing out) _ _ _ _)) (or_introl eq_refl)))));
    vm_compute; reflexivity.
Defined.

(** *** The cleanup leaves every other path alone *)

Lemma remove_quietly_other E p s q :
  p ≠ Some q → fs (remove_quietly E p s).2 !! q = fs s !! q.
Proof.
  intros Hne. destruct s as [m l a b c]. destruct p as [[|ch p]|]; simpl; try done.
  remember (String ch p) as k eqn:Ek. clear Ek.
  unfold bind, os_path_exists, get_fs, ret, try_except, os_remove, bind, get_fs.
  simpl. destruct (lookup_path m k) as [[|]|] eqn:Hk; simpl; rewrite ?Hk; simpl;
    try done.
  destruct (denied E k) eqn:Hd; simpl; rewrite ?Hd; simpl; [done|].
  apply lookup_delete_ne. congruence.
Qed.

Lemma cleanup_other E ps s q :
  Some q ∉ ps → fs (for_each ps (remove_quietly E) s).2 !! q = fs s !! q.
Proof.
  revert s. induction ps as [|p ps IH]; intros s Hq; [done|].
  apply not_elem_of_cons in Hq as [Hne Hq].
  destruct (remove_quietly_spec E p s) as (m1 & H1 & _).
  pose proof (remove_quietly_other E p s q ltac:(congruence)) as Ho.
  rewrite H1 in Ho. simpl in Ho.
  simpl. erewrite bind_Ok by exact H1. rewrite IH by done. exact Ho.
Qed.

(** *** The four stages *)

Lemma run_all_step E cmd cmds st :
  ∃ m, (run_checked E cmd st = (Ok tt, after_run st cmd m)
        ∧ run_all E (cmd :: cmds) (fs st) = run_all E cmds m)
       ∨ (∃ e, run_checked E cmd st = (Err e, after_run st cmd m))
         ∧ run_all E (cmd :: cmds) (fs st) = None.
Proof.
  destruct (run_checked_spec E cmd st) as (m & [[H (out & err & Hx)]|(e & H & Hf & Hx)]);
    exists m; [left|right]; (split; [eauto|]); cbn [run_all].
  - by rewrite Hx.
  - destruct Hf as [|rc Hrc].
    + destruct Hx as (_ & m' & ->). done.
    + destruct Hx as (out & err & ->). by apply Z.eqb_neq in Hrc as ->.
Qed.

Lemma four_runs_all E c1 c2 c3 c4 st r s' :
  bind (run_checked E c1) (λ _,
    bind (bind (run_checked E c2) (λ _,
            bind (run_checked E c3) (λ _, ret tt)))
         (λ _, run_checked E c4)) st = (r, s') →
  (r = Ok tt → run_all E [c1; c2; c3; c4] (fs st) = Some (fs s'))
  ∧ (is_Some (run_all E [c1; c2; c3; c4] (fs st)) → r = Ok tt).
Proof.
  unfold bind at 1.
  destruct (run_all_step E c1 [c2; c3; c4] st) as (m1 & [[-> ->]|[[e ->] ->]]).
  2:{ intros [= <- <-]. split; [done|]. by intros [? ?]. }
  unfold bind at 1. unfold bind at 1.
  destruct (run_all_step E c2 [c3; c4] (after_run st c1 m1))
    as (m2 & [[-> H2]|[[e ->] H2]]); cbn [fs after_run] in H2; rewrite H2.
  2:{ intros [= <- <-]. split; [done|]. by intros [? ?]. }
  unfold bind at 1.
  destruct (run_all_step E c3 [c4] (after_run (after_run st c1 m1) c2 m2))
    as (m3 & [[-> H3]|[[e ->] H3]]); cbn [fs after_run] in H3; rewrite H3.
  2:{ intros [= <- <-]. split; [done|]. by intros [? ?]. }
  unfold ret at 1.
  destruct (run_all_step E c4 []
              (after_run (after_run (after_run st c1 m1) c2 m2) c3 m3))
    as (m4 & [[-> H4]|[[e ->] H4]]); cbn [fs after_run] in H4; rewrite H4.
  2:{ intros [= <- <-]. split; [done|]. by intros [? ?]. }
  intros [= <- <-]. split; [done|done].
Qed.

Lemma body_stages E input_path output_p resolution overlay_text s r s'
    probe video_stream src :
  _ffprobe_param E input_path (fs s) = Ok probe →
  passes_validation resolution probe video_stream →
  _generate_lavfi_drawtext E (resolved_text input_path overlay_text)
    (resolved_resolution resolution video_stream) (QArith_base.Qmake 1 2)
  = Ok src →
  mark_video_body E input_path output_p resolution overlay_text s = (r, s') →
  (r = Ok tt →
   run_all E (stage_commands E input_path output_p video_stream src) (fs s)
   = Some (fs s'))
  ∧ (is_Some (run_all E (stage_commands E input_path output_p video_stream src)
                (fs s)) → r = Ok tt).
Proof.
  intros Hprobe (Hvideo & Hw & Hh & Hcodec & Haudio) Hsrc.
  unfold mark_video_body. unfold bind at 1. unfold try_except at 1.
  rewrite Hprobe.
  destruct (default [] (streams probe)) as [|st0 sts] eqn:Hstreams; [done|].
  rewrite Hvideo.
  replace (match resolution with
           | Some r0 => r0.1 | None => default 0%Z (width video_stream) end)
    with (resolved_resolution resolution video_stream).1 by (by destruct resolution).
  replace (match resolution with
           | Some r0 => r0.2 | None => default 0%Z (height video_stream) end)
    with (resolved_resolution resolution video_stream).2 by (by destruct resolution).
  fold (resolved_text input_path overlay_text).
  fold (video_codec_of video_stream).
  fold (marker_container_path E) (marker_ts_path E) (main_ts_path E).
  destruct ((_ <=? 0)%Z || (_ <=? 0)%Z) eqn:Hdims.
  { apply orb_true_iff in Hdims as [H%Z.leb_le|H%Z.leb_le]; lia. }
  rewrite (bool_decide_eq_true_2 _ Hcodec). cbn [negb].
  replace ((resolved_resolution resolution video_stream).1,
           (resolved_resolution resolution video_stream).2)
    with (resolved_resolution resolution video_stream)
    by (by destruct (resolved_resolution resolution video_stream)).
  unfold bind at 1.
  match goal with
  | |- context [match first_stream "audio" ?l with
                | Some a => @?f a | None => ?g end s] =>
      set (chk := match first_stream "audio" l with
                  | Some a => f a | None => g end)
  end.
  assert (Hchk : chk s = (Ok tt, s)).
  { subst chk. destruct (first_stream "audio" _); [|done].
    by rewrite (bool_decide_eq_true_2 _ Haudio). }
  clearbody chk. rewrite Hchk.
  unfold bind at 1, set_marker_container at 1.
  unfold bind at 1, set_marker_ts at 1. cbn [fs log marker_container marker_ts main_ts].
  unfold bind at 1, set_main_ts at 1. cbn [fs log marker_container marker_ts main_ts].
  unfold bind at 1, emit at 1. cbn [fs log marker_container marker_ts main_ts].
  unfold bind at 1. rewrite Hsrc.
  intros Hrun. apply four_runs_all in Hrun. exact Hrun.
Qed.

(** X8.  A call whose paths resolve returns normally exactly when the probe
    output passes the checks, the text source is produced, and the four
    commands, run one after the other, all exit with status 0. It has then
    logged the text source and the four commands, in this order, and what
    the last command left on the filesystem is still there, the three
    temporary paths apart. *)
Theorem normal_return_iff_all_stages_succeed E input_path output_path
    resolution overlay_text s r s' output_p s1 :
  mark_video E input_path output_path resolution overlay_text s = (r, s') →
  resolve_paths E input_path output_path s = (Ok output_p, s1) →
  let ready probe video_stream src :=
    _ffprobe_param E input_path (fs s1) = Ok probe
    ∧ passes_validation resolution probe video_stream
    ∧ _generate_lavfi_drawtext E (resolved_text input_path overlay_text)
        (resolved_resolution resolution video_stream) (QArith_base.Qmake 1 2)
      = Ok src in
  (r = Ok tt ↔
   ∃ probe video_stream src,
     ready probe video_stream src
     ∧ is_Some (run_all E
                  (stage_commands E input_path output_p video_stream src)
                  (fs s1)))
  ∧ ∀ probe video_stream src m,
      ready probe video_stream src →
      run_all E (stage_commands E input_path output_p video_stream src) (fs s1)
      = Some m →
      log s'
      = (log s
         ++ Drawtext (resolved_text input_path overlay_text)
              (resolved_resolution resolution video_stream)
            :: (Run <$> stage_commands E input_path output_p video_stream src))%list
      ∧ ∀ q, q ∉ [marker_container_path E; marker_ts_path E; main_ts_path E] →
             fs s' !! q = m !! q.
Proof.
  intros Hrun Hp ready.
  apply mark_video_spec in Hrun
    as [(e' & -> & Hp')|(output_p' & s1' & s2 & Hp' & Htry & Hfin)];
    rewrite Hp in Hp'; [done|]. injection Hp' as <- <-.
  pose proof (keeps_frame_resolve_paths _ _ _ _ _ _ Hp) as (Hl1 & _).
  assert (Hfs : ∀ q, Some q ∉ temps s2 → fs s' !! q = fs s2 !! q).
  { intros q Hq. pose proof (cleanup_other E (temps s2) s2 q Hq) as Ho.
    unfold mark_video_finally in Hfin. unfold temps in Ho. by rewrite Hfin in Ho. }
  assert (Hlog : log s' = log s2).
  { destruct (finally_spec E s2) as (m' & Hfin' & _).
    rewrite Hfin' in Hfin. by injection Hfin as <-. }
  apply mark_video_try_spec in Htry as [[-> Hbody]|(e & Hbody & Hexc)].
  - pose proof Hbody as Htrace. apply body_trace in Htrace
      as [(_ & [e0 He0] & _)|(probe & vs & evs & Hprobe & Hpass & Hevs & _ & Hta
                              & Hsrc & Hout)]; [done|].
    cbn [fs reset_temps] in Hprobe.
    destruct Hout as [[_ ->]|[(e & [=] & _)|(e & cmd & [=] & _)]].
    destruct Hsrc as [[src Hsrc]|[ev [=]]].
    destruct (body_stages E input_path output_p resolution overlay_text
                (reset_temps s1) _ _ _ _ _ Hprobe Hpass Hsrc Hbody)
      as [Hall _]. specialize (Hall eq_refl). cbn [fs reset_temps] in Hall.
    split.
    + split; [intros _|done]. exists probe, vs, src. by rewrite Hall.
    + intros probe' vs' src' m (Hprobe' & (Hv' & _) & Hsrc') Hm.
      rewrite Hprobe in Hprobe'. injection Hprobe' as <-.
      destruct Hpass as (Hv & _). rewrite Hv in Hv'. injection Hv' as <-.
      rewrite Hsrc in Hsrc'. injection Hsrc' as <-.
      rewrite Hall in Hm. injection Hm as <-. split.
      * rewrite Hlog, Hevs. cbn [log reset_temps]. rewrite Hl1.
        unfold stage_events, stage_commands. by rewrite Hsrc.
      * intros q Hq. apply Hfs. destruct Hta as (Ha & Hb & Hc).
        unfold temps. rewrite Ha, Hb, Hc. intros Hin. apply Hq.
        rewrite !elem_of_cons, elem_of_nil in Hin.
        rewrite !elem_of_cons, elem_of_nil.
        destruct Hin as [[=]|[[=]|[[=]|[]]]]; tauto.
  - destruct (except_raises E e s2) as [e' He']. rewrite He' in Hexc.
    injection Hexc as <-.
    assert (Hno : ∀ probe vs src m, ready probe vs src →
              run_all E (stage_commands E input_path output_p vs src) (fs s1)
              = Some m → False).
    { intros probe vs src m (Hprobe & Hpass & Hsrc) Hm.
      destruct (body_stages E input_path output_p resolution overlay_text
                (reset_temps s1) _ _ _ _ _ Hprobe Hpass Hsrc Hbody)
        as [_ Hok]. cbn [fs reset_temps] in Hok.
      rewrite Hm in Hok. by specialize (Hok (mk_is_Some _ _ eq_refl)). }
    split.
    + split; [done|]. intros (probe & vs & src & Hr & [m Hm]).
      destruct (Hno _ _ _ _ Hr Hm).
    + intros probe vs src m Hr Hm. destruct (Hno _ _ _ _ Hr Hm).
Qed.

(** A witness for X8: the scenario of the specification, where every command
    exits with status 0. *)
Lemma normal_return_iff_all_stages_succeed_witness :
  let E := Demo.env [Demo.clip] Demo.all_fine [] in
  let out := mark_video E "clip.mp4" None None None Demo.start in
  out.1 = Ok tt ∧ fs out.2 !! "clip_marked.mp4" = Some File.
Proof.
  intros E out.
  pose proof (normal_return_iff_all_stages_succeed E "clip.mp4" None None None
                Demo.start out.1 out.2 (Path.of_string "clip_marked.mp4")
                (resolve_paths E "clip.mp4" None Demo.start).2
                (surjective_pairing out) ltac:(vm_compute; reflexivity))
    as [Hiff Hstate].
  assert (Hready :
    _ffprobe_param E "clip.mp4" (fs (resolve_paths E "clip.mp4" None Demo.start).2)
    = Ok {| streams := Some [Demo.clip] |}
    ∧ passes_validation None {| streams := Some [Demo.clip] |} Demo.clip
    ∧ _generate_lavfi_drawtext E (resolved_text "clip.mp4" None)
        (resolved_resolution None Demo.clip) (QArith_base.Qmake 1 2)
      = Ok "drawtext=Filename: clip.mp4").
  { split; [vm_compute; reflexivity|]. split; [|vm_compute; reflexivity].
    repeat split; try (vm_compute; reflexivity). apply list_elem_of_here. }
  split.
  - apply Hiff. exists {| streams := Some [Demo.clip] |}, Demo.clip,
      "drawtext=Filename: clip.mp4". split; [exact Hready|].
    exists {[ "clip.mp4" := File; "/tmp/marker_ab12.mp4" := File;
              "/tmp/marker_ab12.ts" := File; "/tmp/main_ab12.ts" := File;
              "clip_marked.mp4" := File ]}.
    vm_compute. reflexivity.
  - refine (eq_trans (proj2 (Hstate _ _ _
              {[ "clip.mp4" := File; "/tmp/marker_ab12.mp4" := File;
                 "/tmp/marker_ab12.ts" := File; "/tmp/main_ab12.ts" := File;
                 "clip_marked.mp4" := File ]} Hready _) "clip_marked.mp4" _) _).
    + vm_compute. reflexivity.
    + rewrite !elem_of_cons, elem_of_nil.
      intros [H|[H|[H|[]]]]; vm_compute in H; discriminate.
    + vm_compute. reflexivity.
Defined.

(** X9.  On every exit the cleanup leaves alone each path that is not one of
    the three locals: what is there stays, whatever the outcome of the
    removals. *)
Theorem cleanup_touches_only_temps E s q :
  Some q ∉ temps s →
  (mark_video_finally E s).1 = Ok tt
  ∧ fs (mark_video_finally E s).2 !! q = fs s !! q
  ∧ log (mark_video_finally E s).2 = log s.
Proof.
  intros Hq. destruct (finally_spec E s) as (m' & Hfin & _).
  split_and!.
  - by rewrite Hfin.
  - exact (cleanup_other E (temps s) s q Hq).
  - by rewrite Hfin.
Qed.

(** A witness for X9: two of the temporary files are there, one of them
    cannot be removed, and [clip.mp4] stays. *)
Lemma cleanup_touches_only_temps_witness :
  let s := mkState {[ "/tmp/a.mp4" := File; "/tmp/a.ts" := File;
                      "clip.mp4" := File ]} []
             (Some "/tmp/a.mp4") (Some "/tmp/a.ts") (Some "/tmp/b.ts") in
  let E := Demo.env [] Demo.all_fine ["/tmp/a.ts"] in
  fs (mark_video_finally E s).2
  = {[ "/tmp/a.ts" := File; "clip.mp4" := File ]}
  ∧ fs (mark_video_finally E s).2 !! "clip.mp4" = Some File.
Proof.
  intros s E. split; [vm_compute; reflexivity|].
  refine (eq_trans (proj1 (proj2 (cleanup_touches_only_temps E s "clip.mp4" _))) _).
  - unfold temps. cbn. rewrite !elem_of_cons, elem_of_nil.
    intros [H|[H|[H|[]]]]; discriminate H.
  - vm_compute. reflexivity.
Defined.

(** ** [mark_video]: what is read of the probe output *)

Lemma body_same_first_streams E f input_path output_p resolution overlay_text
    s p1 p2 :
  _ffprobe_param E input_path (fs s) = Ok p1 →
  f input_path (fs s) = Ok p2 →
  same_first_streams p1 p2 →
  mark_video_body (with_probe f E) input_path output_p resolution overlay_text s
  = mark_video_body E input_path output_p resolution overlay_text s.
Proof.
  intros H1 H2 (Hnil & Hv & Ha).
  unfold mark_video_body, bind, try_except.
  cbn [_ffprobe_param with_probe]. rewrite H1, H2.
  destruct (default [] (streams p1)) as [|a l], (default [] (streams p2)) as [|b l'].
  - done.
  - discriminate (proj1 Hnil eq_refl).
  - discriminate (proj2 Hnil eq_refl).
  - by rewrite Hv, Ha.
Qed.

(** X10.  Of the probe output a call reads whether there is a stream at all,
    the first video stream and the first audio stream, and nothing else:
    with a probe output that agrees on these three, the call has the same
    outcome and ends in the same state. Later streams of either kind, and
    streams of other kinds, do not matter. *)
Theorem only_first_streams_read E f input_path output_path resolution
    overlay_text s output_p s1 p1 p2 :
  resolve_paths E input_path output_path s = (Ok output_p, s1) →
  _ffprobe_param E input_path (fs s1) = Ok p1 →
  f input_path (fs s1) = Ok p2 →
  same_first_streams p1 p2 →
  mark_video (with_probe f E) input_path output_path resolution overlay_text s
  = mark_video E input_path output_path resolution overlay_text s.
Proof.
  intros Hp H1 H2 Hsame.
  unfold mark_video. unfold bind at 1 5.
  change (resolve_paths (with_probe f E)) with (resolve_paths E). rewrite Hp.
  unfold bind, set_marker_container, set_marker_ts, set_main_ts, try_finally,
    mark_video_try, try_except.
  cbn [fs log marker_container marker_ts main_ts].
  fold (reset_temps s1).
  rewrite (body_same_first_streams E f input_path output_p resolution
             overlay_text (reset_temps s1) p1 p2 H1 H2 Hsame).
  reflexivity.
Qed.

(** A witness for X10: a subtitle stream in front, and a second video and a
    second audio stream behind, change nothing. *)
Lemma only_first_streams_read_witness :
  let subtitle :=
    {| codec_type := Some "subtitle"; codec_name := Some "mov_text";
       width := None; height := None; r_frame_rate := None |} in
  let long := [subtitle; Demo.clip; Demo.audio "aac";
               Demo.video "vp9" 0 0 None; Demo.audio "mp3"] in
  let short := [Demo.clip; Demo.audio "aac"] in
  let E := Demo.env long Demo.all_fine [] in
  mark_video (with_probe (λ _ _, Ok {| streams := Some short |}) E)
    "clip.mp4" None None None Demo.start
  = mark_video E "clip.mp4" None None None Demo.start.
Proof.
  intros subtitle long short E.
  refine (only_first_streams_read E _ "clip.mp4" None None None Demo.start
            (Path.of_string "clip_marked.mp4")
            (resolve_paths E "clip.mp4" None Demo.start).2
            {| streams := Some long |} {| streams := Some short |} _ _ _ _);
    try (vm_compute; reflexivity).
  split; [split; intros H; discriminate H|split; reflexivity].
Defined.

(** ** [errors.py]: the message of [UnsupportedFileTypeError] *)

Lemma split_rfind c s :
  match PyStr.rfind c s with
  | None => PyStr.split c s = [s]
  | Some i => ∃ x l, PyStr.split c s = (x :: l ++ [PyStr.drop (S i) s])%list
  end.
Proof.
  induction s as [|a s IH]; [done|]. cbn [PyStr.rfind PyStr.split].
  destruct (PyStr.rfind c s) as [i|].
  - destruct IH as (x & l & ->). destruct (Ascii.eqb a c).
    + by exists "", (x :: l).
    + by exists (String a x), l.
  - rewrite IH. destruct (Ascii.eqb a c).
    + by exists "", [].
    + done.
Qed.

Lemma last_split c s :
  last (PyStr.split c s)
  = Some match PyStr.rfind c s with
         | Some i => PyStr.drop (S i) s
         | None => s
         end.
Proof.
  pose proof (split_rfind c s) as H. destruct (PyStr.rfind c s) as [i|].
  - destruct H as (x & l & ->).
    by rewrite app_comm_cons, last_snoc.
  - by rewrite H.
Qed.

Lemma rfind_after c s i :
  PyStr.rfind c s = Some i → PyStr.rfind c (PyStr.drop (S i) s) = None.
Proof.
  revert i. induction s as [|a s IH]; [done|]. intros i. cbn [PyStr.rfind].
  destruct (PyStr.rfind c s) as [j|] eqn:Hr.
  - intros [= <-]. by apply IH.
  - destruct (Ascii.eqb a c); [|done]. by intros [= <-].
Qed.

Lemma rfind_take_drop c s i :
  PyStr.rfind c s = Some i →
  s = PyStr.take i s +:+ String c (PyStr.drop (S i) s).
Proof.
  revert i. induction s as [|a s IH]; [done|]. intros i. cbn [PyStr.rfind].
  destruct (PyStr.rfind c s) as [j|] eqn:Hr.
  - intros [= <-]. cbn [PyStr.take PyStr.drop]. rewrite app_cons.
    f_equal. by apply IH.
  - destruct (Ascii.eqb a c) eqn:Hac; [|done]. intros [= <-].
    apply Ascii.eqb_eq in Hac as ->. done.
Qed.

(** X11.  The message of [UnsupportedFileTypeError] always names an
    extension: [split] never returns an empty list, so the [IndexError] of
    line 67 cannot happen and the words [with no extension] never appear.
    What is named is the text after the last dot of the path, and the
    whole path when it holds no dot: the path is then what stands before
    that dot, the dot and the named text, which holds no dot itself. *)
Theorem unsupported_type_message_names_extension path supported_formats :
  ∃ ext,
    UnsupportedFileTypeError_message path supported_formats
    = "File type " +:+ ("'." +:+ ext +:+ "'")
      +:+ " is not supported for this operation. "
      +:+ "Supported formats are: "
      +:+ PyStr.join ", " (PyStr.sorted (elements supported_formats))
    ∧ PyStr.rfind "." ext = None
    ∧ match PyStr.rfind "." path with
      | None => ext = path
      | Some i =>
          ext = PyStr.drop (S i) path
          ∧ path = PyStr.take i path +:+ "." +:+ ext
      end.
Proof.
  exists (match PyStr.rfind "." path with
          | Some i => PyStr.drop (S i) path
          | None => path
          end).
  unfold UnsupportedFileTypeError_message. rewrite last_split.
  split; [done|].
  destruct (PyStr.rfind "." path) as [i|] eqn:Hr; [|done].
  split; [by eapply rfind_after|]. split; [done|].
  by apply rfind_take_drop.
Qed.

(** The extension that the message names, on three paths. *)
Example unsupported_type_messages :
  UnsupportedFileTypeError_message "a.b/clip.tar.gz" ∅
  = "File type '.gz' is not supported for this operation. Supported formats are: "
  ∧ UnsupportedFileTypeError_message "README" ∅
    = "File type '.README' is not supported for this operation. Supported formats are: "
  ∧ UnsupportedFileTypeError_message "v1.2/README" ∅
    = "File type '.2/README' is not supported for this operation. Supported formats are: ".
Proof. split_and!; vm_compute; reflexivity. Qed.

(** ** [mark_audio.py] *)

Lemma audio_suffix_nonempty p :
  PyStr.lower (Path.suffix p) ∈ AUDIO_EXTS → Path.suffix p ≠ "".
Proof.
  intros Hin Hs. rewrite Hs in Hin.
  pose proof (bool_decide_eq_true_2 _ Hin) as H. vm_compute in H. discriminate.
Qed.

Lemma suffix_mp4 r l pre :
  pre ≠ "" → Path.suffix (Path.mk r (l ++ [pre +:+ ".mp4"])) = ".mp4".
Proof.
  intros Hpre. unfold Path.suffix, Path.suffix_index. rewrite name_snoc.
  rewrite rfind_app.
  replace (PyStr.rfind "." ".mp4") with (Some 0%nat) by reflexivity.
  rewrite Nat.add_0_r, length_app.
  assert (0 < String.length pre)%nat by (destruct pre; [done|simpl; lia]).
  replace (0 <? String.length pre)%nat with true by (symmetry; apply Nat.ltb_lt; lia).
  replace (String.length pre <? String.length pre + String.length ".mp4" - 1)%nat
    with true by (symmetry; apply Nat.ltb_lt; simpl; lia).
  cbn [andb]. apply drop_app_length.
Qed.

Lemma take_length s : PyStr.take (String.length s) s = s.
Proof. induction s as [|a s IH]; [done|]. simpl. by rewrite IH. Qed.

Lemma take_stem p :
  PyStr.take (String.length (Path.name p) - String.length (Path.suffix p))
    (Path.name p)
  = Path.stem p.
Proof.
  unfold Path.suffix, Path.stem.
  destruct (Path.suffix_index (Path.name p)) as [i|] eqn:Hi.
  - rewrite length_drop. f_equal. unfold Path.suffix_index in Hi.
    destruct (PyStr.rfind "." (Path.name p)) as [j|] eqn:Hj; [|done].
    apply rfind_lt in Hj. revert Hi. destruct (_ && _); [|done].
    intros [= <-]. lia.
  - simpl. rewrite Nat.sub_0_r. apply take_length.
Qed.

Lemma with_suffix_mp4 p s :
  Path.suffix p ≠ "" →
  with_suffix p ".mp4" s
  = (Ok (Path.mk (Path.root p)
           (removelast (Path.parts p) ++ [Path.stem p +:+ ".mp4"])), s).
Proof.
  intros Hsuf. unfold with_suffix.
  change (str_contains "/" ".mp4") with false. cbv iota.
  change ((negb (bool_decide (".mp4" = "")) && negb (PyStr.take 1 ".mp4" =? "."))
          || (".mp4" =? "."))%bool with false. cbv iota.
  rewrite bool_decide_eq_false_2 by (by apply suffix_name_nonempty).
  rewrite (bool_decide_eq_false_2 _ Hsuf). by rewrite take_stem.
Qed.

(** Lines 41-64: what resolving the paths checks and leaves.  A call that
    names no output gets the name of the input with its suffix replaced by
    [.mp4]. *)
Lemma audio_resolve_paths_spec E input_path output_path s r s1 :
  audio_resolve_paths E input_path output_path s = (r, s1) →
  log s1 = log s
  ∧ temps s1 = temps s
  ∧ (∀ q x, lookup_path (fs s) q = Some x → lookup_path (fs s1) q = Some x)
  ∧ match r with
    | Ok output_p =>
        lookup_path (fs s) (Path.str (Path.of_string input_path)) = Some File
        ∧ PyStr.lower (Path.suffix (Path.of_string input_path)) ∈ AUDIO_EXTS
        ∧ lookup_path (fs s1) (Path.str (Path.parent output_p)) = Some Dir
        ∧ output_p
          = match output_path with
            | None =>
                let input_p := Path.of_string input_path in
                Path.mk (Path.root input_p)
                  (removelast (Path.parts input_p)
                   ++ [Path.stem input_p +:+ ".mp4"])
            | Some o => Path.of_string o
            end
        ∧ PyStr.lower (Path.suffix output_p) = ".mp4"
    | Err e =>
        isinstance e Cls.MarkerError = true
        ∨ (e = Raise Cls.ValueError "embedded null byte"
           ∧ PyStr.has_nul
               (Path.str
                  (Path.parent
                     match output_path with
                     | None =>
                         let input_p := Path.of_string input_path in
                         Path.mk (Path.root input_p)
                           (removelast (Path.parts input_p)
                            ++ [Path.stem input_p +:+ ".mp4"])
                     | Some o => Path.of_string o
                     end)) = true)
    end.
Proof.
  unfold audio_resolve_paths.
  unfold bind at 1, path_exists, os_path_exists, bind at 1, get_fs at 1, ret at 1.
  destruct (lookup_path (fs s) (Path.str (Path.of_string input_path)))
    as [k|] eqn:Hin.
  2:{ rewrite bool_decide_eq_false_2 by (by intros [? ?]).
      intros [= <- <-]. split_and!; try done. by left. }
  rewrite bool_decide_eq_true_2 by eauto. cbn [negb].
  unfold bind at 1, path_is_file, bind at 1, get_fs at 1, ret at 1. rewrite Hin.
  case_bool_decide as Hfile;
    [|intros [= <- <-]; split_and!; try done; by left]. cbn [negb].
  case_bool_decide as Hext;
    [|intros [= <- <-]; split_and!; try done; by left]. cbn [negb].
  unfold bind at 1.
  set (pick := match output_path with
               | Some o => _ | None => _ end).
  assert (Hpick : (∃ output_p,
             pick s = (Ok output_p, s)
             ∧ output_p
               = match output_path with
                 | None =>
                     let input_p := Path.of_string input_path in
                     Path.mk (Path.root input_p)
                       (removelast (Path.parts input_p)
                        ++ [Path.stem input_p +:+ ".mp4"])
                 | Some o => Path.of_string o
                 end
             ∧ PyStr.lower (Path.suffix output_p) = ".mp4")
           ∨ ∃ e, pick s = (Err e, s) ∧ isinstance e Cls.MarkerError = true).
  { subst pick. destruct output_path as [o|].
    - case_bool_decide as Hmp4; [|right; by eexists]. cbn [negb].
      unfold bind. rewrite path_is_dir_spec.
      case_bool_decide as Hd; [right; by eexists|]. left. by eexists.
    - left. eexists. rewrite with_suffix_mp4 by (by apply audio_suffix_nonempty).
      split_and!; [done|done|]. cbn zeta. rewrite suffix_mp4; [done|].
      by apply stem_nonempty, suffix_name_nonempty, audio_suffix_nonempty. }
  clearbody pick.
  destruct Hpick as [(output_p & -> & Hout & Hmp4)|(e & -> & He)];
    [|intros [= <- <-]; split_and!; try done; by left].
  unfold bind at 1.
  destruct (try_except _ _ s) as [[[]|e] s2] eqn:Hmk;
    apply guarded_mkdir_spec in Hmk as (Hl & Ht & Hkeep & Hfile' & Hres);
    intros [= <- <-].
  - destruct Hres as [Hdir _]. split_and!; done.
  - split_and!; try done. destruct Hres as [?|[-> Hnul]]; [by left|right].
    split; [done|]. by rewrite Hout in Hnul.
Qed.

(** How a call of [mark_audio] goes once its paths are resolved. *)
Lemma mark_audio_spec E default_duration input_path output_path resolution
    overlay_text s r s' :
  mark_audio E default_duration input_path output_path resolution overlay_text s
  = (r, s') →
  (∃ e, r = Err e ∧ audio_resolve_paths E input_path output_path s = (Err e, s'))
  ∨ ∃ output_p s1,
      audio_resolve_paths E input_path output_path s = (Ok output_p, s1)
      ∧ let text := resolved_text input_path overlay_text in
        let s2 := mkState (fs s1) (log s1 ++ [Drawtext text resolution])
                    (marker_container s1) (marker_ts s1) (main_ts s1) in
        match _generate_lavfi_drawtext E text resolution default_duration with
        | Err e => r = Err e ∧ s' = s2
        | Ok src =>
            let cmd := ffmpeg_cmd src input_path output_p in
            match execute E cmd (fs s1) with
            | (subprocess.NotFound, _) =>
                r = Err (FFmpegNotFoundError "ffmpeg/ffprobe")
                ∧ s' = after_run s2 cmd (fs s1)
            | (subprocess.Exited rc _ _, m) =>
                r = (if (rc =? 0)%Z then Ok tt
                     else Err (FFmpegProcessError cmd None))
                ∧ s' = after_run s2 cmd m
            end
        end.
Proof.
  unfold mark_audio. unfold bind at 1.
  destruct (audio_resolve_paths E input_path output_path s)
    as [[output_p|e] s1] eqn:Hp.
  2:{ intros [= <- <-]. left. eauto. }
  intros H. right. exists output_p, s1. split; [done|]. cbn zeta.
  fold (resolved_text input_path overlay_text) in H.
  unfold bind at 1, emit at 1 in H. unfold bind at 1 in H.
  destruct (_generate_lavfi_drawtext E _ _ _) as [src|e]; [|by injection H as <- <-].
  unfold try_except in H.
  set (s2 := mkState (fs s1) _ _ _ _) in *.
  destruct (run_checked_spec E (ffmpeg_cmd src input_path output_p) s2)
    as (m & [[Hr (out & err & Hx)]|(e & Hr & Hf & Hx)]); rewrite Hr in H.
  - injection H as <- <-. cbn [fs s2] in Hx. by rewrite Hx.
  - destruct Hf as [|rc Hrc]; cbn [fs s2] in Hx.
    + destruct Hx as (-> & m' & ->). by injection H as <- <-.
    + destruct Hx as (out & err & ->). apply Z.eqb_neq in Hrc as ->.
      by injection H as <- <-.
Qed.

(** X12.  Once the paths are resolved and the text source is produced,
    [mark_audio] runs one command and reports how it ends: normally when it
    exits with status 0, with [FFmpegProcessError] carrying the command and
    no error text when it exits with another status, and with
    [FFmpegNotFoundError] when there is no executable to run. *)
Theorem audio_stage_outcome_reported E default_duration input_path output_path
    resolution overlay_text s r s' output_p s1 src :
  mark_audio E default_duration input_path output_path resolution overlay_text s
  = (r, s') →
  audio_resolve_paths E input_path output_path s = (Ok output_p, s1) →
  _generate_lavfi_drawtext E (resolved_text input_path overlay_text) resolution
    default_duration = Ok src →
  let cmd := ffmpeg_cmd src input_path output_p in
  r = match (execute E cmd (fs s1)).1 with
      | subprocess.NotFound => Err (FFmpegNotFoundError "ffmpeg/ffprobe")
      | subprocess.Exited rc _ _ =>
          if (rc =? 0)%Z then Ok tt else Err (FFmpegProcessError cmd None)
      end
  ∧ log s'
    = (log s ++ [Drawtext (resolved_text input_path overlay_text) resolution;
                 Run cmd])%list
  ∧ message_of (FFmpegProcessError cmd None)
    = Some ("A subprocess call to FFmpeg failed." +:+ LF +:+ "Command: "
            +:+ cmd_str cmd).
Proof.
  intros Hrun Hp Hsrc cmd.
  apply mark_audio_spec in Hrun as [(e & _ & Hp')|(output_p' & s1' & Hp' & H)];
    rewrite Hp in Hp'; [done|]. injection Hp' as <- <-.
  cbn zeta in H. rewrite Hsrc in H. fold cmd in H.
  apply audio_resolve_paths_spec in Hp as (Hl & _).
  destruct (execute E cmd (fs s1)) as [[|rc out err] m]; destruct H as [-> ->];
    cbn [fst log after_run]; rewrite Hl, <- app_assoc; done.
Qed.

(** A witness for X12: [song.mp3] with a command that exits with status 1. *)
Lemma audio_stage_outcome_reported_witness :
  let E := Demo.env [] Demo.all_fail [] in
  let s := mkState {[ "song.mp3" := File ]} [] None None None in
  let out := mark_audio E (QArith_base.Qmake 1 2) "song.mp3" None (1280, 256)%Z
               None s in
  out.1 = Err (FFmpegProcessError
                 (ffmpeg_cmd "drawtext=Filename: song.mp3" "song.mp3"
                    (Path.of_string "song.mp4")) None).
Proof.
  intros E s out.
  refine (proj1 (audio_stage_outcome_reported E (QArith_base.Qmake 1 2)
                   "song.mp3" None (1280, 256)%Z None s out.1 out.2
                   (Path.of_string "song.mp4")
                   (audio_resolve_paths E "song.mp3" None s).2
                   "drawtext=Filename: song.mp3"
                   (surjective_pairing out) _ _)); vm_compute; reflexivity.
Defined.

(** X13.  Every exception that leaves [mark_audio] is a [MarkerError], but
    for two: what the text source generator raises, since it is called
    before the [try], and the [ValueError] that [mkdir] raises on line 60
    when the directory of the output holds a NUL byte, which the
    [except OSError] of line 61 does not catch. *)
Theorem exceptions_that_leave_mark_audio E default_duration input_path
    output_path resolution overlay_text s e s' :
  mark_audio E default_duration input_path output_path resolution overlay_text s
  = (Err e, s') →
  isinstance e Cls.MarkerError = true
  ∨ _generate_lavfi_drawtext E (resolved_text input_path overlay_text)
      resolution default_duration = Err e
  ∨ (e = Raise Cls.ValueError "embedded null byte"
     ∧ PyStr.has_nul
         (Path.str
            (Path.parent
               match output_path with
               | None => default_output_audio (Path.of_string input_path)
               | Some o => Path.of_string o
               end)) = true).
Proof.
  intros Hrun.
  apply mark_audio_spec in Hrun as [(e' & [= <-] & Hp)|(output_p & s1 & Hp & H)].
  { apply audio_resolve_paths_spec in Hp as (_ & _ & _ & [Hm|Hm]); tauto. }
  cbn zeta in H.
  destruct (_generate_lavfi_drawtext E _ _ _) as [src|e0].
  - left. destruct (execute E _ (fs s1)) as [[|rc out err] m];
      destruct H as [Hr _].
    + by injection Hr as ->.
    + destruct (rc =? 0)%Z; [done|]. by injection Hr as ->.
  - right; left. destruct H as [[= <-] _]. done.
Qed.

(** A witness for X13: the output [out\0/song.mp4], whose directory holds
    a NUL byte. *)
Lemma exceptions_that_leave_mark_audio_witness :
  let E := Demo.env [] Demo.all_fine [] in
  let s := mkState {[ "song.mp3" := File ]} [] None None None in
  let output_path := "out" +:+ String "000" "/song.mp4" in
  let out := mark_audio E (QArith_base.Qmake 1 2) "song.mp3" (Some output_path)
               (1280, 256)%Z None s in
  let e := Raise Cls.ValueError "embedded null byte" in
  out.1 = Err e
  ∧ (isinstance e Cls.MarkerError = true
     ∨ _generate_lavfi_drawtext E (resolved_text "song.mp3" None) (1280, 256)%Z
         (QArith_base.Qmake 1 2) = Err e
     ∨ (e = Raise Cls.ValueError "embedded null byte"
        ∧ PyStr.has_nul
            (Path.str (Path.parent (Path.of_string output_path))) = true)).
Proof.
  intros E s output_path out e. split; [vm_compute; reflexivity|].
  apply (exceptions_that_leave_mark_audio E (QArith_base.Qmake 1 2) "song.mp3"
           (Some output_path) (1280, 256)%Z None s e out.2).
  vm_compute. reflexivity.
Defined.

(** X14.  A call of [mark_audio] runs at most one command; it reads the
    input and writes to a path whose suffix, in lower case, is [.mp4], in a
    directory that exists when the command is run. *)
Theorem audio_destination_is_mp4 E default_duration input_path output_path
    resolution overlay_text s r s' i cmd :
  mark_audio E default_duration input_path output_path resolution overlay_text s
  = (r, s') →
  log s' !! (length (log s) + i)%nat = Some (Run cmd) →
  i = 1%nat
  ∧ length (log s') = (length (log s) + 2)%nat
  ∧ cmd !! 7%nat = Some input_path
  ∧ ∃ output_p s1,
      audio_resolve_paths E input_path output_path s = (Ok output_p, s1)
      ∧ last cmd = Some (Path.str output_p)
      ∧ PyStr.lower (Path.suffix output_p) = ".mp4"
      ∧ lookup_path (fs s1) (Path.str (Path.parent output_p)) = Some Dir.
Proof.
  intros Hrun Hev.
  apply mark_audio_spec in Hrun as [(e & _ & Hp)|(output_p & s1 & Hp & H)].
  { apply audio_resolve_paths_spec in Hp as (Hl & _). rewrite Hl in Hev.
    apply lookup_lt_Some in Hev. lia. }
  pose proof (audio_resolve_paths_spec _ _ _ _ _ _ Hp)
    as (Hl & _ & _ & _ & _ & Hdir & _ & Hmp4).
  cbn zeta in H.
  destruct (_generate_lavfi_drawtext E _ _ _) as [src|e0].
  - assert (Hlog : log s'
                   = (log s ++ [Drawtext (resolved_text input_path overlay_text)
                                 resolution;
                               Run (ffmpeg_cmd src input_path output_p)])%list).
    { destruct (execute E _ (fs s1)) as [[|rc out err] m]; destruct H as [_ ->];
        cbn [log after_run]; by rewrite Hl, <- app_assoc. }
    rewrite Hlog in Hev |- *.
    rewrite lookup_app_r, Nat.add_comm, Nat.add_sub in Hev by lia.
    destruct i as [|[|i]]; [done| |done].
    injection Hev as <-. rewrite List.length_app.
    split_and!; [done|simpl; lia|done|]. by exists output_p, s1.
  - destruct H as [_ ->]. cbn [log] in Hev. rewrite Hl in Hev.
    rewrite lookup_app_r, Nat.add_comm, Nat.add_sub in Hev by lia.
    by destruct i as [|[|i]].
Qed.

(** A witness for X14: the input [a/song.FLAC]. *)
Lemma audio_destination_is_mp4_witness :
  let E := Demo.env [] Demo.all_fine [] in
  let s := mkState {[ "a/song.FLAC" := File; "a" := Dir ]} [] None None None in
  let out := mark_audio E (QArith_base.Qmake 1 2) "a/song.FLAC" None
               (1280, 256)%Z None s in
  ∃ cmd, log out.2 !! 1%nat = Some (Run cmd) ∧ cmd !! 7%nat = Some "a/song.FLAC".
Proof.
  intros E s out. eexists. split; [vm_compute; reflexivity|].
  refine (proj1 (proj2 (proj2
    (audio_destination_is_mp4 E (QArith_base.Qmake 1 2) "a/song.FLAC" None
       (1280, 256)%Z None s out.1 out.2 1%nat _ (surjective_pairing out) _)))).
  vm_compute. reflexivity.
Defined.

(** ** [io.py]: [categorize] *)

Lemma exts_disjoint x :
  (x ∈ IMAGE_EXTS → (x ∉ AUDIO_EXTS) ∧ (x ∉ VIDEO_EXTS))
  ∧ (x ∈ AUDIO_EXTS → x ∉ VIDEO_EXTS).
Proof.
  assert (H1 : IMAGE_EXTS ∩ AUDIO_EXTS = ∅)
    by (refine (bool_decide_eq_true_1 _ _); vm_compute; reflexivity).
  assert (H2 : IMAGE_EXTS ∩ VIDEO_EXTS = ∅)
    by (refine (bool_decide_eq_true_1 _ _); vm_compute; reflexivity).
  assert (H3 : AUDIO_EXTS ∩ VIDEO_EXTS = ∅)
    by (refine (bool_decide_eq_true_1 _ _); vm_compute; reflexivity).
  assert (Hno : ∀ X Y : gset string, X ∩ Y = ∅ → x ∈ X → x ∉ Y).
  { intros X Y HXY HX HY. apply (not_elem_of_empty (C:=gset string) x).
    rewrite <- HXY. by apply elem_of_intersection. }
  split; [intros Hi; split|]; eauto.
Qed.

(** X15.  [categorize] sorts the files by extension, in lower case: each of
    the four buckets holds the files of its kind in the order of the input,
    the bucket [unknown] those of no kind. The three sets of extensions do
    not overlap, so the order of the tests of lines 69-76 does not matter,
    and every file lands in exactly one bucket. *)
Theorem categorize_buckets files :
  let ext (f : Path.t) := PyStr.lower (Path.suffix f) in
  categorize files
  = {[ "photo" := filter (λ f, ext f ∈ IMAGE_EXTS) files;
       "audio" := filter (λ f, ext f ∈ AUDIO_EXTS) files;
       "video" := filter (λ f, ext f ∈ VIDEO_EXTS) files;
       "unknown" :=
         filter (λ f, ext f ∉ IMAGE_EXTS ∪ AUDIO_EXTS ∪ VIDEO_EXTS) files ]}
  ∧ (length (filter (λ f, ext f ∈ IMAGE_EXTS) files)
     + length (filter (λ f, ext f ∈ AUDIO_EXTS) files)
     + length (filter (λ f, ext f ∈ VIDEO_EXTS) files)
     + length (filter (λ f, ext f ∉ IMAGE_EXTS ∪ AUDIO_EXTS ∪ VIDEO_EXTS) files)
     = length files)%nat.
Proof.
  intros ext. split.
  - unfold categorize.
    match goal with |- foldl ?st _ _ = _ => set (step := st) end.
    set (B := λ l : list Path.t,
           ({[ "photo" := filter (λ f, ext f ∈ IMAGE_EXTS) l;
               "audio" := filter (λ f, ext f ∈ AUDIO_EXTS) l;
               "video" := filter (λ f, ext f ∈ VIDEO_EXTS) l;
               "unknown" :=
                 filter (λ f, ext f ∉ IMAGE_EXTS ∪ AUDIO_EXTS ∪ VIDEO_EXTS) l ]}
            : gmap string (list Path.t))).
    enough (Hgen : ∀ done, foldl step (B done) files = B (done ++ files)%list)
      by exact (Hgen []).
    induction files as [|f files IH].
    + intros done. by rewrite app_nil_r.
    + intros done. cbn [foldl].
      replace (done ++ f :: files)%list with ((done ++ [f]) ++ files)%list
        by (by rewrite <- app_assoc).
      rewrite <- IH. f_equal. subst step B. cbv beta. fold (ext f).
      rewrite !filter_app.
      destruct (exts_disjoint (ext f)) as [Hia Hav].
      case_bool_decide as Hi; [|case_bool_decide as Ha; [|case_bool_decide as Hv]].
      * destruct (Hia Hi).
        rewrite (filter_cons_True (λ f, ext f ∈ IMAGE_EXTS)) by done.
        rewrite (filter_cons_False (λ f, ext f ∈ AUDIO_EXTS)) by done.
        rewrite (filter_cons_False (λ f, ext f ∈ VIDEO_EXTS)) by done.
        rewrite (filter_cons_False (λ f, ext f ∉ _)) by (rewrite !elem_of_union; tauto).
        rewrite !filter_nil, !app_nil_r. by rewrite alter_insert_eq.
      * rewrite (filter_cons_False (λ f, ext f ∈ IMAGE_EXTS)) by done.
        rewrite (filter_cons_True (λ f, ext f ∈ AUDIO_EXTS)) by done.
        rewrite (filter_cons_False (λ f, ext f ∈ VIDEO_EXTS)) by auto.
        rewrite (filter_cons_False (λ f, ext f ∉ _)) by (rewrite !elem_of_union; tauto).
        rewrite !filter_nil, !app_nil_r.
        rewrite !alter_insert_ne by done. by rewrite alter_insert_eq.
      * rewrite (filter_cons_False (λ f, ext f ∈ IMAGE_EXTS)) by done.
        rewrite (filter_cons_False (λ f, ext f ∈ AUDIO_EXTS)) by done.
        rewrite (filter_cons_True (λ f, ext f ∈ VIDEO_EXTS)) by done.
        rewrite (filter_cons_False (λ f, ext f ∉ _)) by (rewrite !elem_of_union; tauto).
        rewrite !filter_nil, !app_nil_r.
        rewrite !alter_insert_ne by done. by rewrite alter_insert_eq.
      * rewrite (filter_cons_False (λ f, ext f ∈ IMAGE_EXTS)) by done.
        rewrite (filter_cons_False (λ f, ext f ∈ AUDIO_EXTS)) by done.
        rewrite (filter_cons_False (λ f, ext f ∈ VIDEO_EXTS)) by done.
        rewrite (filter_cons_True (λ f, ext f ∉ _)) by (rewrite !elem_of_union; tauto).
        rewrite !filter_nil, !app_nil_r.
        rewrite !alter_insert_ne by done. by rewrite alter_singleton_eq.
  - induction files as [|f files IH]; [done|].
    destruct (exts_disjoint (ext f)) as [Hia Hav].
    destruct (decide (ext f ∈ IMAGE_EXTS)) as [Hi|Hi];
      [|destruct (decide (ext f ∈ AUDIO_EXTS)) as [Ha|Ha];
        [|destruct (decide (ext f ∈ VIDEO_EXTS)) as [Hv|Hv]]].
    + destruct (Hia Hi).
      rewrite (filter_cons_True (λ f, ext f ∈ IMAGE_EXTS)) by done.
      rewrite (filter_cons_False (λ f, ext f ∈ AUDIO_EXTS)) by done.
      rewrite (filter_cons_False (λ f, ext f ∈ VIDEO_EXTS)) by done.
      rewrite (filter_cons_False (λ f, ext f ∉ _)) by (rewrite !elem_of_union; tauto).
      simpl. lia.
    + rewrite (filter_cons_False (λ f, ext f ∈ IMAGE_EXTS)) by done.
      rewrite (filter_cons_True (λ f, ext f ∈ AUDIO_EXTS)) by done.
      rewrite (filter_cons_False (λ f, ext f ∈ VIDEO_EXTS)) by auto.
      rewrite (filter_cons_False (λ f, ext f ∉ _)) by (rewrite !elem_of_union; tauto).
      simpl. lia.
    + rewrite (filter_cons_False (λ f, ext f ∈ IMAGE_EXTS)) by done.
      rewrite (filter_cons_False (λ f, ext f ∈ AUDIO_EXTS)) by done.
      rewrite (filter_cons_True (λ f, ext f ∈ VIDEO_EXTS)) by done.
      rewrite (filter_cons_False (λ f, ext f ∉ _)) by (rewrite !elem_of_union; tauto).
      simpl. lia.
    + rewrite (filter_cons_False (λ f, ext f ∈ IMAGE_EXTS)) by done.
      rewrite (filter_cons_False (λ f, ext f ∈ AUDIO_EXTS)) by done.
      rewrite (filter_cons_False (λ f, ext f ∈ VIDEO_EXTS)) by done.
      rewrite (filter_cons_True (λ f, ext f ∉ _)) by (rewrite !elem_of_union; tauto).
      simpl. lia.
Qed.

(** ** [io.py]: [construct_output_path] *)

Lemma out_name_cases modality stem ext :
  out_name modality stem ext
  = if bool_decide (modality = "audio") then stem +:+ ".mp4"
    else stem +:+ "_marked" +:+ ext.
Proof.
  unfold out_name. repeat case_bool_decide; congruence.
Qed.

Lemma out_name_component p modality :
  path_wf p →
  Path.of_string (out_name modality (Path.stem p) (Path.suffix p))
  = Path.mk "" [out_name modality (Path.stem p) (Path.suffix p)].
Proof.
  intros Hwf. rewrite out_name_cases. apply of_string_component.
  - case_bool_decide; intros Heq; apply (f_equal String.length) in Heq;
      rewrite !length_app in Heq; simpl in Heq; lia.
  - case_bool_decide; intros Heq; apply (f_equal String.length) in Heq;
      rewrite !length_app in Heq; simpl in Heq; lia.
  - case_bool_decide; rewrite !rfind_app_None; split_and!;
      first [by apply stem_nosep | by apply suffix_nosep | done].
Qed.



Lemma construct_output_path_run E cwd input_path output_base modality
    preserve_structure source_base s r s' :
  path_wf input_path →
  construct_output_path E cwd input_path output_base modality
    preserve_structure source_base s = (r, s') →
  log s' = log s ∧ temps s' = temps s
  ∧ (∀ q x, lookup_path (fs s) q = Some x → lookup_path (fs s') q = Some x)
  ∧ (∀ q, lookup_path (fs s') q = Some File → lookup_path (fs s) q = Some File)
  ∧ match r with
    | Ok out =>
        let dir := target_dir cwd input_path output_base preserve_structure
                     source_base in
        out = Path.mk (Path.root dir)
                (Path.parts dir
                 ++ [out_name modality (Path.stem input_path)
                       (Path.suffix input_path)])
        ∧ lookup_path (fs s') (Path.str dir) = Some Dir
    | Err e =>
        mkdir_failure
          (target_dir cwd input_path output_base preserve_structure source_base)
          e
    end.
Proof.
  intros Hwf. unfold construct_output_path.
  generalize (target_dir cwd input_path output_base preserve_structure
                source_base) as dir. intros dir.
  unfold bind.
  destruct (path_mkdir_parents E dir s) as [[[]|e] s2] eqn:Hmk;
    apply path_mkdir_parents_spec in Hmk as (Hl & Ht & Hkeep & Hfile & Hres);
    intros [= <- <-]; (split; [done|]); (split; [done|]); (split; [done|]);
    (split; [done|]); [|done].
  cbn zeta. rewrite out_name_component by done. unfold path_join.
  cbn [Path.root Path.parts]. rewrite bool_decide_eq_true_2 by done.
  split; [done|]. by destruct Hres.
Qed.

(** X16.  The name of the output file follows the modality: the stem of the
    input with [.mp4] for audio, and the stem, [_marked] and the suffix of
    the input for everything else. So an audio output has the suffix [.mp4]
    and the stem of the input, and any other output has the suffix of the
    input when the input has one. *)
Theorem output_name_follows_modality E cwd input_path output_base modality
    preserve_structure source_base s out s' :
  path_wf input_path →
  Path.name input_path ≠ "" →
  construct_output_path E cwd input_path output_base modality
    preserve_structure source_base s = (Ok out, s') →
  Path.name out
  = (if bool_decide (modality = "audio") then Path.stem input_path +:+ ".mp4"
     else Path.stem input_path +:+ "_marked" +:+ Path.suffix input_path)
  ∧ (modality = "audio" → Path.suffix out = ".mp4")
  ∧ (modality ≠ "audio" → Path.suffix input_path ≠ "" →
     Path.suffix out = Path.suffix input_path)
  ∧ (Path.name out = Path.name input_path
     ↔ modality = "audio" ∧ Path.suffix input_path = ".mp4").
Proof.
  intros Hwf Hname Hrun.
  apply construct_output_path_run in Hrun as (_ & _ & _ & _ & -> & _); [|done].
  pose proof (stem_nonempty _ Hname) as Hstem.
  rewrite name_snoc, out_name_cases. split_and!.
  - done.
  - intros ->. rewrite bool_decide_eq_true_2 by done. by apply suffix_mp4.
  - intros Hm Hsuf. rewrite bool_decide_eq_false_2 by done.
    rewrite <- str_app_assoc. apply suffix_with_stem; [done|].
    by destruct (Path.stem input_path).
  - rewrite <- (stem_suffix input_path). case_bool_decide as Hm.
    + split; [|by intros [_ ->]]. intros Heq. split; [done|].
      apply (f_equal (PyStr.drop (String.length (Path.stem input_path)))) in Heq.
      by rewrite !drop_app_length in Heq.
    + split; [|by intros [? _]]. intros Heq.
      apply (f_equal String.length) in Heq.
      rewrite !length_app in Heq. simpl in Heq. lia.
Qed.

(** A witness for X16: the audio file [in/a.b/song.FLAC]. *)
Lemma output_name_follows_modality_witness :
  let E := Demo.env [] Demo.all_fine [] in
  let input_path := Path.of_string "in/a.b/song.FLAC" in
  let res := construct_output_path E (Path.of_string "/home/u") input_path
               (Path.of_string "out") "audio" false None Demo.start in
  ∃ out, res.1 = Ok out ∧ Path.str out = "out/song.mp4"
         ∧ Path.suffix out = ".mp4".
Proof.
  intros E input_path res. exists (Path.of_string "out/song.mp4").
  split; [vm_compute; reflexivity|]. split; [reflexivity|].
  refine (proj1 (proj2
    (output_name_follows_modality E (Path.of_string "/home/u") input_path
       (Path.of_string "out") "audio" false None Demo.start
       (Path.of_string "out/song.mp4") res.2 _ _ _)) eq_refl).
  - apply of_string_wf.
  - vm_compute. discriminate.
  - vm_compute. reflexivity.
Defined.





(** Without the condition on the input the output can leave the base:
    [relative_to] keeps a [..] of the input, and the output of
    [/home/u/../etc/song.mp3] is [out/../etc/song.mp4]. *)
Example dot_dot_in_the_input_leaves_the_base :
  (construct_output_path (Demo.env [] Demo.all_fine [])
     (Path.of_string "/home/u") (Path.of_string "/home/u/../etc/song.mp3")
     (Path.of_string "out") "audio" true None Demo.start).1
  = Ok (Path.mk "" ["out"; ".."; "etc"; "song.mp4"]).
Proof. vm_compute. reflexivity. Qed.

(** ** [cli.py] *)

Lemma mkdir_parents_existing E root rparts s :
  PyStr.has_nul (Path.str (Path.mk root (rev rparts))) = false →
  lookup_path (fs s) (Path.str (Path.mk root (rev rparts))) = Some Dir →
  mkdir_parents E root rparts s = (Ok tt, s).
Proof.
  intros Hnul Hd.
  assert (Hmk : os_mkdir E (Path.mk root (rev rparts)) s
                = (Err (Raise Cls.FileExistsError "File exists"), s)).
  { unfold os_mkdir. rewrite Hnul. unfold bind, get_fs. by rewrite Hd. }
  destruct rparts as [|x rparts]; cbn [mkdir_parents]; unfold try_except;
    rewrite Hmk;
    change (isinstance (Raise Cls.FileExistsError "File exists")
              Cls.FileNotFoundError) with false;
    change (isinstance (Raise Cls.FileExistsError "File exists") Cls.OSError)
      with true; cbv iota;
    unfold bind; rewrite path_is_dir_spec;
    by rewrite bool_decide_eq_true_2.
Qed.

(** X18.  [ensure_output_dir] returns the path it was given; the directory
    is then there, and a second call changes nothing.  It fails with the
    [ValueError] of [mkdir], leaving everything as it was, when the path
    holds a NUL byte, and only then; every other failure is an [OSError].
    Either way nothing that existed is lost and no file is created. *)
Theorem output_dir_ensured E base_output s r s' :
  ensure_output_dir E base_output s = (r, s') →
  (∀ q x, lookup_path (fs s) q = Some x → lookup_path (fs s') q = Some x)
  ∧ (∀ q, lookup_path (fs s') q = Some File → lookup_path (fs s) q = Some File)
  ∧ match r with
    | Ok p =>
        p = base_output
        ∧ PyStr.has_nul (Path.str base_output) = false
        ∧ lookup_path (fs s') (Path.str base_output) = Some Dir
        ∧ ensure_output_dir E base_output s' = (Ok base_output, s')
    | Err e =>
        if PyStr.has_nul (Path.str base_output)
        then e = Raise Cls.ValueError "embedded null byte" ∧ s' = s
        else isinstance e Cls.OSError = true
    end.
Proof.
  unfold ensure_output_dir, bind.
  destruct (path_mkdir_parents E base_output s) as [[[]|e] s2] eqn:Hmk;
    pose proof (path_mkdir_parents_spec _ _ _ _ _ Hmk)
      as (_ & _ & Hkeep & Hfile & Hres);
    intros [= <- <-]; (split; [done|]); (split; [done|]).
  - destruct Hres as [Hdir Hnul]. split_and!; try done.
    unfold path_mkdir_parents. rewrite mkdir_parents_existing; [done| |];
      rewrite rev_involutive; by destruct base_output.
  - unfold mkdir_failure in Hres.
    destruct (PyStr.has_nul (Path.str base_output)) eqn:Hnul; [|done].
    split; [done|]. unfold path_mkdir_parents in Hmk.
    rewrite mkdir_parents_nul in Hmk; [by injection Hmk|].
    rewrite rev_involutive. by destruct base_output.
Qed.

(** A witness for X18: the directory [out/marked] on a filesystem without
    [out]. *)
Lemma output_dir_ensured_witness :
  let E := Demo.env [] Demo.all_fine [] in
  let base_output := Path.of_string "out/marked" in
  let res := ensure_output_dir E base_output Demo.start in
  fs res.2 = {[ "clip.mp4" := File; "out" := Dir; "out/marked" := Dir ]}
  ∧ ensure_output_dir E base_output res.2 = (Ok base_output, res.2).
Proof.
  intros E base_output res. split; [vm_compute; reflexivity|].
  refine (proj2 (proj2 (proj2 (proj2 (proj2
    (output_dir_ensured E base_output Demo.start (Ok base_output) res.2 _)))))).
  vm_compute. reflexivity.
Defined.

(** A path that holds a NUL byte: [mkdir] raises a [ValueError], which is
    not an [OSError]. *)
Example output_dir_with_nul :
  (ensure_output_dir (Demo.env [] Demo.all_fine [])
     (Path.of_string ("out" +:+ String "000" "")) Demo.start).1
  = Err (Raise Cls.ValueError "embedded null byte")
  ∧ isinstance (Raise Cls.ValueError "embedded null byte") Cls.OSError = false.
Proof. split; vm_compute; reflexivity. Qed.

Lemma construct_output_path_error E cwd input_path output_base modality
    preserve_structure source_base s e s' :
  construct_output_path E cwd input_path output_base modality
    preserve_structure source_base s = (Err e, s') →
  isinstance e Cls.OSError = true
  ∨ (e = Raise Cls.ValueError "embedded null byte"
     ∧ PyStr.has_nul
         (Path.str (target_dir cwd input_path output_base preserve_structure
                      source_base)) = true).
Proof.
  unfold construct_output_path, bind.
  destruct (path_mkdir_parents E _ s) as [[[]|e0] s2] eqn:Hmk; [done|].
  apply path_mkdir_parents_spec in Hmk as (_ & _ & _ & _ & Hres).
  intros [= <- <-]. by apply mkdir_failure_cases.
Qed.

(** X19.  The video worker records a [MarkerError] of [mark_video] as a
    failure and reports a normal return as a success, for the output path
    that [construct_output_path] gave.  Three kinds of exception are not
    caught: an [OSError] from making the output directory, the
    [ValueError] that [mkdir] raises for a NUL byte in the path, and the
    [AttributeError] that [mark_video] raises when a command exits with a
    status other than 0. *)
Theorem video_worker_outcome E cwd p output_base preserve_structure s r s' :
  process_video E cwd p output_base preserve_structure s = (r, s') →
  match r with
  | Ok o =>
      modality o = "video" ∧ path o = p
      ∧ ∃ s1,
          construct_output_path E cwd p output_base "video" preserve_structure
            None s = (Ok (out_path o), s1)
          ∧ match (mark_video E (Path.str p) (Some (Path.str (out_path o)))
                     None None s1).1 with
            | Ok _ => success o = true ∧ error o = None
            | Err e =>
                success o = false ∧ error o = Some e
                ∧ isinstance e Cls.MarkerError = true
            end
  | Err e =>
      isinstance e Cls.OSError = true
      ∨ class_of e = Cls.AttributeError
      ∨ e = Raise Cls.ValueError "embedded null byte"
  end.
Proof.
  unfold process_video. unfold bind at 1.
  destruct (construct_output_path E cwd p output_base "video" preserve_structure
              None s) as [[out|e] s1] eqn:Hc.
  2:{ intros [= <- <-].
      apply construct_output_path_error in Hc as [?|[? _]]; tauto. }
  unfold try_except, bind.
  destruct (mark_video E (Path.str p) (Some (Path.str out)) None None s1)
    as [[[]|e] s2] eqn:Hrun.
  - intros [= <- <-]. cbn. split_and!; [done|done|].
    exists s1. by rewrite Hrun.
  - destruct (isinstance e Cls.MarkerError) eqn:Hm; intros [= <- <-].
    + cbn. split_and!; [done|done|]. exists s1. by rewrite Hrun.
    + right.
      apply mark_video_spec in Hrun
        as [(e' & [= <-] & Hp)|(output_p & s3 & s4 & Hp & Htry & Hfin)].
      { destruct (proj2 (proj2 (resolve_paths_spec E _ _ _ _ _ Hp)))
          as [H|[H _]]; [congruence|by right]. }
      apply mark_video_try_spec in Htry as [[[=] _]|(e0 & _ & Hexc)].
      apply except_classes in Hexc as (e' & [= <-] & [H|[H _]]);
        [congruence|by left].
Qed.

(** A witness for X19: every command exits with status 1, and the
    [AttributeError] leaves the worker. *)
Lemma video_worker_outcome_witness :
  let E := Demo.env [Demo.clip] Demo.all_fail [] in
  let res := process_video E (Path.of_string "/home/u") (Path.of_string "clip.mp4")
               (Path.of_string "out") false Demo.start in
  let e := AttributeError "'NoneType' object has no attribute 'decode'" in
  res.1 = Err e
  ∧ (isinstance e Cls.OSError = true
     ∨ class_of e = Cls.AttributeError
     ∨ e = Raise Cls.ValueError "embedded null byte").
Proof.
  intros E res e. split; [vm_compute; reflexivity|].
  refine (video_worker_outcome E (Path.of_string "/home/u")
            (Path.of_string "clip.mp4") (Path.of_string "out") false Demo.start
            (Err e) res.2 _).
  vm_compute. reflexivity.
Defined.

(** X20.  The audio worker records a [MarkerError] of [mark_audio] as a
    failure, among them the process failure and the missing executable,
    and reports a normal return as a success.  Three kinds of exception
    are not caught: an [OSError] from making the output directory, the
    [ValueError] that [mkdir] raises for a NUL byte in the path, and what
    the text source generator raises. *)
Theorem audio_worker_outcome E default_duration cwd p output_base
    preserve_structure s r s' :
  process_audio E default_duration cwd p output_base preserve_structure s
  = (r, s') →
  match r with
  | Ok o =>
      modality o = "audio" ∧ path o = p
      ∧ ∃ s1,
          construct_output_path E cwd p output_base "audio" preserve_structure
            None s = (Ok (out_path o), s1)
          ∧ match (mark_audio E default_duration (Path.str p)
                     (Some (Path.str (out_path o)))
                     mark_audio_default_resolution None s1).1 with
            | Ok _ => success o = true ∧ error o = None
            | Err e =>
                success o = false ∧ error o = Some e
                ∧ isinstance e Cls.MarkerError = true
            end
  | Err e =>
      isinstance e Cls.OSError = true
      ∨ _generate_lavfi_drawtext E (resolved_text (Path.str p) None)
          mark_audio_default_resolution default_duration = Err e
      ∨ e = Raise Cls.ValueError "embedded null byte"
  end.
Proof.
  unfold process_audio. unfold bind at 1.
  destruct (construct_output_path E cwd p output_base "audio" preserve_structure
              None s) as [[out|e] s1] eqn:Hc.
  2:{ intros [= <- <-].
      apply construct_output_path_error in Hc as [?|[? _]]; tauto. }
  unfold try_except, bind.
  destruct (mark_audio E default_duration (Path.str p) (Some (Path.str out))
              mark_audio_default_resolution None s1)
    as [[[]|e] s2] eqn:Hrun.
  - intros [= <- <-]. cbn. split_and!; [done|done|].
    exists s1. by rewrite Hrun.
  - destruct (isinstance e Cls.MarkerError) eqn:Hm; intros [= <- <-].
    + cbn. split_and!; [done|done|]. exists s1. by rewrite Hrun.
    + right.
      apply mark_audio_spec in Hrun as [(e' & [= <-] & Hp)|(output_p & s3 & Hp & H)].
      { apply audio_resolve_paths_spec in Hp as (_ & _ & _ & [H|[H _]]);
          [congruence|by right]. }
      cbn zeta in H.
      destruct (_generate_lavfi_drawtext E _ _ _) as [src|e0].
      * destruct (execute E _ (fs s3)) as [[|rc out' err] m];
          destruct H as [Hr _].
        -- injection Hr as ->. done.
        -- destruct (rc =? 0)%Z; [done|]. injection Hr as ->. done.
      * destruct H as [[= <-] _]. by left.
Qed.

(** A witness for X20: every command exits with status 1, and the worker
    records the process failure. *)
Lemma audio_worker_outcome_witness :
  let E := Demo.env [] Demo.all_fail [] in
  let s := mkState {[ "song.mp3" := File ]} [] None None None in
  let res := process_audio E (QArith_base.Qmake 1 2) (Path.of_string "/home/u")
               (Path.of_string "song.mp3") (Path.of_string "out") false s in
  let o := mkOutcome "audio" (Path.of_string "song.mp3")
             (Path.of_string "out/song.mp4") false
             (Some (FFmpegProcessError
                      (ffmpeg_cmd "drawtext=Filename: song.mp3" "song.mp3"
                         (Path.of_string "out/song.mp4")) None)) in
  res.1 = Ok o
  ∧ isinstance (FFmpegProcessError
                  (ffmpeg_cmd "drawtext=Filename: song.mp3" "song.mp3"
                     (Path.of_string "out/song.mp4")) None)
      Cls.MarkerError = true.
Proof.
  intros E s res o.
  assert (Hres : process_audio E (QArith_base.Qmake 1 2)
                   (Path.of_string "/home/u") (Path.of_string "song.mp3")
                   (Path.of_string "out") false s = (Ok o, res.2))
    by (vm_compute; reflexivity).
  split; [vm_compute; reflexivity|].
  destruct (audio_worker_outcome E (QArith_base.Qmake 1 2)
              (Path.of_string "/home/u") (Path.of_string "song.mp3")
              (Path.of_string "out") false s (Ok o) res.2 Hres)
    as (_ & _ & s1 & Hc & H).
  assert (Hs1 : s1 = (construct_output_path E (Path.of_string "/home/u")
                        (Path.of_string "song.mp3") (Path.of_string "out")
                        "audio" false None s).2) by (by rewrite Hc).
  rewrite Hs1 in H.
  exact (proj2 (proj2 H)).
Defined.

(** ** [mark_image.py] and the photo worker *)

Lemma image_suffix_nonempty p :
  PyStr.lower (Path.suffix p) ∈ IMAGE_EXTS → Path.suffix p ≠ "".
Proof.
  intros Hin Hs. rewrite Hs in Hin.
  pose proof (bool_decide_eq_true_2 _ Hin) as H. vm_compute in H. discriminate.
Qed.

Lemma image_resolve_paths_spec E input_path output_path s r s1 :
  image_resolve_paths E input_path output_path s = (r, s1) →
  log s1 = log s
  ∧ match r with
    | Ok output_p =>
        lookup_path (fs s) (Path.str (Path.of_string input_path)) = Some File
        ∧ PyStr.lower (Path.suffix (Path.of_string input_path)) ∈ IMAGE_EXTS
        ∧ PyStr.lower (Path.suffix output_p) ∈ IMAGE_EXTS
        ∧ lookup_path (fs s1) (Path.str (Path.parent output_p)) = Some Dir
    | Err e =>
        isinstance e Cls.MarkerError = true
        ∨ (e = Raise Cls.ValueError "embedded null byte"
           ∧ PyStr.has_nul
               (Path.str
                  (Path.parent
                     match output_path with
                     | None => default_output_video (Path.of_string input_path)
                     | Some o => Path.of_string o
                     end)) = true)
    end.
Proof.
  unfold image_resolve_paths.
  unfold bind at 1, path_exists, os_path_exists, bind at 1, get_fs at 1, ret at 1.
  destruct (lookup_path (fs s) (Path.str (Path.of_string input_path)))
    as [k|] eqn:Hin.
  2:{ rewrite bool_decide_eq_false_2 by (by intros [? ?]).
      intros [= <- <-]. split; [done|by left]. }
  rewrite bool_decide_eq_true_2 by eauto. cbn [negb].
  unfold bind at 1, path_is_file, bind at 1, get_fs at 1, ret at 1. rewrite Hin.
  case_bool_decide as Hfile; [|intros [= <- <-]; split; [done|by left]].
  cbn [negb].
  case_bool_decide as Hext; [|intros [= <- <-]; split; [done|by left]].
  cbn [negb].
  unfold bind at 1.
  set (pick := match output_path with
               | Some o => _ | None => _ end).
  assert (Hpick : (∃ output_p,
             pick s = (Ok output_p, s)
             ∧ output_p = match output_path with
                          | None => default_output_video (Path.of_string input_path)
                          | Some o => Path.of_string o
                          end
             ∧ PyStr.lower (Path.suffix output_p) ∈ IMAGE_EXTS)
           ∨ ∃ e, pick s = (Err e, s) ∧ isinstance e Cls.MarkerError = true).
  { subst pick. destruct output_path as [o|].
    - case_bool_decide; [|right; by eexists]. cbn [negb].
      unfold bind. rewrite path_is_dir_spec.
      case_bool_decide as Hd; [right; by eexists|]. left. by eexists.
    - left. eexists. rewrite with_stem_ok.
      + split_and!; [done|done|]. rewrite suffix_with_stem; [done| |].
        * by apply image_suffix_nonempty.
        * by destruct (Path.stem (Path.of_string input_path)).
      + apply of_string_wf.
      + by apply image_suffix_nonempty.
      + by destruct (Path.stem (Path.of_string input_path)).
      + apply rfind_app_None. split; [apply stem_nosep, of_string_wf|done]. }
  clearbody pick.
  destruct Hpick as [(output_p & -> & Hout & Hsuf)|(e & -> & He)];
    [|intros [= <- <-]; split; [done|by left]].
  unfold bind at 1.
  destruct (try_except _ _ s) as [[[]|e] s2] eqn:Hmk;
    apply guarded_mkdir_spec in Hmk as (Hl & _ & _ & _ & Hres);
    intros [= <- <-].
  - destruct Hres as [Hdir _]. split_and!; done.
  - split; [done|]. by rewrite <- Hout.
Qed.

Lemma image_try_error E
    (draw_and_save : string → Path.t → option string → gmap string node
                     → Result unit * gmap string node)
    input_path output_p overlay_text s e s' :
  try_except
    (λ s, let '(r, m) := draw_and_save input_path output_p overlay_text (fs s) in
          (r, mkState m (log s) (marker_container s) (marker_ts s) (main_ts s)))
    (mark_image_except E) s = (Err e, s') →
  isinstance e Cls.MarkerError = true ∧ log s' = log s.
Proof.
  unfold try_except.
  destruct (draw_and_save input_path output_p overlay_text (fs s)) as [[[]|e1] m];
    [done|].
  unfold mark_image_except.
  destruct (isinstance e1 Cls.MarkerError) eqn:Hm; by intros [= <- <-].
Qed.

(** X21.  Every exception that leaves [mark_image] is a [MarkerError],
    whatever the image library does, with one exception: the [ValueError]
    that [mkdir] raises on line 60 when the directory of the output holds
    a NUL byte, which the [except OSError] of line 61 does not catch.
    The checks on the paths raise nothing else, and what lines 67-104
    raise is passed on when it is a [MarkerError] and wrapped in an
    [ImageMarkingError] otherwise.  The call logs nothing: no process is
    run. *)
Theorem exceptions_that_leave_mark_image E draw_and_save input_path
    output_path overlay_text s e s' :
  mark_image E draw_and_save input_path output_path overlay_text s = (Err e, s') →
  (isinstance e Cls.MarkerError = true
   ∨ (e = Raise Cls.ValueError "embedded null byte"
      ∧ PyStr.has_nul
          (Path.str
             (Path.parent
                match output_path with
                | None => default_output_video (Path.of_string input_path)
                | Some o => Path.of_string o
                end)) = true))
  ∧ log s' = log s.
Proof.
  unfold mark_image. unfold bind at 1.
  destruct (image_resolve_paths E input_path output_path s)
    as [[output_p|e0] s1] eqn:Hp;
    apply image_resolve_paths_spec in Hp as [Hl H].
  2:{ by intros [= <- <-]. }
  intros [Hm Hlog]%image_try_error. split; [by left|]. by rewrite Hlog.
Qed.

(** A witness for X21: the image library cannot read the file. *)
Lemma exceptions_that_leave_mark_image_witness :
  let E := Demo.env [] Demo.all_fine [] in
  let draw := λ (_ : string) (_ : Path.t) (_ : option string)
                (m : gmap string node),
                (@Err unit (Raise Cls.OSError "cannot identify image file"), m) in
  let s := mkState {[ "pic.PNG" := File ]} [] None None None in
  let e := Raise Cls.ImageMarkingError
             "An unexpected error occurred during image processing: cannot identify image file" in
  (mark_image E draw "pic.PNG" None None s).1 = Err e
  ∧ log (mark_image E draw "pic.PNG" None None s).2 = log s.
Proof.
  intros E draw s e. split; [vm_compute; reflexivity|].
  refine (proj2 (exceptions_that_leave_mark_image E draw "pic.PNG" None None s e
                   (mark_image E draw "pic.PNG" None None s).2 _)).
  vm_compute. reflexivity.
Defined.

(** X22.  The photo worker reports a normal return of [mark_image] as a
    success and records every [MarkerError] of [mark_image] as a failure.
    Two kinds of exception leave the worker: an [OSError] from making the
    output directory, and the [ValueError] that [mkdir] raises for a NUL
    byte in the path. *)
Theorem photo_worker_outcome E cwd draw_and_save p output_base
    preserve_structure s r s' :
  process_photo E cwd draw_and_save p output_base preserve_structure s
  = (r, s') →
  match r with
  | Ok o =>
      modality o = "photo" ∧ path o = p
      ∧ ∃ s1,
          construct_output_path E cwd p output_base "photo" preserve_structure
            None s = (Ok (out_path o), s1)
          ∧ match (mark_image E draw_and_save (Path.str p)
                     (Some (Path.str (out_path o))) None s1).1 with
            | Ok _ => success o = true ∧ error o = None
            | Err e =>
                success o = false ∧ error o = Some e
                ∧ isinstance e Cls.MarkerError = true
            end
  | Err e =>
      isinstance e Cls.OSError = true
      ∨ e = Raise Cls.ValueError "embedded null byte"
  end.
Proof.
  unfold process_photo. unfold bind at 1.
  destruct (construct_output_path E cwd p output_base "photo" preserve_structure
              None s) as [[out|e] s1] eqn:Hc.
  2:{ intros [= <- <-].
      apply construct_output_path_error in Hc as [?|[? _]]; tauto. }
  unfold try_except, bind.
  destruct (mark_image E draw_and_save (Path.str p) (Some (Path.str out)) None s1)
    as [[[]|e] s2] eqn:Hrun.
  - intros [= <- <-]. cbn. split_and!; [done|done|].
    exists s1. by rewrite Hrun.
  - assert (Hm : isinstance e Cls.MarkerError = true
                 ∨ e = Raise Cls.ValueError "embedded null byte").
    { revert Hrun. unfold mark_image. unfold bind at 1.
      destruct (image_resolve_paths E (Path.str p) (Some (Path.str out)) s1)
        as [[output_p|e0] s3] eqn:Hp;
        apply image_resolve_paths_spec in Hp as [_ H].
      2:{ intros [= <- <-]. destruct H as [?|[? _]]; tauto. }
      intros [Hm _]%image_try_error. by left. }
    destruct Hm as [Hm| ->].
    + rewrite Hm. intros [= <- <-]. cbn. split_and!; [done|done|]. exists s1.
      by rewrite Hrun.
    + intros [= <- <-]. by right.
Qed.

(** A witness for X22: the output directory cannot be made. *)
Lemma photo_worker_outcome_witness :
  let E := Demo.env [] Demo.all_fine ["out"] in
  let draw := λ (_ : string) (_ : Path.t) (_ : option string)
                (m : gmap string node), (Ok tt, m) in
  let s := mkState {[ "pic.png" := File ]} [] None None None in
  let res := process_photo E (Path.of_string "/home/u") draw
               (Path.of_string "pic.png") (Path.of_string "out") false s in
  let e := Raise Cls.PermissionError "Permission denied" in
  res.1 = Err e
  ∧ (isinstance e Cls.OSError = true
     ∨ e = Raise Cls.ValueError "embedded null byte").
Proof.
  intros E draw s res e. split; [vm_compute; reflexivity|].
  refine (photo_worker_outcome E (Path.of_string "/home/u") draw
            (Path.of_string "pic.png") (Path.of_string "out") false s
            (Err e) res.2 _).
  vm_compute. reflexivity.
Defined.

(** ** [io.py]: [gather_files] *)

Lemma gather_one_spec resolve glob recursive excl p result s :
  let is_file f := lookup_path (fs s) (Path.str f) = Some File in
  let is_dir f := lookup_path (fs s) (Path.str f) = Some Dir in
  gather_one resolve glob recursive excl p result s
  = if decide (resolve p = excl) then (Ok result, s)
    else if decide (is_file p) then (Ok (result ++ [resolve p])%list, s)
    else if decide (is_dir p) then
      (Ok (result
           ++ (resolve <$>
               filter is_file
                 (glob p (if recursive then "**/*" else "*") (fs s))))%list, s)
    else (Err (InputFileNotFoundError (Path.str p)), s).
Proof.
  intros is_file is_dir. unfold gather_one.
  case_bool_decide; [by rewrite decide_True|]. rewrite decide_False by done.
  unfold bind, path_is_file, path_is_dir, get_fs, ret, raise, bind. cbn.
  case_bool_decide; [by rewrite decide_True|]. rewrite decide_False by done.
  cbn. case_bool_decide; [by rewrite decide_True|]. by rewrite decide_False.
Qed.

Lemma gather_loop_spec resolve glob (recursive : bool) excl paths result s :
  let is_file f := lookup_path (fs s) (Path.str f) = Some File in
  let is_dir f := lookup_path (fs s) (Path.str f) = Some Dir in
  let found (p : Path.t) : list Path.t :=
    if decide (resolve p = excl) then []
    else if decide (is_file p) then [resolve p]
    else resolve <$>
         filter is_file (glob p (if recursive then "**/*" else "*") (fs s)) in
  let missing (p : Path.t) : Prop := resolve p ≠ excl ∧ ¬ is_file p ∧ ¬ is_dir p in
  (gather_loop resolve glob recursive excl paths result s).2 = s
  ∧ match (gather_loop resolve glob recursive excl paths result s).1 with
    | Ok all =>
        Forall (λ p, ¬ missing p) paths
        ∧ all = (result ++ concat (found <$> paths))%list
    | Err e =>
        ∃ before p after,
          paths = (before ++ p :: after)%list
          ∧ Forall (λ q, ¬ missing q) before ∧ missing p
          ∧ e = InputFileNotFoundError (Path.str p)
    end.
Proof.
  intros is_file is_dir found missing. revert result.
  induction paths as [|p paths IH]; intros result.
  { cbn. split; [done|]. split; [constructor|]. by rewrite app_nil_r. }
  cbn [gather_loop]. unfold bind at 1 2. rewrite gather_one_spec.
  destruct (decide (resolve p = excl)) as [Hx|Hx];
    [|destruct (decide (lookup_path (fs s) (Path.str p) = Some File)) as [Hf|Hf];
      [|destruct (decide (lookup_path (fs s) (Path.str p) = Some Dir))
          as [Hd|Hd]]].
  4:{ cbn. split; [done|]. exists [], p, paths. split_and!; try done. }
  all: match goal with
       | |- context [gather_loop _ _ _ _ _ ?res _] =>
           destruct (IH res) as [Hs Hr]
       end; split; [done|];
       destruct (gather_loop _ _ _ _ _ _ s).1 as [all|e].
  all: try (destruct Hr as [Hall ->]; split;
            [constructor; [unfold missing; tauto|done]|];
            cbn [fmap list_fmap concat]; unfold found at 2;
            rewrite ?decide_True, ?decide_False by done;
            rewrite ?decide_True, ?decide_False by done;
            by rewrite ?app_nil_l, <- ?app_assoc).
  all: destruct Hr as (before & q & after & -> & Hb & Hq & ->);
       exists (p :: before), q, after; split_and!; try done;
       constructor; [unfold missing; tauto|done].
Qed.

(** X23.  [gather_files] reads the filesystem and does not change it.  It
    goes through the inputs in order (the current directory when there is
    none) and gathers, for each input, nothing when the input resolves to
    the output directory, the resolved input when it is a file, and the
    resolved files that [glob] finds when it is a directory.  The first
    input that is none of these stops the call with
    [InputFileNotFoundError] for that input, and what was gathered is lost.
    The output directory is left out only as an input: what [glob] finds
    in another input is not compared with it. *)
Theorem gather_files_result resolve glob paths (recursive : bool) output_dir s :
  let inputs := if paths is [] then [Path.of_string "."] else paths in
  let is_file f := lookup_path (fs s) (Path.str f) = Some File in
  let is_dir f := lookup_path (fs s) (Path.str f) = Some Dir in
  let found (p : Path.t) : list Path.t :=
    if decide (resolve p = resolve output_dir) then []
    else if decide (is_file p) then [resolve p]
    else resolve <$>
         filter is_file (glob p (if recursive then "**/*" else "*") (fs s)) in
  let missing (p : Path.t) : Prop := resolve p ≠ resolve output_dir ∧ ¬ is_file p ∧ ¬ is_dir p in
  (gather_files resolve glob paths recursive output_dir s).2 = s
  ∧ match (gather_files resolve glob paths recursive output_dir s).1 with
    | Ok all =>
        Forall (λ p, ¬ missing p) inputs
        ∧ all = concat (found <$> inputs)
        ∧ ∀ p f, p ∈ inputs → resolve p ≠ resolve output_dir → is_dir p →
                 f ∈ glob p (if recursive then "**/*" else "*") (fs s) →
                 is_file f → resolve f ∈ all
    | Err e =>
        ∃ before p after,
          inputs = (before ++ p :: after)%list
          ∧ Forall (λ q, ¬ missing q) before ∧ missing p
          ∧ e = InputFileNotFoundError (Path.str p)
    end.
Proof.
  intros inputs is_file is_dir found missing. unfold gather_files.
  fold inputs.
  destruct (gather_loop_spec resolve glob recursive (resolve output_dir) inputs
              [] s) as [Hs Hr].
  split; [done|].
  destruct (gather_loop _ _ _ _ inputs [] s).1 as [all|e]; [|done].
  destruct Hr as [Hall ->]. split_and!; [done|done|].
  intros p f Hp Hx Hd Hf Hff. rewrite app_nil_l.
  apply list_elem_of_In, in_concat. exists (found p).
  split; apply list_elem_of_In.
  - apply list_elem_of_fmap. by exists p.
  - unfold found. rewrite decide_False by done.
    destruct (decide (is_file p)) as [Hpf|Hpf].
    + unfold is_file, is_dir in *. congruence.
    + apply list_elem_of_fmap. exists f. split; [done|].
      by apply list_elem_of_filter.
Qed.
